(** * resor-planner: the apply planner ([apply_planner.py])

    A shallow embedding of [ApplyPlanner] and the properties of the plans
    it produces.

    - Names are Python [str]; they are byte strings here (UTF-8), whose
      lexicographic order is the code point order used by [sorted].
    - A Python [dict] is an association list in insertion order.
    - A Python [set] is a [gset string].
    - A [networkx.DiGraph] keeps its nodes and its edges in insertion order.
    - The three mutually recursive methods thread the instance field
      [_applied] and the list [plan] they all append to; they run in a state
      monad with exceptions.  Python bounds the depth of the call stack
      ([RecursionError]); the embedding takes that bound as [fuel]. *)

From Stdlib Require Import String Ascii.
From stdpp Require Import base gmap sets list strings relations sorting.

Local Open Scope string_scope.
Local Open Scope list_scope.

(** ** Resources and dictionaries *)

(** The resource objects held by the dictionaries; the planner only reads
    [deps] and [tools] (the test suite's [TR] dataclass). *)
Record TR := { name : string; deps : list string; tools : list string }.

#[global] Instance TR_eq_dec : EqDecision TR.
Proof. solve_decision. Defined.

Abbreviation dict := (list (string * TR)).

Definition dict_keys (d : dict) : list string := d.*1.

Fixpoint dict_get (d : dict) (k : string) : option TR :=
  match d with
  | [] => None
  | (k', v) :: d' => if bool_decide (k' = k) then Some v else dict_get d' k
  end.

(** [k in d] *)
Definition dict_in (k : string) (d : dict) : bool :=
  bool_decide (is_Some (dict_get d k)).

(** [d[k] = v]: an existing key keeps its place, a new one goes last. *)
Fixpoint dict_set (d : dict) (k : string) (v : TR) : dict :=
  match d with
  | [] => [(k, v)]
  | (k', v') :: d' =>
      if bool_decide (k' = k) then (k, v) :: d' else (k', v') :: dict_set d' k v
  end.

(** [del d[k]] (for a key that is present). *)
Definition dict_del (d : dict) (k : string) : dict :=
  filter (λ kv, kv.1 ≠ k) d.

(** ** Directed graphs, as [networkx.DiGraph] is used here *)

Record DiGraph := { nodes : list string; edges : list (string * string) }.

Definition DiGraph_empty : DiGraph := {| nodes := []; edges := [] |}.

Definition add_node (n : string) (g : DiGraph) : DiGraph :=
  if bool_decide (n ∈ nodes g) then g
  else {| nodes := nodes g ++ [n]; edges := edges g |}.

Definition add_edge (e : string * string) (g : DiGraph) : DiGraph :=
  let g := add_node e.2 (add_node e.1 g) in
  if bool_decide (e ∈ edges g) then g
  else {| nodes := nodes g; edges := edges g ++ [e] |}.

Definition add_nodes_from (ns : list string) (g : DiGraph) : DiGraph :=
  foldl (λ g n, add_node n g) g ns.

Definition add_edges_from (es : list (string * string)) (g : DiGraph) : DiGraph :=
  foldl (λ g e, add_edge e g) g es.

(** [n in g] *)
Definition has_node (g : DiGraph) (n : string) : bool :=
  bool_decide (n ∈ nodes g).

(** [g.predecessors(n)], in the order the edges were added; [None] stands
    for the [NetworkXError] raised for a node that is not in the graph. *)
Definition predecessors (g : DiGraph) (n : string) : option (list string) :=
  if has_node g n then Some ((filter (λ e, e.2 = n) (edges g)).*1) else None.

(** [nx.compose(G, H)] *)
Definition compose (G H : DiGraph) : DiGraph :=
  add_edges_from (edges H)
    (add_edges_from (edges G)
       (add_nodes_from (nodes H) (add_nodes_from (nodes G) DiGraph_empty))).

(** [nx.find_cycle] is library code.  [_validate_acyclic] observes only
    whether it returns a (non-empty) cycle or raises [NetworkXNoCycle], that
    is, whether the graph has a directed cycle.  The decision procedure
    below repeatedly discards the nodes that have no edge into the remaining
    ones; a graph is acyclic exactly when nothing remains
    ([has_cycle_iff] below). *)
Definition trim (es : list (string * string)) (S : list string) : list string :=
  filter (λ v, Exists (λ w, (v, w) ∈ es) S) S.

Definition has_cycle (g : DiGraph) : bool :=
  match Nat.iter (length (nodes g)) (trim (edges g)) (nodes g) with
  | [] => false
  | _ :: _ => true
  end.

(** ** Exceptions, planner state, and the monad of the recursive methods *)

Inductive exn :=
  ValueError | AssertionError | RecursionError | NetworkXError | KeyError.

Inductive result (A : Type) := Ok (a : A) | Raise (e : exn).
Arguments Ok {A} a.
Arguments Raise {A} e.

#[global] Instance exn_eq_dec : EqDecision exn.
Proof. solve_decision. Defined.

(** What the recursion mutates: the field [self._applied] and the list
    [plan] that every call receives by reference. *)
Record pstate := PState { applied : gset string; ops : list string }.

Definition M (A : Type) : Type := pstate → pstate * result A.

Definition ret {A} (a : A) : M A := λ s, (s, Ok a).
Definition raise {A} (e : exn) : M A := λ s, (s, Raise e).
Definition bind {A B} (m : M A) (k : A → M B) : M B :=
  λ s, match m s with
       | (s', Ok a) => k a s'
       | (s', Raise e) => (s', Raise e)
       end.

Notation "'do' x <- m ; k" := (bind m (λ x, k))
  (at level 10, x name, m at level 100, k at level 200).
Notation "m >> k" := (bind m (λ _, k))
  (at level 100, k at level 200, right associativity).

Definition assert (b : bool) : M unit :=
  if b then ret tt else raise AssertionError.

Definition is_applied (n : string) : M bool :=
  λ s, (s, Ok (bool_decide (n ∈ applied s))).
Definition applied_add (n : string) : M unit :=
  λ s, (PState ({[n]} ∪ applied s) (ops s), Ok tt).
Definition applied_discard (n : string) : M unit :=
  λ s, (PState (applied s ∖ {[n]}) (ops s), Ok tt).
Definition plan_append (op : string) : M unit :=
  λ s, (PState (applied s) (ops s ++ [op]), Ok tt).

Definition applied_clear : M unit :=
  λ s, (PState ∅ (ops s), Ok tt).
Definition get_plan : M (list string) := λ s, (s, Ok (ops s)).
Definition lift {A} (r : result A) : M A := λ s, (s, r).

(** [d[k]] *)
Definition dict_getitem (d : dict) (k : string) : M TR :=
  match dict_get d k with
  | Some v => ret v
  | None => raise KeyError
  end.

Fixpoint for_each {A} (l : list A) (body : A → M unit) : M unit :=
  match l with
  | [] => ret tt
  | x :: l' => body x >> for_each l' body
  end.

(** ** The planner *)

Record ApplyPlanner := {
  _state : dict;
  _target : dict;
  _changed : gset string;
  _delete_deps_graph : DiGraph;
  _tools_deps_graph : DiGraph;
  _applied : gset string
}.

Definition _generate_delete_deps_graph (state : dict) : DiGraph :=
  foldl (λ g kv, add_edges_from (map (λ d, (kv.1, d)) (deps kv.2)) (add_node kv.1 g))
        DiGraph_empty state.

Definition _generate_tools_deps_graph (state : dict) : DiGraph :=
  foldl (λ g kv, add_edges_from (map (λ d, (kv.1, d)) (tools kv.2)) g)
        DiGraph_empty state.

Definition __init__ (state target : dict) (changed : gset string) : ApplyPlanner :=
  {| _state := state;
     _target := target;
     _changed := changed;
     _delete_deps_graph := _generate_delete_deps_graph state;
     _tools_deps_graph := _generate_tools_deps_graph state;
     _applied := ∅ |}.

(** The operations of a plan are the strings ["+name"] and ["-name"]. *)
Definition Create (n : string) : string := "+" +:+ n.
Definition Delete (n : string) : string := "-" +:+ n.

(** [sorted] on a list of names. *)
Fixpoint insert_sorted (x : string) (l : list string) : list string :=
  match l with
  | [] => [x]
  | y :: l' => if String.leb x y then x :: l else y :: insert_sorted x l'
  end.

Definition sorted (l : list string) : list string := foldr insert_sorted [] l.

Section methods.
Variable self : ApplyPlanner.

Definition _is_changed (n : string) : bool := bool_decide (n ∈ _changed self).

Definition _validate_acyclic : result unit :=
  if has_cycle (compose (_delete_deps_graph self) (_tools_deps_graph self))
  then Raise ValueError else Ok tt.

Definition graph_predecessors (g : DiGraph) (n : string) : M (list string) :=
  match predecessors g n with
  | Some l => ret l
  | None => raise NetworkXError
  end.

Fixpoint _apply_resource (fuel : nat) (n : string) {struct fuel} : M unit :=
  match fuel with
  | 0 => raise RecursionError
  | S fuel =>
      do seen <- is_applied n;
      if seen : bool then ret tt
      else
        applied_add n >>
        if negb (dict_in n (_target self)) then _plan_delete fuel n
        else if _is_changed n then
          (_plan_delete fuel n >> _plan_create fuel n)
        else if negb (dict_in n (_state self)) then _plan_create fuel n
        else ret tt
  end
with _plan_create (fuel : nat) (n : string) {struct fuel} : M unit :=
  match fuel with
  | 0 => raise RecursionError
  | S fuel =>
      assert (dict_in n (_target self) || dict_in n (_state self)) >>
      do resource <- match dict_get (_target self) n with
                     | Some r => ret r
                     | None => dict_getitem (_state self) n
                     end;
      for_each (tools resource) (_apply_resource fuel) >>
      for_each (deps resource) (_apply_resource fuel) >>
      plan_append (Create n)
  end
with _plan_delete (fuel : nat) (n : string) {struct fuel} : M unit :=
  match fuel with
  | 0 => raise RecursionError
  | S fuel =>
      assert (dict_in n (_state self)) >>
      (if has_node (_tools_deps_graph self) n then
         do users <- graph_predecessors (_tools_deps_graph self) n;
         for_each users (_apply_resource fuel)
       else ret tt) >>
      (do dependees <- graph_predecessors (_delete_deps_graph self) n;
       for_each dependees (_plan_delete fuel)) >>
      (do current <- dict_getitem (_state self) n;
       for_each (tools current)
         (λ tool, applied_discard n >> _apply_resource fuel tool)) >>
      plan_append (Delete n)
  end.

(** [sorted(specifiers or self._target.keys() | self._state.keys())]:
    an empty list is falsy, like [None]. *)
Definition all_names : gset string :=
  list_to_set (dict_keys (_target self)) ∪ list_to_set (dict_keys (_state self)).

Definition working_set (specifiers : option (list string)) : list string :=
  sorted match specifiers with
         | Some (x :: l) => x :: l
         | Some [] | None => elements all_names
         end.

(** The loop over [self._target] that appends the missing creations. *)
Definition backfill_step (l : list string) (to_be_present : string) : list string :=
  if bool_decide (Delete to_be_present ∈ l) && negb (bool_decide (Create to_be_present ∈ l))
  then l ++ [Create to_be_present] else l.

Definition backfill (l : list string) : list string :=
  foldl backfill_step l (dict_keys (_target self)).

(** Everything [plan] does before its first [yield]. *)
Definition plan_body (fuel : nat) (specifiers : option (list string)) : M (list string) :=
  lift _validate_acyclic >>
  applied_clear >>
  for_each (working_set specifiers) (_apply_resource fuel) >>
  do l <- get_plan;
  ret (backfill l).
End methods.

(** The final loop of [plan]: yield each entry not seen before. *)
Fixpoint yield_unvisited (visited : gset string) (l : list string) : list string :=
  match l with
  | [] => []
  | e :: l' =>
      if bool_decide (e ∈ visited) then yield_unvisited ({[e]} ∪ visited) l'
      else e :: yield_unvisited ({[e]} ∪ visited) l'
  end.

(** What a consumer of the generator observes: the operations yielded, and
    the exception that ended the iteration, if any. *)
Record outcome := { yielded : list string; raised : option exn }.

Definition with_applied (a : gset string) (self : ApplyPlanner) : ApplyPlanner :=
  {| _state := _state self;
     _target := _target self;
     _changed := _changed self;
     _delete_deps_graph := _delete_deps_graph self;
     _tools_deps_graph := _tools_deps_graph self;
     _applied := a |}.

(** [list(self.plan(specifiers))], together with the planner as the call
    leaves it.  [plan = []] is a fresh list for each call. *)
Definition plan (fuel : nat) (self : ApplyPlanner) (specifiers : option (list string))
  : outcome * ApplyPlanner :=
  match plan_body self fuel specifiers (PState (_applied self) []) with
  | (s, Ok l) =>
      ({| yielded := yield_unvisited ∅ l; raised := None |}, with_applied (applied s) self)
  | (s, Raise e) =>
      ({| yielded := []; raised := Some e |}, with_applied (applied s) self)
  end.

(** ** The test suite's fixtures ([apply_planner_test.py]) *)

Definition _build_apply_planner (resources : list TR) (removed new changed : list string)
    (all_new all_removed : bool) : ApplyPlanner :=
  let state := foldl (λ d r, if all_new then d else dict_set d (name r) r) [] resources in
  let target := foldl (λ d r, if all_removed then d else dict_set d (name r) r) [] resources in
  let target := foldl dict_del target removed in
  let state := foldl dict_del state new in
  __init__ state target (list_to_set changed).

Definition TEST_RESOURCES_1 : list TR :=
  [ {| name := "km-config"; deps := []; tools := [] |};
    {| name := "km"; deps := ["km-config"]; tools := [] |};
    {| name := "pes-spool"; deps := []; tools := ["km"] |};
    {| name := "pes"; deps := ["km"; "pes-spool"]; tools := [] |} ].

Definition TEST_RESOURCES_2 : list TR :=
  [ {| name := "adp-rpm"; deps := []; tools := [] |};
    {| name := "database-permission-updater"; deps := ["adp-rpm"]; tools := [] |};
    {| name := "adp-config"; deps := ["adp-rpm"];
       tools := ["database-permission-updater"] |} ].

Definition completes (o : outcome * ApplyPlanner) (l : list string) : Prop :=
  o.1 = {| yielded := l; raised := None |}.

(** ** Vocabulary of the properties *)

(** [steps P l s s']: a loop over [l] whose iterations are related by [P]
    takes [s] to [s']. *)
Inductive steps {A} (P : A → pstate → pstate → Prop) : list A → pstate → pstate → Prop :=
  | steps_nil s : steps P [] s s
  | steps_cons x l s s1 s' :
      P x s s1 → steps P l s1 s' → steps P (x :: l) s s'.

Definition st_add (n : string) (s : pstate) : pstate :=
  PState ({[n]} ∪ applied s) (ops s).
Definition st_discard (n : string) (s : pstate) : pstate :=
  PState (applied s ∖ {[n]}) (ops s).
Definition st_append (op : string) (s : pstate) : pstate :=
  PState (applied s) (ops s ++ [op]).

(** The resource [_plan_create] reads: the target's, else the current one. *)
Definition resource_of (self : ApplyPlanner) (n : string) : option TR :=
  match dict_get (_target self) n with
  | Some r => Some r
  | None => dict_get (_state self) n
  end.

(** The predecessors [_plan_delete] walks in the tool graph. *)
Definition tool_users (self : ApplyPlanner) (n : string) : option (list string) :=
  if has_node (_tools_deps_graph self) n
  then predecessors (_tools_deps_graph self) n else Some [].

(** Every occurrence of [y] in [l] comes after an occurrence of [x]. *)
Definition always_before (x y : string) (l : list string) : Prop :=
  ∀ l1 l2, l = l1 ++ y :: l2 → x ∈ l1.

(** An edge of the consumer graph or of the tool-usage graph of [state]. *)
Definition uses (state : dict) (u v : string) : Prop :=
  ∃ r, (u, r) ∈ state ∧ (v ∈ deps r ∨ v ∈ tools r).

Definition edge (g : DiGraph) (u v : string) : Prop := (u, v) ∈ edges g.

(** Every edge of the graph joins two of its nodes. *)
Definition graph_wf (g : DiGraph) : Prop :=
  ∀ u v, (u, v) ∈ edges g → u ∈ nodes g ∧ v ∈ nodes g.

(** The planner's graphs are those its constructor built. *)
Definition constructed (self : ApplyPlanner) : Prop :=
  _delete_deps_graph self = _generate_delete_deps_graph (_state self) ∧
  _tools_deps_graph self = _generate_tools_deps_graph (_state self).

(** What every returning call guarantees: [plan] only grows at its end, and
    a name that is not a current resource is never dropped from [_applied]. *)
Definition grows (self : ApplyPlanner) (s s' : pstate) : Prop :=
  ops s `prefix_of` ops s' ∧
  ∀ x, dict_in x (_state self) = false → x ∈ applied s → x ∈ applied s'.

Definition apply_post (self : ApplyPlanner) (n : string) (s s' : pstate) : Prop :=
  grows self s s' ∧ (dict_in n (_state self) = false → n ∈ applied s').

Definition create_post (self : ApplyPlanner) (n : string) (s s' : pstate) : Prop :=
  grows self s s' ∧ Create n ∈ ops s'.

Definition delete_post (self : ApplyPlanner) (n : string) (s s' : pstate) : Prop :=
  grows self s s' ∧ Delete n ∈ ops s' ∧ dict_in n (_state self) = true.

(** In [l], a current resource is created only after it has been deleted,
    and only current resources are deleted. *)
Definition deletes_first (self : ApplyPlanner) (l : list string) : Prop :=
  (∀ n, dict_in n (_state self) = true → always_before (Delete n) (Create n) l) ∧
  (∀ n, Delete n ∈ l → dict_in n (_state self) = true).

(** In [l], a resource is deleted only after those that currently depend
    on it. *)
Definition dependents_first (self : ApplyPlanner) (l : list string) : Prop :=
  ∀ A B rB, dict_get (_state self) B = Some rB → A ∈ deps rB →
    always_before (Delete B) (Delete A) l.

(** Every node of [S] has an edge of [es] into [S]. *)
Definition closed (es : list (string * string)) (S : list string) : Prop :=
  Forall (λ v, Exists (λ w, (v, w) ∈ es) S) S.

#[global] Instance closed_dec es S : Decision (closed es S).
Proof. unfold closed. apply _. Defined.

(** The links the recursion follows out of a resource: to the tools and
    deps of the definition [_plan_create] reads, to the tools of its current
    definition, and to the current resources that list it as a dep or a tool
    (all three from [_plan_delete]). *)
Definition follows (self : ApplyPlanner) (x y : string) : Prop :=
  (∃ r, resource_of self x = Some r ∧ (y ∈ tools r ∨ y ∈ deps r)) ∨
  (∃ r, dict_get (_state self) x = Some r ∧ y ∈ tools r) ∨
  uses (_state self) y x.

(** Every resolved name that is not a current resource has its creation in
    [plan], unless the call creating it is still running ([Pend]). *)
Definition created_or_pending (self : ApplyPlanner) (Pend : string → Prop)
    (s : pstate) : Prop :=
  ∀ x, dict_in x (_state self) = false → x ∈ applied s → Create x ∈ ops s ∨ Pend x.

(** In [l], a new resource is created after its new tools, as long as no
    chain of links leads from the tool back to the resource. *)
Definition tools_first (self : ApplyPlanner) (l : list string) : Prop :=
  ∀ R T r, dict_get (_target self) R = Some r → T ∈ tools r →
    dict_in R (_state self) = false → dict_in T (_state self) = false →
    ¬ tc (follows self) T R →
    always_before (Create T) (Create R) l.

Definition tools_inv (self : ApplyPlanner) (Pend : string → Prop) (s : pstate) : Prop :=
  created_or_pending self Pend s ∧ tools_first self (ops s).

(** [m'] behaves as [m] wherever [m] does not hit the depth bound. *)
Definition refines {A} (m m' : M A) : Prop :=
  ∀ s s' r, m s = (s', r) → r ≠ Raise RecursionError → m' s = (s', r).

(** The current collection has a cycle of deps and tools. *)
Definition cyclic (state : dict) : Prop := ∃ v, tc (uses state) v v.

(** [x] occurs in [l] at an earlier position than [y]. *)
Definition occurs_before (x y : string) (l : list string) : Prop :=
  ∃ i j, l !! i = Some x ∧ l !! j = Some y ∧ i < j.

(** What [plan] yields when it raises: nothing, then the exception. *)
Definition aborts (o : outcome * ApplyPlanner) (e : exn) : Prop :=
  o.1 = {| yielded := []; raised := Some e |}.

(** "Tools precede their users on create", as the specification words it. *)
Definition tools_precede_users (self : ApplyPlanner) (out : list string) : Prop :=
  ∀ R T r, dict_get (_target self) R = Some r → T ∈ tools r →
    Create T ∈ out → Create R ∈ out → Delete T ∉ out → Delete R ∉ out →
    occurs_before (Create T) (Create R) out.

(** ** Scenarios *)

Definition resource (n : string) (ds ts : list string) : string * TR :=
  (n, {| name := n; deps := ds; tools := ts |}).

(** A tool and a resource that uses it; the tool is marked as changed. *)
Definition tool_and_user : dict :=
  [resource "toolA" [] []; resource "userB" [] ["toolA"]].

Definition changed_tool : ApplyPlanner := __init__ tool_and_user tool_and_user {["toolA"]}.

(** Two new resources: [a] depends on [b], and [b] uses [a] as a tool. *)
Definition tool_depends_on_user : ApplyPlanner :=
  __init__ [] [resource "a" ["b"] []; resource "b" [] ["a"]] ∅.

(** Two new resources: [b] uses [a] as a tool. *)
Definition new_tool_and_user : ApplyPlanner :=
  __init__ [] [resource "a" [] []; resource "b" [] ["a"]] ∅.

(** Two current resources that depend on each other. *)
Definition mutual_deps : dict := [resource "x" ["y"] []; resource "y" ["x"] []].

(** Two new resources, one of them marked as changed. *)
Definition changed_but_new : ApplyPlanner :=
  __init__ [] [resource "a" [] []; resource "b" [] []] {["a"]}.

(** An acyclic current collection, and a target in which the changed
    resource [x] depends on itself; [z] is marked as changed but is new. *)
Definition self_dependent_target : ApplyPlanner :=
  __init__ [resource "t" [] []; resource "x" [] ["t"]]
           [resource "t" [] []; resource "x" ["x"] ["t"]; resource "z" [] []]
           {["x"; "z"]}.

(** ** Vocabulary of the further properties *)

(** Every entry of [l] is the creation of a target resource or the deletion
    of a current one. *)
Definition warranted (self : ApplyPlanner) (l : list string) : Prop :=
  ∀ op, op ∈ l →
    ∃ n, (op = Create n ∧ dict_in n (_target self) = true) ∨
         (op = Delete n ∧ dict_in n (_state self) = true).

(** What resolving [n] owes to the plan [l]: the deletion of a resource that
    is not in the target, the deletion and the creation of a changed one, the
    creation of a new one. *)
Definition settled (self : ApplyPlanner) (n : string) (l : list string) : Prop :=
  (dict_in n (_target self) = false → Delete n ∈ l) ∧
  (dict_in n (_target self) = true → n ∈ _changed self →
     Delete n ∈ l ∧ Create n ∈ l) ∧
  (dict_in n (_target self) = true → n ∉ _changed self →
     dict_in n (_state self) = false → Create n ∈ l).

(** Every name marked as resolved is settled, unless the call that resolves
    it is still running ([Pend]). *)
Definition resolved_settled (self : ApplyPlanner) (Pend : string → Prop)
    (s : pstate) : Prop :=
  ∀ n, n ∈ applied s → Pend n ∨ settled self n (ops s).

(** [n] is a resource of one of the collections. *)
Definition known (self : ApplyPlanner) (n : string) : Prop :=
  dict_in n (_target self) = true ∨ dict_in n (_state self) = true.

(** Every dep and tool listed by a resource of either collection is itself
    a resource of one of them. *)
Definition references_known (self : ApplyPlanner) : Prop :=
  ∀ k r x,
    dict_get (_target self) k = Some r ∨ dict_get (_state self) k = Some r →
    x ∈ deps r ∨ x ∈ tools r → known self x.

(** A target resource that is marked as changed is a current resource. *)
Definition changed_exist (self : ApplyPlanner) : Prop :=
  ∀ n, n ∈ _changed self → dict_in n (_target self) = true →
    dict_in n (_state self) = true.

(** In [l], a new resource is created after its new deps, as long as no
    chain of links leads from the dep back to the resource. *)
Definition deps_first (self : ApplyPlanner) (l : list string) : Prop :=
  ∀ R D r, dict_get (_target self) R = Some r → D ∈ deps r →
    dict_in R (_state self) = false → dict_in D (_state self) = false →
    ¬ tc (follows self) D R →
    always_before (Create D) (Create R) l.

Definition deps_inv (self : ApplyPlanner) (Pend : string → Prop) (s : pstate) : Prop :=
  created_or_pending self Pend s ∧ deps_first self (ops s).

(** [n] is in the target collection and is not marked as changed. *)
Definition kept (self : ApplyPlanner) (n : string) : Prop :=
  dict_in n (_target self) = true ∧ n ∉ _changed self.

(** The current resource [n] lists [A] among its deps. *)
Definition depends_on (self : ApplyPlanner) (n A : string) : Prop :=
  ∃ r, (n, r) ∈ _state self ∧ A ∈ deps r.

(** In [l], a kept resource is deleted only along with one of its deps, whose
    deletion is in [l] or is still running ([Pend]). *)
Definition deletions_caused (self : ApplyPlanner) (Pend : string → Prop)
    (l : list string) : Prop :=
  ∀ n, Delete n ∈ l → kept self n →
    ∃ A, depends_on self n A ∧ (Delete A ∈ l ∨ Pend A).

(** The sources of the edges of [g] into [n], in the order of the edges. *)
Definition sources (g : DiGraph) (n : string) : list string :=
  (filter (λ e, e.2 = n) (edges g)).*1.

(** The names of [keys] that are not marked as resolved. *)
Definition unresolved (keys : list string) (s : pstate) : list string :=
  filter (λ k, k ∉ applied s) keys.

(** ** The earlier planner ([graph_builder.py])

    [graph_builder.py] holds an earlier [ApplyPlanner] with the same
    constructor, [_apply_resource] and [_plan_create].  Its [plan] neither
    checks for cycles nor clears [_applied], and its [_plan_delete] resolves
    every node of the tool-usage graph instead of the tools of the resource. *)
Module graph_builder.
Section methods.
Variable self : ApplyPlanner.

Fixpoint _apply_resource (fuel : nat) (n : string) {struct fuel} : M unit :=
  match fuel with
  | 0 => raise RecursionError
  | S fuel =>
      do seen <- is_applied n;
      if seen : bool then ret tt
      else
        applied_add n >>
        if negb (dict_in n (_target self)) then _plan_delete fuel n
        else if _is_changed self n then
          (_plan_delete fuel n >> _plan_create fuel n)
        else if negb (dict_in n (_state self)) then _plan_create fuel n
        else ret tt
  end
with _plan_create (fuel : nat) (n : string) {struct fuel} : M unit :=
  match fuel with
  | 0 => raise RecursionError
  | S fuel =>
      assert (dict_in n (_target self) || dict_in n (_state self)) >>
      do resource <- match dict_get (_target self) n with
                     | Some r => ret r
                     | None => dict_getitem (_state self) n
                     end;
      for_each (tools resource) (_apply_resource fuel) >>
      for_each (deps resource) (_apply_resource fuel) >>
      plan_append (Create n)
  end
with _plan_delete (fuel : nat) (n : string) {struct fuel} : M unit :=
  match fuel with
  | 0 => raise RecursionError
  | S fuel =>
      assert (dict_in n (_state self)) >>
      (if has_node (_tools_deps_graph self) n then
         do users <- graph_predecessors (_tools_deps_graph self) n;
         for_each users (_apply_resource fuel)
       else ret tt) >>
      (do dependees <- graph_predecessors (_delete_deps_graph self) n;
       for_each dependees (_plan_delete fuel)) >>
      for_each (nodes (_tools_deps_graph self)) (_apply_resource fuel) >>
      plan_append (Delete n)
  end.

(** Everything [plan] does before its first [yield]. *)
Definition plan_body (fuel : nat) (specifiers : option (list string)) : M (list string) :=
  for_each (working_set self specifiers) (_apply_resource fuel) >>
  do l <- get_plan;
  ret (backfill self l).
End methods.

Definition plan (fuel : nat) (self : ApplyPlanner) (specifiers : option (list string))
  : outcome * ApplyPlanner :=
  match plan_body self fuel specifiers (PState (_applied self) []) with
  | (s, Ok l) =>
      ({| yielded := yield_unvisited ∅ l; raised := None |}, with_applied (applied s) self)
  | (s, Raise e) =>
      ({| yielded := []; raised := Some e |}, with_applied (applied s) self)
  end.
End graph_builder.

(** A current resource on a cycle of deps. *)
Definition on_deps_cycle (state : dict) (v : string) : Prop :=
  tc (λ u w, ∃ r, (u, r) ∈ state ∧ w ∈ deps r) v v.


(** Two current resources that depend on each other, both to be removed. *)
Definition mutual_deps_removed : ApplyPlanner := __init__ mutual_deps [] ∅.


(** Two current resources without tools, [b] depending on [a], both to be
    removed. *)
Definition deps_only_removed : ApplyPlanner :=
  __init__ [resource "a" [] []; resource "b" ["a"] []] [] ∅.


(** No cycle anywhere: [a] and its tool user [u] are current and marked as
    changed; in the target [u] also depends on the new [B1], which uses the
    new tool [A1], which depends on [a]. *)
Definition tool_created_late : ApplyPlanner :=
  __init__ [resource "a" [] []; resource "u" [] ["a"]]
           [resource "a" [] []; resource "u" ["B1"] ["a"];
            resource "A1" ["a"] []; resource "B1" [] ["A1"]]
           {["a"; "u"]}.

(** * Properties *)

(** ** The test suite *)

Example test_all_new_except_changed_spool :
  completes (plan 100 (_build_apply_planner TEST_RESOURCES_1 [] ["km"; "pes"; "km-config"]
                         ["pes-spool"] false false) (Some ["pes-spool"]))
    ["+km-config"; "+km"; "-pes-spool"; "+pes-spool"].
Proof. vm_compute. reflexivity. Qed.

Example test_all_new :
  completes (plan 100 (_build_apply_planner TEST_RESOURCES_1 [] [] [] true false) None)
    ["+km-config"; "+km"; "+pes-spool"; "+pes"].
Proof. vm_compute. reflexivity. Qed.

Example test_all_removed :
  completes (plan 100 (_build_apply_planner TEST_RESOURCES_1 [] [] [] false true) None)
    ["-pes"; "-pes-spool"; "-km"; "-km-config"].
Proof. vm_compute. reflexivity. Qed.

Example test_pes_spool_and_tool_changed :
  completes (plan 100 (_build_apply_planner TEST_RESOURCES_1 [] [] ["pes-spool"; "km"]
                         false false) None)
    ["-pes"; "-pes-spool"; "+pes-spool"; "-km"; "+km"; "+pes"].
Proof. vm_compute. reflexivity. Qed.

Example test_all_changed :
  completes (plan 100 (_build_apply_planner TEST_RESOURCES_1 [] []
                         (map name TEST_RESOURCES_1) false false) None)
    ["-pes"; "-pes-spool"; "+pes-spool"; "-km"; "-km-config"; "+km-config"; "+km"; "+pes"].
Proof. vm_compute. reflexivity. Qed.

Example test_km_config_changed :
  completes (plan 100 (_build_apply_planner TEST_RESOURCES_1 [] [] ["km-config"]
                         false false) None)
    ["-pes"; "-km"; "-km-config"; "+km-config"; "+km"; "+pes"].
Proof. vm_compute. reflexivity. Qed.

Example test_2_all_new :
  completes (plan 100 (_build_apply_planner TEST_RESOURCES_2 [] [] [] true false) None)
    ["+adp-rpm"; "+database-permission-updater"; "+adp-config"].
Proof. vm_compute. reflexivity. Qed.

(** The scenarios of pure addition and of pure removal. *)
Example pure_addition :
  completes (plan 100 (__init__ [] [resource "A" [] []; resource "B" ["A"] []] ∅) None)
    [Create "A"; Create "B"].
Proof. vm_compute. reflexivity. Qed.

Example pure_removal :
  completes (plan 100 (__init__ [resource "A" [] []; resource "B" ["A"] []] [] ∅) None)
    [Delete "B"; Delete "A"].
Proof. vm_compute. reflexivity. Qed.

(** ** Sorting *)

Lemma insert_sorted_Permutation x l : insert_sorted x l ≡ₚ x :: l.
Proof.
  induction l as [|y l IH]; simpl; [done|].
  destruct (String.leb x y); [done|]. by rewrite IH, Permutation_swap.
Qed.

Lemma sorted_Permutation l : sorted l ≡ₚ l.
Proof.
  induction l as [|x l IH]; simpl; [done|].
  by rewrite insert_sorted_Permutation, IH.
Qed.

Lemma insert_sorted_Sorted x l :
  Sorted (λ a b, String.leb a b = true) l →
  Sorted (λ a b, String.leb a b = true) (insert_sorted x l).
Proof.
  induction 1 as [|y l Hl IH Hy]; simpl; [by repeat constructor|].
  destruct (String.leb x y) eqn:Hxy.
  - repeat constructor; done.
  - constructor; [done|].
    assert (String.leb y x = true) as Hyx.
    { destruct (String.leb_total x y); congruence. }
    destruct Hy as [|z l Hyz]; simpl; [by constructor|].
    destruct (String.leb x z); by constructor.
Qed.

Lemma sorted_Sorted l : Sorted (λ a b, String.leb a b = true) (sorted l).
Proof.
  induction l as [|x l IH]; simpl; [constructor | by apply insert_sorted_Sorted].
Qed.

(** ** The monad *)

Lemma bind_ok {A B} (m : M A) (k : A → M B) s s' b :
  bind m k s = (s', Ok b) ↔ ∃ s1 a, m s = (s1, Ok a) ∧ k a s1 = (s', Ok b).
Proof.
  unfold bind. destruct (m s) as [s1 [a|e]]; split.
  - intros H. by exists s1, a.
  - by intros (? & ? & [= <- <-] & H).
  - intros [=].
  - by intros (? & ? & [=] & _).
Qed.

Lemma bind_raise {A B} (m : M A) (k : A → M B) s s' e :
  bind m k s = (s', Raise e) ↔
  m s = (s', Raise e) ∨ ∃ s1 a, m s = (s1, Ok a) ∧ k a s1 = (s', Raise e).
Proof.
  unfold bind. destruct (m s) as [s1 [a|e']]; split.
  - intros H. right. by exists s1, a.
  - intros [[=]|(? & ? & [= <- <-] & H)]. done.
  - intros [= <- <-]. by left.
  - intros [[= <- <-]|(? & ? & [=] & _)]. done.
Qed.

Lemma for_each_ok {A} (body : A → M unit) (P : A → pstate → pstate → Prop) l :
  (∀ x s s', x ∈ l → body x s = (s', Ok tt) → P x s s') →
  ∀ s s', for_each l body s = (s', Ok tt) → steps P l s s'.
Proof.
  induction l as [|x l IH]; simpl; intros HP s s' Hrun.
  - injection Hrun as <-. constructor.
  - apply bind_ok in Hrun as (s1 & [] & Hx & Hl).
    econstructor.
    + apply HP; [left | done].
    + apply IH; [|done]. intros. apply HP; [by right | done].
Qed.

Lemma steps_impl {A} (P Q : A → pstate → pstate → Prop) l s s' :
  (∀ x a b, x ∈ l → P x a b → Q x a b) → steps P l s s' → steps Q l s s'.
Proof.
  intros HPQ Hs. induction Hs as [|x l s s1 s' Hx Hl IH]; [constructor|].
  econstructor.
  - apply HPQ; [left | done].
  - apply IH. intros. apply HPQ; [by right | done].
Qed.

(** A loop preserves what each of its iterations preserves. *)
Lemma steps_invariant {A} (P : A → pstate → pstate → Prop) (I : pstate → Prop) l s s' :
  (∀ x a b, x ∈ l → P x a b → I a → I b) → steps P l s s' → I s → I s'.
Proof.
  intros HP Hs. induction Hs as [|x l s s1 s' Hx Hl IH]; [done|].
  intros Hs. apply IH.
  - intros. eapply HP; [by right | done..].
  - eapply HP; [left | done..].
Qed.

Lemma for_each_invariant {A} (body : A → M unit) (I : pstate → Prop) l s s' :
  (∀ x a b, x ∈ l → body x a = (b, Ok tt) → I a → I b) →
  for_each l body s = (s', Ok tt) → I s → I s'.
Proof.
  intros Hbody Hrun.
  eapply (steps_invariant (λ x a b, body x a = (b, Ok tt))); [done|].
  by eapply for_each_ok.
Qed.

(** ** An induction principle for the runs that return *)

Lemma assert_ok b s s' : assert b s = (s', Ok tt) ↔ b = true ∧ s' = s.
Proof.
  destruct b; simpl; unfold ret, raise; split.
  - by intros [= <-].
  - by intros [_ ->].
  - intros [=].
  - by intros [[=] _].
Qed.

Lemma dict_getitem_ok d k s s' r :
  dict_getitem d k s = (s', Ok r) ↔ dict_get d k = Some r ∧ s' = s.
Proof.
  unfold dict_getitem. destruct (dict_get d k); unfold ret, raise; split.
  - by intros [= <- <-].
  - by intros [[= ->] ->].
  - intros [=].
  - by intros [[=] _].
Qed.

Lemma graph_predecessors_ok g n s s' l :
  graph_predecessors g n s = (s', Ok l) ↔ predecessors g n = Some l ∧ s' = s.
Proof.
  unfold graph_predecessors. destruct (predecessors g n); unfold ret, raise; split.
  - by intros [= <- <-].
  - by intros [[= ->] ->].
  - intros [=].
  - by intros [[=] _].
Qed.

Lemma dict_in_true k d : dict_in k d = true ↔ is_Some (dict_get d k).
Proof. unfold dict_in. apply bool_decide_eq_true. Qed.

Lemma dict_in_false k d : dict_in k d = false ↔ dict_get d k = None.
Proof.
  unfold dict_in. rewrite bool_decide_eq_false, <- eq_None_not_Some. done.
Qed.

Section planner_ind.
Variable self : ApplyPlanner.

(** [BA], [BC], [BD] are facts already known of every returning call;
    [PA], [PC], [PD] are to be shown, one rule per path through the code. *)
Variables BA BC BD : string → pstate → pstate → Prop.
Variables PA PC PD : string → pstate → pstate → Prop.

Hypothesis B_holds : ∀ fuel,
  (∀ n s s', _apply_resource self fuel n s = (s', Ok tt) → BA n s s') ∧
  (∀ n s s', _plan_create self fuel n s = (s', Ok tt) → BC n s s') ∧
  (∀ n s s', _plan_delete self fuel n s = (s', Ok tt) → BD n s s').

Hypothesis A_seen : ∀ n s, n ∈ applied s → PA n s s.
Hypothesis A_removed : ∀ n s s',
  n ∉ applied s → dict_in n (_target self) = false →
  PD n (st_add n s) s' → BD n (st_add n s) s' → PA n s s'.
Hypothesis A_changed : ∀ n s s1 s',
  n ∉ applied s → dict_in n (_target self) = true → n ∈ _changed self →
  PD n (st_add n s) s1 → BD n (st_add n s) s1 →
  PC n s1 s' → BC n s1 s' → PA n s s'.
Hypothesis A_new : ∀ n s s',
  n ∉ applied s → dict_in n (_target self) = true → n ∉ _changed self →
  dict_in n (_state self) = false →
  PC n (st_add n s) s' → BC n (st_add n s) s' → PA n s s'.
Hypothesis A_kept : ∀ n s,
  n ∉ applied s → dict_in n (_target self) = true → n ∉ _changed self →
  dict_in n (_state self) = true → PA n s (st_add n s).
Hypothesis C_rule : ∀ n r s s1 s2,
  resource_of self n = Some r →
  steps (λ x a b, PA x a b ∧ BA x a b) (tools r) s s1 →
  steps (λ x a b, PA x a b ∧ BA x a b) (deps r) s1 s2 →
  PC n s (st_append (Create n) s2).
Hypothesis D_rule : ∀ n current users dependees s s1 s2 s3,
  dict_get (_state self) n = Some current →
  tool_users self n = Some users →
  predecessors (_delete_deps_graph self) n = Some dependees →
  steps (λ x a b, PA x a b ∧ BA x a b) users s s1 →
  steps (λ x a b, PD x a b ∧ BD x a b) dependees s1 s2 →
  steps (λ tool a b, PA tool (st_discard n a) b ∧ BA tool (st_discard n a) b)
    (tools current) s2 s3 →
  PD n s (st_append (Delete n) s3).

Lemma planner_ind fuel :
  (∀ n s s', _apply_resource self fuel n s = (s', Ok tt) → PA n s s') ∧
  (∀ n s s', _plan_create self fuel n s = (s', Ok tt) → PC n s s') ∧
  (∀ n s s', _plan_delete self fuel n s = (s', Ok tt) → PD n s s').
Proof.
  induction fuel as [|fuel (IHA & IHC & IHD)]; [by repeat split|].
  destruct (B_holds fuel) as (HBA & HBC & HBD).
  split; [|split]; intros n s s' Hrun; simpl in Hrun.
  - apply bind_ok in Hrun as (s1 & seen & [= <- <-] & Hrun).
    case_bool_decide as Hseen.
    { injection Hrun as <-. by apply A_seen. }
    apply bind_ok in Hrun as (s1 & [] & [= <-] & Hrun).
    destruct (dict_in n (_target self)) eqn:Ht; simpl in Hrun.
    2:{ eapply A_removed; eauto. }
    unfold _is_changed in Hrun. case_bool_decide as Hch.
    { apply bind_ok in Hrun as (s1 & [] & Hd & Hc).
      eapply A_changed; eauto. }
    destruct (dict_in n (_state self)) eqn:Hs; simpl in Hrun.
    + injection Hrun as <-. by apply A_kept.
    + eapply A_new; eauto.
  - apply bind_ok in Hrun as (s1 & [] & [_ ->]%assert_ok & Hrun).
    apply bind_ok in Hrun as (s1 & r & Hr & Hrun).
    assert (resource_of self n = Some r ∧ s1 = s) as [Hres ->].
    { unfold resource_of. destruct (dict_get (_target self) n).
      - by injection Hr as <- <-.
      - by apply dict_getitem_ok in Hr. }
    apply bind_ok in Hrun as (s1 & [] & Htools & Hrun).
    apply bind_ok in Hrun as (s2 & [] & Hdeps & [= <-]).
    eapply C_rule; [done|..]; eapply for_each_ok; eauto.
  - apply bind_ok in Hrun as (s0 & [] & [_ ->]%assert_ok & Hrun).
    apply bind_ok in Hrun as (s1 & [] & Husers & Hrun).
    apply bind_ok in Hrun as (s2 & [] & Hdeps & Hrun).
    apply bind_ok in Hrun as (s3 & [] & Htools & [= <-]).
    apply bind_ok in Hdeps as (? & dependees & [Hpred ->]%graph_predecessors_ok & Hdeps).
    apply bind_ok in Htools as (? & current & [Hcur ->]%dict_getitem_ok & Htools).
    assert (∃ users, tool_users self n = Some users ∧
              for_each users (_apply_resource self fuel) s = (s1, Ok tt))
      as (users & Hu & Husers').
    { unfold tool_users. destruct (has_node _ n).
      - apply bind_ok in Husers as (? & users & [? ->]%graph_predecessors_ok & ?).
        eauto.
      - injection Husers as <-. by exists []. }
    eapply D_rule; eauto.
    + eapply for_each_ok; eauto.
    + eapply for_each_ok; eauto.
    + eapply for_each_ok; [|done]. intros tool a b _ Hb.
      apply bind_ok in Hb as (? & [] & [= <-] & Hb). eauto.
Qed.
End planner_ind.

(** ** What every returning call guarantees *)

Section basic.
Variable self : ApplyPlanner.

Lemma grows_refl s : grows self s s.
Proof. by split. Qed.

Lemma grows_trans s1 s2 s3 : grows self s1 s2 → grows self s2 s3 → grows self s1 s3.
Proof. intros [? ?] [? ?]. split; [by etrans | eauto]. Qed.

Lemma grows_add n s : grows self s (st_add n s).
Proof. split; [done|]. simpl. set_solver. Qed.

Lemma grows_append op s : grows self s (st_append op s).
Proof. split; [by apply prefix_app_r | done]. Qed.

Lemma grows_discard n s :
  dict_in n (_state self) = true → grows self s (st_discard n s).
Proof.
  intros Hn. split; [done|]. simpl. intros x Hx ?.
  apply elem_of_difference. split; [done|].
  intros ->%elem_of_singleton. congruence.
Qed.

Lemma grows_elem s s' op : grows self s s' → op ∈ ops s → op ∈ ops s'.
Proof. intros [[k ->] _] ?. apply elem_of_app. by left. Qed.

Lemma steps_grows {A} (P : A → pstate → pstate → Prop) l s s' :
  (∀ x a b, x ∈ l → P x a b → grows self a b) → steps P l s s' → grows self s s'.
Proof.
  intros HP Hs. induction Hs as [|x l s s1 s' Hx Hl IH]; [apply grows_refl|].
  eapply grows_trans.
  - eapply HP; [left | done].
  - apply IH. intros. eapply HP; [by right | done].
Qed.

(** After a loop of calls, each has left its mark. *)
Lemma steps_each {A} (P : A → pstate → pstate → Prop) (Q : A → pstate → Prop) l s s' :
  (∀ x a b, x ∈ l → P x a b → grows self a b ∧ Q x b) →
  (∀ x a b, Q x a → grows self a b → Q x b) →
  steps P l s s' → ∀ x, x ∈ l → Q x s'.
Proof.
  intros HP HQ Hs. induction Hs as [|y l s s1 s' Hy Hl IH]; [by intros ? ?%elem_of_nil|].
  intros x [->|Hx]%elem_of_cons.
  - eapply HQ.
    + eapply HP; [left | done].
    + eapply steps_grows; [|done]. intros. eapply HP; [by right | done].
  - apply IH; [|done]. intros. eapply HP; [by right | done].
Qed.

Lemma planner_basic fuel :
  (∀ n s s', _apply_resource self fuel n s = (s', Ok tt) → apply_post self n s s') ∧
  (∀ n s s', _plan_create self fuel n s = (s', Ok tt) → create_post self n s s') ∧
  (∀ n s s', _plan_delete self fuel n s = (s', Ok tt) → delete_post self n s s').
Proof.
  apply (planner_ind self (λ _ _ _, True) (λ _ _ _, True) (λ _ _ _, True)); [done|..].
  - intros n s Hn. split; [apply grows_refl | done].
  - intros n s s' _ _ (Hg & Hd & Hs) _. split.
    + eapply grows_trans; [apply grows_add | done].
    + congruence.
  - intros n s s1 s' _ _ _ (Hg & Hd & Hs) _ [Hg' _] _. split.
    + eapply grows_trans; [apply grows_add|]. by eapply grows_trans.
    + congruence.
  - intros n s s' _ _ _ Hs [Hg _] _. split.
    + eapply grows_trans; [apply grows_add | done].
    + intros _. apply Hg; [done|]. simpl. set_solver.
  - intros n s _ _ _ Hs. split; [apply grows_add | congruence].
  - intros n r s s1 s2 _ Ht Hd. split.
    + eapply grows_trans; [|apply grows_append].
      eapply grows_trans; (eapply steps_grows; [|done]); by intros ? ? ? _ [[? _] _].
    + simpl. apply elem_of_app. right. by left.
  - intros n current users dependees s s1 s2 s3 Hcur _ _ Hu Hd Ht.
    assert (dict_in n (_state self) = true) as Hin by (by apply dict_in_true).
    split; [|split; [|done]].
    + eapply grows_trans; [|apply grows_append].
      eapply grows_trans; [|eapply grows_trans].
      * eapply steps_grows; [|done]. by intros ? ? ? _ [[? _] _].
      * eapply steps_grows; [|done]. by intros ? ? ? _ [[? _] _].
      * eapply steps_grows; [|done]. intros ? a b _ [[? _] _].
        eapply grows_trans; [by apply grows_discard | done].
    + simpl. apply elem_of_app. right. by left.
Qed.

(** The loops, for predicates that come with the guarantees above. *)
Lemma steps_apply_grows (P : string → pstate → pstate → Prop) l s s' :
  steps (λ x a b, P x a b ∧ apply_post self x a b) l s s' → grows self s s'.
Proof. apply steps_grows. by intros ? ? ? _ [_ [? _]]. Qed.

Lemma steps_delete_grows (P : string → pstate → pstate → Prop) l s s' :
  steps (λ x a b, P x a b ∧ delete_post self x a b) l s s' → grows self s s'.
Proof. apply steps_grows. by intros ? ? ? _ [_ [? _]]. Qed.

Lemma steps_tools_grows (P : string → pstate → pstate → Prop) n l s s' :
  dict_in n (_state self) = true →
  steps (λ x a b, P x a b ∧ apply_post self x (st_discard n a) b) l s s' →
  grows self s s'.
Proof.
  intros Hn. apply steps_grows. intros ? a b _ [_ [? _]].
  eapply grows_trans; [by apply grows_discard | done].
Qed.
End basic.

(** ** Operations and their order in a list *)

Lemma Create_inj n m : Create n = Create m → n = m.
Proof. by intros [=]. Qed.

Lemma Delete_inj n m : Delete n = Delete m → n = m.
Proof. by intros [=]. Qed.

Lemma Create_ne_Delete n m : Create n ≠ Delete m.
Proof. by intros [=]. Qed.

Lemma always_before_nil x y : always_before x y [].
Proof. intros [|? ?] ? [=]. Qed.

Lemma always_before_snoc x y z l :
  always_before x y l → z ≠ y ∨ x ∈ l → always_before x y (l ++ [z]).
Proof.
  intros Hl Hz l1 l2 Heq.
  destruct (decide (length l1 < length l)) as [Hlt|Hge].
  - destruct l2 as [|w l2 _] using rev_ind.
    { apply (f_equal length) in Heq. rewrite !length_app in Heq. simpl in Heq. lia. }
    rewrite app_comm_cons, app_assoc in Heq.
    apply app_inj_tail in Heq as [-> _]. by eapply Hl.
  - assert (l1 = l ∧ y = z ∧ l2 = []) as (-> & -> & ->).
    { apply (f_equal length) in Heq as Hlen.
      rewrite !length_app in Hlen. simpl in Hlen.
      assert (length l1 = length l ∧ l2 = []) as [Hl1 ->].
      { destruct l2; simpl in Hlen; [split; [lia | done] | lia]. }
      by apply app_inj_1 in Heq as [-> [= ->]]. }
    by destruct Hz.
Qed.

Lemma always_before_lookup x y l j :
  always_before x y l → l !! j = Some y → ∃ i, i < j ∧ l !! i = Some x.
Proof.
  intros Hl Hj.
  assert (x ∈ take j l) as (i & Hi)%list_elem_of_lookup.
  { apply (Hl _ (drop (S j) l)).
    rewrite <- (take_drop_middle l j y Hj) at 1. done. }
  apply lookup_take_Some in Hi as [Hi Hlt]. eauto.
Qed.

(** The yielding loop keeps the first occurrence of each entry. *)
Lemma yield_unvisited_elem x V l :
  x ∈ yield_unvisited V l ↔ x ∈ l ∧ x ∉ V.
Proof.
  revert V. induction l as [|e l IH]; intros V; simpl.
  - split; [by intros ?%elem_of_nil | by intros [?%elem_of_nil _]].
  - case_bool_decide as He;
      rewrite ?elem_of_cons, IH, not_elem_of_union, elem_of_singleton.
    + split; [tauto|]. intros [[->|?] ?]; [done | split; [done|]].
      split; [by intros -> | done].
    + split.
      * intros [->|(? & ? & ?)]; auto.
      * intros [[->|?] ?]; [by left|].
        destruct (decide (x = e)) as [->|]; [by left | by right].
Qed.

Lemma yield_unvisited_NoDup V l : NoDup (yield_unvisited V l).
Proof.
  revert V. induction l as [|e l IH]; intros V; simpl; [constructor|].
  case_bool_decide as He; [done|]. constructor; [|done].
  rewrite yield_unvisited_elem. intros [_ []]. apply elem_of_union. left.
  by apply elem_of_singleton.
Qed.

Lemma always_before_absent x y l : y ∉ l → always_before x y l.
Proof. intros Hy l1 l2 ->. destruct Hy. apply elem_of_app. right. left. Qed.

Lemma always_before_cons x y e l :
  always_before x y l → e ≠ y → always_before x y (e :: l).
Proof.
  intros Hl He [|e' l1] l2; intros [= Heq1 Heq2]; [done|].
  right. by eapply Hl.
Qed.

Lemma always_before_head x y l : x ≠ y → always_before x y (x :: l).
Proof. intros Hxy [|e' l1] l2; intros [= Heq1 Heq2]; [done | subst; left]. Qed.

Lemma always_before_tail x y e l :
  always_before x y (e :: l) → e ≠ x → always_before x y l.
Proof.
  intros Hl He l1 l2 ->. specialize (Hl (e :: l1) l2 eq_refl).
  apply elem_of_cons in Hl as [->|]; done.
Qed.

Lemma yield_unvisited_always_before x y V l :
  always_before x y l → (x ∈ V → y ∈ V) →
  always_before x y (yield_unvisited V l).
Proof.
  revert V. induction l as [|e l IH]; intros V Hl HV; simpl.
  { apply always_before_nil. }
  destruct (decide (e = y)) as [->|Hy].
  { by pose proof (Hl [] l eq_refl) as ?%elem_of_nil. }
  destruct (decide (e = x)) as [->|Hx].
  - case_bool_decide as HxV.
    + apply always_before_absent. rewrite yield_unvisited_elem.
      intros [_ []]. apply elem_of_union. right. auto.
    + by apply always_before_head.
  - assert (always_before x y (yield_unvisited ({[e]} ∪ V) l)) as Hrec.
    { apply IH; [by eapply always_before_tail|].
      rewrite !elem_of_union, elem_of_singleton. intros [->|?]; [done | auto]. }
    case_bool_decide as He; [done | by apply always_before_cons].
Qed.

(** The backfill loop appends creations only, each for a deleted name. *)
Lemma backfill_step_spec l n :
  backfill_step l n = l ∨
  (backfill_step l n = l ++ [Create n] ∧ Delete n ∈ l ∧ Create n ∉ l).
Proof.
  unfold backfill_step.
  case_bool_decide as Hd; [|by left].
  case_bool_decide as Hc; simpl; auto.
Qed.

Lemma backfill_step_Delete l n m :
  Delete m ∈ backfill_step l n ↔ Delete m ∈ l.
Proof.
  destruct (backfill_step_spec l n) as [->|(-> & _ & _)]; [done|].
  rewrite elem_of_app, list_elem_of_singleton.
  pose proof (Create_ne_Delete n m). split; [|by left].
  intros [?|?]; [done | congruence].
Qed.

Lemma foldl_backfill_Delete ks l m :
  Delete m ∈ foldl backfill_step l ks ↔ Delete m ∈ l.
Proof.
  revert l. induction ks as [|n ks IH]; intros l; simpl; [done|].
  by rewrite IH, backfill_step_Delete.
Qed.

Lemma foldl_backfill_prefix ks l : l `prefix_of` foldl backfill_step l ks.
Proof.
  revert l. induction ks as [|n ks IH]; intros l; simpl; [done|].
  etrans; [|apply IH].
  destruct (backfill_step_spec l n) as [->|(-> & _ & _)]; [done|].
  by apply prefix_app_r.
Qed.

Lemma foldl_backfill_Create ks l n :
  n ∈ ks → Delete n ∈ l → Create n ∈ foldl backfill_step l ks.
Proof.
  revert l. induction ks as [|k ks IH]; intros l; simpl.
  { by intros ?%elem_of_nil. }
  intros [->|Hn]%elem_of_cons Hd.
  - destruct (foldl_backfill_prefix ks (backfill_step l k)) as [k' ->].
    apply elem_of_app. left.
    unfold backfill_step. rewrite (bool_decide_eq_true_2 _ Hd). simpl.
    case_bool_decide as Hc; simpl; [done|].
    apply elem_of_app. right. left.
  - apply IH; [done|]. by apply backfill_step_Delete.
Qed.

Lemma foldl_backfill_always_before ks x y l :
  always_before x y l →
  (∀ n, y = Create n → Delete n ∈ l → x ∈ l) →
  always_before x y (foldl backfill_step l ks).
Proof.
  revert l. induction ks as [|k ks IH]; intros l Hl Hy; simpl; [done|].
  apply IH.
  - destruct (backfill_step_spec l k) as [->|(-> & Hd & _)]; [done|].
    apply always_before_snoc; [done|].
    destruct (decide (Create k = y)) as [<-|]; [right | by left]. eauto.
  - intros n -> Hd. apply backfill_step_Delete in Hd.
    destruct (backfill_step_spec l k) as [->|(-> & _ & _)]; [eauto|].
    apply elem_of_app. left. eauto.
Qed.

Section backfill.
Variable self : ApplyPlanner.

Lemma backfill_Delete l m : Delete m ∈ backfill self l ↔ Delete m ∈ l.
Proof. apply foldl_backfill_Delete. Qed.

Lemma backfill_prefix l : l `prefix_of` backfill self l.
Proof. apply foldl_backfill_prefix. Qed.

Lemma backfill_Create l n :
  n ∈ dict_keys (_target self) → Delete n ∈ l → Create n ∈ backfill self l.
Proof. apply foldl_backfill_Create. Qed.

(** An order that holds in the list still holds after the backfill,
    as long as the later entry is not a creation the backfill may add. *)
Lemma backfill_always_before x y l :
  always_before x y l →
  (∀ n, y = Create n → Delete n ∈ l → x ∈ l) →
  always_before x y (backfill self l).
Proof. apply foldl_backfill_always_before. Qed.
End backfill.

(** ** Unfolding [plan] *)

Lemma plan_completes fuel self specifiers out :
  completes (plan fuel self specifiers) out ↔
  ∃ s, _validate_acyclic self = Ok tt ∧
       for_each (working_set self specifiers) (_apply_resource self fuel)
         (PState ∅ []) = (s, Ok tt) ∧
       out = yield_unvisited ∅ (backfill self (ops s)).
Proof.
  unfold completes, plan, plan_body.
  unfold bind at 1. unfold lift at 1.
  destruct (_validate_acyclic self) as [[]|e].
  2:{ simpl. split; [by intros [=] | by intros (? & [=] & _)]. }
  unfold bind at 1. unfold applied_clear at 1. simpl.
  unfold bind at 1.
  destruct (for_each _ _ _) as [s [[]|e]]; simpl.
  - unfold ret. simpl. split.
    + intros [= <-]. by exists s.
    + by intros (? & _ & [= <-] & ->).
  - split; [by intros [=] | by intros (? & _ & [=] & _)].
Qed.

(** ** A deletion comes before the creation of the same resource *)

Section deletes_first.
Variable self : ApplyPlanner.

Lemma deletes_first_nil : deletes_first self [].
Proof.
  split; [intros; apply always_before_nil | by intros ? ?%elem_of_nil].
Qed.

Lemma deletes_first_Delete l n :
  deletes_first self l → dict_in n (_state self) = true →
  deletes_first self (l ++ [Delete n]).
Proof.
  intros [HJ HD] Hn. split.
  - intros m Hm. apply always_before_snoc; [auto|].
    left. intros ?. by eapply Create_ne_Delete.
  - intros m [?|Hm%list_elem_of_singleton%Delete_inj]%elem_of_app; [auto|].
    by subst.
Qed.

Lemma deletes_first_Create l n :
  deletes_first self l → (dict_in n (_state self) = true → Delete n ∈ l) →
  deletes_first self (l ++ [Create n]).
Proof.
  intros [HJ HD] Hn. split.
  - intros m Hm. apply always_before_snoc; [auto|].
    destruct (decide (n = m)) as [->|]; [right; auto | left].
    by intros ?%Create_inj.
  - intros m [?|Hm%list_elem_of_singleton]%elem_of_app; [auto|].
    symmetry in Hm. by apply Create_ne_Delete in Hm.
Qed.

Lemma planner_deletes_first fuel :
  (∀ n s s', _apply_resource self fuel n s = (s', Ok tt) →
     deletes_first self (ops s) → deletes_first self (ops s')) ∧
  (∀ n s s', _plan_create self fuel n s = (s', Ok tt) →
     deletes_first self (ops s) →
     (dict_in n (_state self) = true → Delete n ∈ ops s) →
     deletes_first self (ops s')) ∧
  (∀ n s s', _plan_delete self fuel n s = (s', Ok tt) →
     deletes_first self (ops s) → deletes_first self (ops s')).
Proof.
  apply (planner_ind self (apply_post self) (create_post self) (delete_post self));
    [apply planner_basic|..].
  - done.
  - intros n s s' _ _ HD _. exact HD.
  - intros n s s1 s' _ _ _ HD (_ & Hdel & _) HC _ Hs.
    apply HC; [by apply HD | done].
  - intros n s s' _ _ _ Hfresh HC _ Hs. apply HC; [done | congruence].
  - done.
  - intros n r s s1 s2 _ Ht Hd Hs Hn. simpl.
    apply deletes_first_Create.
    + eapply (steps_invariant _ (λ s, deletes_first self (ops s))); [|exact Hd|].
      { by intros ? ? ? _ [H _]. }
      eapply (steps_invariant _ (λ s, deletes_first self (ops s))); [|exact Ht|done].
      by intros ? ? ? _ [H _].
    + intros Hin. eapply (grows_elem self); [|by apply Hn].
      apply (grows_trans self _ s1);
        [eapply steps_apply_grows, Ht | eapply steps_apply_grows, Hd].
  - intros n current users dependees s s1 s2 s3 Hcur _ _ Hu Hd Ht Hs. simpl.
    apply deletes_first_Delete; [|by apply dict_in_true].
    eapply (steps_invariant _ (λ s, deletes_first self (ops s))); [|exact Ht|].
    { by intros ? ? ? _ [H _]. }
    eapply (steps_invariant _ (λ s, deletes_first self (ops s))); [|exact Hd|].
    { by intros ? ? ? _ [H _]. }
    eapply (steps_invariant _ (λ s, deletes_first self (ops s))); [|exact Hu|done].
    by intros ? ? ? _ [H _].
Qed.

(** The list [plan] once every specifier is resolved... *)
Lemma resolved_deletes_first fuel l s s' :
  for_each l (_apply_resource self fuel) s = (s', Ok tt) →
  deletes_first self (ops s) → deletes_first self (ops s').
Proof.
  apply (for_each_invariant _ (λ s, deletes_first self (ops s))).
  intros x a b _. apply planner_deletes_first.
Qed.

(** ... and the sequence that [plan] yields. *)
Lemma yielded_deletes_first fuel specifiers out n :
  completes (plan fuel self specifiers) out →
  dict_in n (_state self) = true →
  always_before (Delete n) (Create n) out.
Proof.
  intros (s & _ & Hrun & ->)%plan_completes Hn.
  apply resolved_deletes_first in Hrun as [HJ _]; [|apply deletes_first_nil].
  apply yield_unvisited_always_before; [|by intros ?%not_elem_of_empty].
  apply backfill_always_before; [by apply HJ|].
  by intros m ->%Create_inj.
Qed.

Lemma yielded_Delete fuel specifiers out n :
  completes (plan fuel self specifiers) out →
  Delete n ∈ out → dict_in n (_state self) = true.
Proof.
  intros (s & _ & Hrun & ->)%plan_completes [Hn _]%yield_unvisited_elem.
  apply backfill_Delete in Hn.
  apply resolved_deletes_first in Hrun as [_ HD]; [auto | apply deletes_first_nil].
Qed.
End deletes_first.

(** ** Graphs *)

Lemma edges_add_node n g : edges (add_node n g) = edges g.
Proof. unfold add_node. by case_bool_decide as H. Qed.

Lemma nodes_add_node x n g : x ∈ nodes (add_node n g) ↔ x = n ∨ x ∈ nodes g.
Proof.
  unfold add_node. case_bool_decide as H; simpl.
  - split; [by right | by intros [->|?]].
  - rewrite elem_of_app, list_elem_of_singleton. tauto.
Qed.

Lemma edges_add_edge e' e g : e' ∈ edges (add_edge e g) ↔ e' = e ∨ e' ∈ edges g.
Proof.
  unfold add_edge. case_bool_decide as H; simpl.
  - rewrite !edges_add_node in *. split; [by right | by intros [->|?]].
  - rewrite elem_of_app, list_elem_of_singleton, !edges_add_node. tauto.
Qed.

Lemma nodes_add_edge x e g :
  x ∈ nodes (add_edge e g) ↔ x = e.1 ∨ x = e.2 ∨ x ∈ nodes g.
Proof.
  unfold add_edge. case_bool_decide as H; simpl; rewrite !nodes_add_node; tauto.
Qed.

Lemma edges_add_edges_from e es g :
  e ∈ edges (add_edges_from es g) ↔ e ∈ es ∨ e ∈ edges g.
Proof.
  unfold add_edges_from. revert g.
  induction es as [|e' es IH]; intros g; simpl.
  - split; [by right | by intros [?%elem_of_nil|?]].
  - rewrite IH, edges_add_edge, elem_of_cons. tauto.
Qed.

Lemma nodes_add_edges_from x es g :
  x ∈ nodes g → x ∈ nodes (add_edges_from es g).
Proof.
  unfold add_edges_from. revert g.
  induction es as [|e' es IH]; intros g Hx; simpl; [done|].
  apply IH, nodes_add_edge. auto.
Qed.

Lemma edges_add_nodes_from ns g : edges (add_nodes_from ns g) = edges g.
Proof.
  unfold add_nodes_from. revert g.
  induction ns as [|n ns IH]; intros g; simpl; [done|].
  by rewrite IH, edges_add_node.
Qed.

Lemma graph_wf_empty : graph_wf DiGraph_empty.
Proof. by intros u v ?%elem_of_nil. Qed.

Lemma graph_wf_add_node n g : graph_wf g → graph_wf (add_node n g).
Proof.
  intros Hg u v. rewrite edges_add_node, !nodes_add_node.
  intros []%Hg. auto.
Qed.

Lemma graph_wf_add_edge e g : graph_wf g → graph_wf (add_edge e g).
Proof.
  intros Hg u v. rewrite edges_add_edge, !nodes_add_edge.
  intros [<-|[]%Hg]; simpl; auto.
Qed.

Lemma graph_wf_add_edges_from es g : graph_wf g → graph_wf (add_edges_from es g).
Proof.
  unfold add_edges_from. revert g.
  induction es as [|e es IH]; intros g Hg; simpl; [done|].
  by apply IH, graph_wf_add_edge.
Qed.

Lemma graph_wf_add_nodes_from ns g : graph_wf g → graph_wf (add_nodes_from ns g).
Proof.
  unfold add_nodes_from. revert g.
  induction ns as [|n ns IH]; intros g Hg; simpl; [done|].
  by apply IH, graph_wf_add_node.
Qed.

Lemma edges_compose e G H : e ∈ edges (compose G H) ↔ e ∈ edges G ∨ e ∈ edges H.
Proof.
  unfold compose. rewrite !edges_add_edges_from, !edges_add_nodes_from. simpl.
  rewrite elem_of_nil. tauto.
Qed.

Lemma graph_wf_compose G H : graph_wf (compose G H).
Proof.
  unfold compose. do 2 apply graph_wf_add_edges_from.
  do 2 apply graph_wf_add_nodes_from. apply graph_wf_empty.
Qed.

Lemma predecessors_elem g n l u :
  predecessors g n = Some l → u ∈ l ↔ (u, n) ∈ edges g.
Proof.
  unfold predecessors. destruct (has_node g n); [|done]. intros [= <-].
  rewrite list_elem_of_fmap. split.
  - intros ([u' v] & -> & [Hin Hv]%list_elem_of_filter). simpl in *. by subst.
  - intros Hin. exists (u, n). split; [done|]. by apply list_elem_of_filter.
Qed.

(** The graphs the constructor builds from the current collection. *)
Lemma edges_delete_deps_graph state u v :
  (u, v) ∈ edges (_generate_delete_deps_graph state) ↔
  ∃ r, (u, r) ∈ state ∧ v ∈ deps r.
Proof.
  unfold _generate_delete_deps_graph.
  assert (∀ g, (u, v) ∈ edges (foldl (λ g kv,
              add_edges_from (map (λ d, (kv.1, d)) (deps kv.2)) (add_node kv.1 g)) g state)
            ↔ (u, v) ∈ edges g ∨ ∃ r, (u, r) ∈ state ∧ v ∈ deps r) as Hgen.
  { induction state as [|[k r] state IH]; intros g; simpl.
    - split; [by left | by intros [?|(? & ?%elem_of_nil & _)]].
    - rewrite IH, edges_add_edges_from, edges_add_node. split.
      + intros [[Hin|?]|(r' & ? & ?)]; [|by left|].
        * apply list_elem_of_fmap in Hin as (d & [= -> ->] & ?).
          right. exists r. split; [left | done].
        * right. exists r'. split; [by right | done].
      + intros [?|(r' & [[= -> ->]|?]%elem_of_cons & ?)]; [by left; right|..].
        * left. left. apply list_elem_of_fmap. by exists v.
        * right. by exists r'. }
  rewrite Hgen. simpl. rewrite elem_of_nil. tauto.
Qed.

Lemma nodes_delete_deps_graph state k r :
  (k, r) ∈ state → k ∈ nodes (_generate_delete_deps_graph state).
Proof.
  unfold _generate_delete_deps_graph.
  assert (∀ g, k ∈ nodes g ∨ (k, r) ∈ state →
            k ∈ nodes (foldl (λ g kv,
              add_edges_from (map (λ d, (kv.1, d)) (deps kv.2)) (add_node kv.1 g)) g state))
    as Hgen.
  { induction state as [|[k' r'] state IH]; intros g; simpl.
    - by intros [?|?%elem_of_nil].
    - intros [?|[[= -> ->]|?]%elem_of_cons]; apply IH; auto.
      + left. apply nodes_add_edges_from, nodes_add_node. auto.
      + left. apply nodes_add_edges_from, nodes_add_node. auto. }
  auto.
Qed.

Lemma edges_tools_deps_graph state u v :
  (u, v) ∈ edges (_generate_tools_deps_graph state) ↔
  ∃ r, (u, r) ∈ state ∧ v ∈ tools r.
Proof.
  unfold _generate_tools_deps_graph.
  assert (∀ g, (u, v) ∈ edges (foldl (λ g kv,
              add_edges_from (map (λ d, (kv.1, d)) (tools kv.2)) g) g state)
            ↔ (u, v) ∈ edges g ∨ ∃ r, (u, r) ∈ state ∧ v ∈ tools r) as Hgen.
  { induction state as [|[k r] state IH]; intros g; simpl.
    - split; [by left | by intros [?|(? & ?%elem_of_nil & _)]].
    - rewrite IH, edges_add_edges_from. split.
      + intros [[Hin|?]|(r' & ? & ?)]; [|by left|].
        * apply list_elem_of_fmap in Hin as (d & [= -> ->] & ?).
          right. exists r. split; [left | done].
        * right. exists r'. split; [by right | done].
      + intros [?|(r' & [[= -> ->]|?]%elem_of_cons & ?)]; [by left; right|..].
        * left. left. apply list_elem_of_fmap. by exists v.
        * right. by exists r'. }
  rewrite Hgen. simpl. rewrite elem_of_nil. tauto.
Qed.

Lemma dict_get_Some d k r : dict_get d k = Some r → (k, r) ∈ d.
Proof.
  induction d as [|[k' r'] d IH]; simpl; [done|].
  case_bool_decide as Hk; [intros [= ->]; subst; left | right; auto].
Qed.

Lemma dict_get_None d k : dict_get d k = None ↔ k ∉ dict_keys d.
Proof.
  unfold dict_keys. induction d as [|[k' r'] d IH]; simpl.
  - split; [by intros _ ?%elem_of_nil | done].
  - rewrite not_elem_of_cons, <- IH. case_bool_decide as Hk; split.
    + done.
    + by intros [[] _].
    + intros ?. split; [congruence | done].
    + by intros [_ ?].
Qed.

Lemma dict_in_keys k d : dict_in k d = true ↔ k ∈ dict_keys d.
Proof.
  destruct (dict_in k d) eqn:Hk.
  - split; [intros _ | done].
    destruct (decide (k ∈ dict_keys d)) as [|Hn]; [done|].
    apply dict_get_None in Hn. apply dict_in_false in Hn. congruence.
  - split; [done|]. intros Hin. apply dict_in_false, dict_get_None in Hk. done.
Qed.

Lemma elem_of_dict k r (d : dict) : (k, r) ∈ d → dict_in k d = true.
Proof.
  intros Hin. apply dict_in_keys. unfold dict_keys.
  apply list_elem_of_fmap. by exists (k, r).
Qed.

(** ** Dependents are deleted before what they depend on *)

Section dependents_first.
Variable self : ApplyPlanner.
Hypothesis Hself : constructed self.

Lemma dependees_complete n dependees B rB :
  predecessors (_delete_deps_graph self) n = Some dependees →
  dict_get (_state self) B = Some rB → n ∈ deps rB → B ∈ dependees.
Proof.
  intros Hpred HB Hn. apply (predecessors_elem _ _ _ _ Hpred).
  destruct Hself as [-> _]. apply edges_delete_deps_graph.
  exists rB. split; [by apply dict_get_Some | done].
Qed.

Lemma planner_dependents_first fuel :
  (∀ n s s', _apply_resource self fuel n s = (s', Ok tt) →
     dependents_first self (ops s) → dependents_first self (ops s')) ∧
  (∀ n s s', _plan_create self fuel n s = (s', Ok tt) →
     dependents_first self (ops s) → dependents_first self (ops s')) ∧
  (∀ n s s', _plan_delete self fuel n s = (s', Ok tt) →
     dependents_first self (ops s) → dependents_first self (ops s')).
Proof.
  apply (planner_ind self (apply_post self) (create_post self) (delete_post self));
    [apply planner_basic|..].
  - done.
  - intros n s s' _ _ HD _. exact HD.
  - intros n s s1 s' _ _ _ HD _ HC _ Hs. by apply HC, HD.
  - intros n s s' _ _ _ _ HC _. exact HC.
  - done.
  - intros n r s s1 s2 _ Ht Hd Hs A B rB HB HA. simpl.
    apply always_before_snoc; [|left; apply Create_ne_Delete].
    revert A B rB HB HA. change (dependents_first self (ops s2)).
    eapply (steps_invariant _ (λ s, dependents_first self (ops s))); [|exact Hd|].
    { by intros ? ? ? _ [H _]. }
    eapply (steps_invariant _ (λ s, dependents_first self (ops s))); [|exact Ht|done].
    by intros ? ? ? _ [H _].
  - intros n current users dependees s s1 s2 s3 Hcur _ Hpred Hu Hd Ht Hs A B rB HB HA.
    assert (dict_in n (_state self) = true) as Hn by (by apply dict_in_true).
    simpl. apply always_before_snoc.
    + revert A B rB HB HA. change (dependents_first self (ops s3)).
      eapply (steps_invariant _ (λ s, dependents_first self (ops s))); [|exact Ht|].
      { by intros ? ? ? _ [H _]. }
      eapply (steps_invariant _ (λ s, dependents_first self (ops s))); [|exact Hd|].
      { by intros ? ? ? _ [H _]. }
      eapply (steps_invariant _ (λ s, dependents_first self (ops s))); [|exact Hu|done].
      by intros ? ? ? _ [H _].
    + destruct (decide (A = n)) as [->|]; [right | left; by intros ?%Delete_inj].
      eapply (grows_elem self s2); [by eapply steps_tools_grows, Ht|].
      eapply (steps_each self _ (λ d s, Delete d ∈ ops s)); [| |exact Hd|].
      * intros x a b _ [_ (Hg & Hx & _)]. done.
      * intros x a b Hx Hg. by eapply grows_elem.
      * by eapply dependees_complete.
Qed.

Lemma yielded_dependents_first fuel specifiers out A B rB :
  completes (plan fuel self specifiers) out →
  dict_get (_state self) B = Some rB → A ∈ deps rB →
  always_before (Delete B) (Delete A) out.
Proof.
  intros (s & _ & Hrun & ->)%plan_completes HB HA.
  apply yield_unvisited_always_before; [|by intros ?%not_elem_of_empty].
  apply backfill_always_before.
  2:{ intros m Hm. symmetry in Hm. by apply Create_ne_Delete in Hm. }
  revert A B rB HB HA. change (dependents_first self (ops s)).
  eapply (for_each_invariant _ (λ s, dependents_first self (ops s))); [|exact Hrun|].
  - intros x a b _. apply planner_dependents_first.
  - intros A B rB _ _. apply always_before_nil.
Qed.
End dependents_first.

(** ** A changed resource that does not exist yet *)

Section changed_but_absent.
Variable self : ApplyPlanner.
Variable name : string.
Hypothesis Hchanged : name ∈ _changed self.
Hypothesis Htarget : dict_in name (_target self) = true.
Hypothesis Hstate : dict_in name (_state self) = false.

(** Resolving [name] goes to [_plan_delete], whose assertion fails. *)
Lemma resolve_changed_but_absent fuel s :
  name ∉ applied s →
  _apply_resource self (S (S fuel)) name s = (st_add name s, Raise AssertionError).
Proof.
  intros Hname. simpl. unfold bind at 1. unfold is_applied at 1.
  rewrite (bool_decide_eq_false_2 _ Hname).
  unfold bind at 1. unfold applied_add at 1.
  rewrite Htarget. simpl. unfold _is_changed.
  rewrite (bool_decide_eq_true_2 _ Hchanged).
  unfold bind at 1. unfold bind at 1. by rewrite Hstate.
Qed.

(** A call that returns has not resolved [name]. *)
Lemma planner_never_resolves fuel :
  (∀ n s s', _apply_resource self fuel n s = (s', Ok tt) →
     name ∉ applied s → n ≠ name ∧ name ∉ applied s') ∧
  (∀ n s s', _plan_create self fuel n s = (s', Ok tt) →
     name ∉ applied s → name ∉ applied s') ∧
  (∀ n s s', _plan_delete self fuel n s = (s', Ok tt) →
     name ∉ applied s → name ∉ applied s').
Proof.
  assert (∀ n s, n ≠ name → name ∉ applied s → name ∉ applied (st_add n s)) as Hadd.
  { intros n s Hne Hs. simpl. rewrite not_elem_of_union, elem_of_singleton. auto. }
  apply (planner_ind self (apply_post self) (create_post self) (delete_post self));
    [apply planner_basic|..].
  - intros n s Hn Hs. split; [by intros -> | done].
  - intros n s s' _ Ht HD _ Hs.
    assert (n ≠ name) by congruence. auto.
  - intros n s s1 s' _ _ _ HD (_ & _ & Hin) HC _ Hs.
    assert (n ≠ name) by congruence. auto.
  - intros n s s' _ _ Hch _ HC _ Hs.
    assert (n ≠ name) by (by intros ->). auto.
  - intros n s _ _ _ Hin Hs.
    assert (n ≠ name) by congruence. auto.
  - intros n r s s1 s2 _ Ht Hd Hs. simpl.
    eapply (steps_invariant _ (λ s, name ∉ applied s)); [|exact Hd|].
    { intros ? ? ? _ [H _] ?. by apply H. }
    eapply (steps_invariant _ (λ s, name ∉ applied s)); [|exact Ht|done].
    intros ? ? ? _ [H _] ?. by apply H.
  - intros n current users dependees s s1 s2 s3 _ _ _ Hu Hd Ht Hs. simpl.
    eapply (steps_invariant _ (λ s, name ∉ applied s)); [|exact Ht|].
    { intros ? a ? _ [H _] ?. apply H. simpl. by intros [? _]%elem_of_difference. }
    eapply (steps_invariant _ (λ s, name ∉ applied s)); [|exact Hd|].
    { by intros ? ? ? _ [H _]. }
    eapply (steps_invariant _ (λ s, name ∉ applied s)); [|exact Hu|done].
    intros ? ? ? _ [H _] ?. by apply H.
Qed.

Lemma resolving_never_returns fuel l s s' :
  name ∈ l → name ∉ applied s →
  for_each l (_apply_resource self fuel) s ≠ (s', Ok tt).
Proof.
  intros Hl Hs Hrun.
  eapply for_each_ok in Hrun; [|by intros x a b _ Hx; apply Hx].
  revert Hl Hs. induction Hrun as [|x l s s1 s' Hx _ IH]; [by intros ?%elem_of_nil|].
  intros Hl Hs. apply planner_never_resolves in Hx as [Hne Hs1]; [|done].
  apply elem_of_cons in Hl as [->|Hl]; [done | by apply IH].
Qed.
End changed_but_absent.

(** ** The cycle check *)

Section closed_sets.
Context {A : Type} `{EqDecision A}.

(** In a non-empty finite set where every element is related to one of
    the set by a transitive relation, some element is related to itself. *)
Lemma closed_list_loops (R : relation A) `{!Transitive R} (l : list A) :
  l ≠ [] → (∀ v, v ∈ l → ∃ w, w ∈ l ∧ R v w) → ∃ v, R v v.
Proof.
  induction l as [|x l IH]; [done|]. intros _ Hclosed.
  destruct (Hclosed x) as (w & Hw & Hxw); [left|].
  destruct (decide (w = x)) as [->|Hne]; [by exists x|].
  apply elem_of_cons in Hw as [->|Hw]; [done|].
  apply IH.
  - intros ->. by apply elem_of_nil in Hw.
  - intros v Hv. destruct (Hclosed v) as (u & Hu & Hvu); [by right|].
    apply elem_of_cons in Hu as [->|Hu]; [|by exists u].
    exists w. split; [done | by etrans].
Qed.

Lemma filter_Forall (P : A → Prop) `{∀ x, Decision (P x)} (l : list A) :
  Forall P l → filter P l = l.
Proof.
  induction 1 as [|x l Hx _ IH]; [done|].
  by rewrite filter_cons_True, IH.
Qed.
End closed_sets.

Section find_cycle.
Variable es : list (string * string).

Lemma trim_elem v S : v ∈ trim es S → v ∈ S.
Proof. unfold trim. by intros [_ ?]%list_elem_of_filter. Qed.

Lemma iter_trim_closed k S : (length S ≤ k)%nat → closed es (Nat.iter k (trim es) S).
Proof.
  revert S. induction k as [|k IH]; intros S Hlen.
  - destruct S; [constructor | simpl in Hlen; lia].
  - rewrite Nat.iter_succ_r.
    destruct (decide (closed es S)) as [Hc|Hc].
    + assert (trim es S = S) as Heq by (by apply filter_Forall).
      rewrite Heq. clear IH Hlen.
      induction k as [|k IHk]; [done|]. rewrite Nat.iter_succ_r, Heq. done.
    + apply IH. apply not_Forall_Exists in Hc; [|apply _].
      apply Exists_exists in Hc as (v & Hv & Hnot).
      pose proof (length_filter_lt (λ v, Exists (λ w, (v, w) ∈ es) S) S v Hv Hnot).
      unfold trim. lia.
Qed.

Lemma trim_keeps_loops S v :
  (∀ v, tc (λ u w, (u, w) ∈ es) v v → v ∈ S) →
  tc (λ u w, (u, w) ∈ es) v v → v ∈ trim es S.
Proof.
  intros HS Hv. apply list_elem_of_filter. split; [|by apply HS].
  apply Exists_exists.
  inversion Hv as [? ? Hvv|? w ? Hvw Hwv]; subst.
  - exists v. split; [by apply HS | done].
  - exists w. split; [|done]. apply HS. by eapply tc_r.
Qed.

Lemma iter_trim_keeps_loops k S v :
  (∀ v, tc (λ u w, (u, w) ∈ es) v v → v ∈ S) →
  tc (λ u w, (u, w) ∈ es) v v → v ∈ Nat.iter k (trim es) S.
Proof.
  intros HS. revert v. induction k as [|k IH]; intros v Hv; simpl; [by apply HS|].
  by apply trim_keeps_loops.
Qed.
End find_cycle.

(** [has_cycle] decides whether the graph has a directed cycle. *)
Lemma has_cycle_iff g :
  graph_wf g → has_cycle g = true ↔ ∃ v, tc (edge g) v v.
Proof.
  intros Hwf. unfold has_cycle. split.
  - pose proof (iter_trim_closed (edges g) (length (nodes g)) (nodes g) (le_n _)) as Hc.
    destruct (Nat.iter _ _ _) as [|x F] eqn:HF; [done|]. intros _.
    apply (closed_list_loops (tc (edge g)) (x :: F)); [done|].
    intros v Hv. unfold closed in Hc. rewrite Forall_forall in Hc.
    apply Hc, Exists_exists in Hv as (w & Hw & Hvw).
    exists w. split; [done | by apply tc_once].
  - intros [v Hv].
    assert (v ∈ Nat.iter (length (nodes g)) (trim (edges g)) (nodes g)) as Hin.
    { apply iter_trim_keeps_loops; [|done]. clear v Hv. intros v Hv.
      inversion Hv as [? ? Hvw|? w ? Hvw _]; subst; by apply Hwf in Hvw as [? _]. }
    destruct (Nat.iter _ _ _); [by apply elem_of_nil in Hin | done].
Qed.

(** A cycle among the current resources makes [_validate_acyclic] raise. *)
Lemma validate_cyclic self :
  constructed self →
  (∃ v, tc (uses (_state self)) v v) → _validate_acyclic self = Raise ValueError.
Proof.
  intros [Hd Ht] [v Hv]. unfold _validate_acyclic.
  rewrite (proj2 (has_cycle_iff _ (graph_wf_compose _ _))); [done|].
  exists v. eapply (tc_congruence id); [|exact Hv].
  intros x y (r & Hr & Hy). unfold edge. apply edges_compose. rewrite Hd, Ht.
  destruct Hy as [Hy|Hy].
  - left. apply edges_delete_deps_graph. eauto.
  - right. apply edges_tools_deps_graph. eauto.
Qed.

Lemma validate_acyclic self :
  constructed self →
  _validate_acyclic self = Ok tt → ∀ v, ¬ tc (uses (_state self)) v v.
Proof.
  intros Hself Hok v Hv. rewrite validate_cyclic in Hok; [done..|]. by exists v.
Qed.

(** ** The exceptions the recursion can raise *)

Lemma for_each_raise {A} (body : A → M unit) l s s' e :
  for_each l body s = (s', Raise e) → ∃ x a, x ∈ l ∧ body x a = (s', Raise e).
Proof.
  revert s. induction l as [|x l IH]; intros s; simpl; [by intros [=]|].
  intros [Hx|(s1 & [] & _ & Hl)]%bind_raise.
  - exists x, s. split; [left | done].
  - destruct (IH _ Hl) as (y & a & Hy & Hrun). exists y, a. split; [by right | done].
Qed.

Section raises.
Variable self : ApplyPlanner.
Hypothesis Hself : constructed self.

Lemma state_has_node n :
  dict_in n (_state self) = true → has_node (_delete_deps_graph self) n = true.
Proof.
  intros [r Hr%dict_get_Some]%dict_in_true. destruct Hself as [-> _].
  apply bool_decide_eq_true. by eapply nodes_delete_deps_graph.
Qed.

(** Apart from the depth bound, only the assertions fail: the lookups in
    the dictionaries and in the graphs always succeed. *)
Lemma planner_raises fuel :
  (∀ n s s' e, _apply_resource self fuel n s = (s', Raise e) →
     e = AssertionError ∨ e = RecursionError) ∧
  (∀ n s s' e, _plan_create self fuel n s = (s', Raise e) →
     e = AssertionError ∨ e = RecursionError) ∧
  (∀ n s s' e, _plan_delete self fuel n s = (s', Raise e) →
     e = AssertionError ∨ e = RecursionError).
Proof.
  induction fuel as [|fuel (IHA & IHC & IHD)].
  { repeat split; intros n s s' e [= _ <-]; by right. }
  split; [|split]; intros n s s' e Hrun; simpl in Hrun.
  - apply bind_raise in Hrun as [[=]|(s1 & seen & [= <- <-] & Hrun)].
    case_bool_decide as Hseen; [done|].
    apply bind_raise in Hrun as [[=]|(s1 & [] & _ & Hrun)].
    destruct (dict_in n (_target self)); simpl in Hrun; [|eauto].
    destruct (_is_changed self n).
    { apply bind_raise in Hrun as [?|(? & [] & _ & ?)]; eauto. }
    destruct (dict_in n (_state self)); simpl in Hrun; [done | eauto].
  - apply bind_raise in Hrun as [Hrun|(s1 & [] & [Hin ->]%assert_ok & Hrun)].
    { unfold assert in Hrun. destruct (_ || _); [done|].
      injection Hrun as _ <-. by left. }
    apply bind_raise in Hrun as [Hrun|(s1 & r & _ & Hrun)].
    { exfalso. destruct (dict_get (_target self) n) as [r|] eqn:Ht; [done|].
      apply dict_in_false in Ht. rewrite Ht in Hin. simpl in Hin.
      apply dict_in_true in Hin as [r Hr].
      unfold dict_getitem in Hrun. by rewrite Hr in Hrun. }
    apply bind_raise in Hrun as [(? & ? & _ & ?)%for_each_raise|(? & [] & _ & Hrun)];
      [eauto|].
    apply bind_raise in Hrun as [(? & ? & _ & ?)%for_each_raise|(? & [] & _ & Hrun)];
      [eauto | done].
  - apply bind_raise in Hrun as [Hrun|(s0 & [] & [Hin ->]%assert_ok & Hrun)].
    { unfold assert in Hrun. destruct (dict_in _ _); [done|].
      injection Hrun as _ <-. by left. }
    apply bind_raise in Hrun as [Hrun|(s1 & [] & _ & Hrun)].
    { unfold graph_predecessors, predecessors in Hrun.
      destruct (has_node (_tools_deps_graph self) n); [|done].
      apply bind_raise in Hrun as [[=]|(? & ? & [= <- <-] & Hrun)].
      apply for_each_raise in Hrun as (? & ? & _ & ?). eauto. }
    apply bind_raise in Hrun as [Hrun|(s2 & [] & _ & Hrun)].
    { unfold graph_predecessors, predecessors in Hrun.
      rewrite (state_has_node _ Hin) in Hrun.
      apply bind_raise in Hrun as [[=]|(? & ? & [= <- <-] & Hrun)].
      apply for_each_raise in Hrun as (? & ? & _ & ?). eauto. }
    apply bind_raise in Hrun as [Hrun|(s3 & [] & _ & [=])].
    apply dict_in_true in Hin as [r Hr]. unfold dict_getitem in Hrun. rewrite Hr in Hrun.
    apply bind_raise in Hrun as [[=]|(? & ? & [= <- <-] & Hrun)].
    apply for_each_raise in Hrun as (? & ? & _ & Hrun).
    apply bind_raise in Hrun as [[=]|(? & [] & _ & ?)]. eauto.
Qed.
End raises.

(** ** New tools are created before their new users *)

Section tools_first.
Variable self : ApplyPlanner.
Hypothesis Hself : constructed self.

Lemma follows_tool_users n users x :
  tool_users self n = Some users → x ∈ users → follows self n x.
Proof.
  unfold tool_users. destruct (has_node _ n); [|by intros [= <-] ?%elem_of_nil].
  intros Hpred Hx. apply (predecessors_elem _ _ _ _ Hpred) in Hx.
  destruct Hself as [_ Ht]. rewrite Ht in Hx.
  apply edges_tools_deps_graph in Hx as (r & ? & ?).
  right. right. exists r. auto.
Qed.

Lemma follows_dependees n dependees x :
  predecessors (_delete_deps_graph self) n = Some dependees →
  x ∈ dependees → follows self n x.
Proof.
  intros Hpred Hx. apply (predecessors_elem _ _ _ _ Hpred) in Hx.
  destruct Hself as [Hd _]. rewrite Hd in Hx.
  apply edges_delete_deps_graph in Hx as (r & ? & ?).
  right. right. exists r. auto.
Qed.

Lemma created_or_pending_mono (P Q : string → Prop) s :
  (∀ x, P x → Q x) → created_or_pending self P s → created_or_pending self Q s.
Proof. intros HPQ Hs x Hx Hin. destruct (Hs x Hx Hin); auto. Qed.

Lemma created_or_pending_add Pend n s :
  dict_in n (_state self) = true →
  created_or_pending self Pend s → created_or_pending self Pend (st_add n s).
Proof.
  intros Hn Hs x Hx [->%elem_of_singleton|Hin]%elem_of_union; [congruence|].
  by apply Hs.
Qed.

Lemma created_or_pending_discard Pend n s :
  created_or_pending self Pend s → created_or_pending self Pend (st_discard n s).
Proof. intros Hs x Hx [Hin _]%elem_of_difference. by apply Hs. Qed.

Lemma created_or_pending_append Pend op s :
  created_or_pending self Pend s → created_or_pending self Pend (st_append op s).
Proof.
  intros Hs x Hx Hin. destruct (Hs x Hx Hin); [left | by right].
  simpl. apply elem_of_app. by left.
Qed.

(** A loop of calls, each reached from all pending names. *)
Lemma steps_tools_inv {A} (P : A → pstate → pstate → Prop) (f : A → string)
    Pend l s s' :
  (∀ x a b, x ∈ l → P x a b →
     (∀ p, Pend p → rtc (follows self) p (f x)) →
     tools_inv self Pend a → tools_inv self Pend b) →
  (∀ x p, x ∈ l → Pend p → rtc (follows self) p (f x)) →
  steps P l s s' → tools_inv self Pend s → tools_inv self Pend s'.
Proof.
  intros HP Hreach. apply steps_invariant.
  intros x a b Hx Hab. apply (HP x); [done..|]. intros p. by apply Hreach.
Qed.

Lemma planner_tools_first fuel :
  (∀ n s s', _apply_resource self fuel n s = (s', Ok tt) →
     ∀ Pend, (∀ p, Pend p → rtc (follows self) p n) →
       tools_inv self Pend s → tools_inv self Pend s') ∧
  (∀ n s s', _plan_create self fuel n s = (s', Ok tt) →
     ∀ Pend, (∀ p, Pend p → rtc (follows self) p n) →
       tools_inv self Pend s → tools_inv self (λ p, Pend p ∧ p ≠ n) s') ∧
  (∀ n s s', _plan_delete self fuel n s = (s', Ok tt) →
     ∀ Pend, (∀ p, Pend p → rtc (follows self) p n) →
       tools_inv self Pend s → tools_inv self Pend s').
Proof.
  apply (planner_ind self (apply_post self) (create_post self) (delete_post self));
    [apply planner_basic|..].
  - done.
  - intros n s s' _ _ HD (_ & _ & Hn) Pend Hreach [Hcp Htf].
    apply HD; [done|]. split; [by apply created_or_pending_add | done].
  - intros n s s1 s' _ _ _ HD (_ & _ & Hn) HC _ Pend Hreach [Hcp Htf].
    destruct (HC Pend Hreach) as [Hcp' Htf'].
    { apply HD; [done|]. split; [by apply created_or_pending_add | done]. }
    split; [|done]. eapply created_or_pending_mono; [|exact Hcp']. by intros ? [? _].
  - intros n s s' _ _ _ Hfresh HC _ Pend Hreach [Hcp Htf].
    destruct (HC (λ p, Pend p ∨ p = n)) as [Hcp' Htf'].
    + intros p [?| ->]; [auto | done].
    + split; [|done].
      intros x Hx [->%elem_of_singleton|Hin]%elem_of_union; [by right; right|].
      destruct (Hcp x Hx Hin); auto.
    + split; [|done]. eapply created_or_pending_mono; [|exact Hcp'].
      by intros ? [[?|?] ?].
  - intros n s _ _ _ Hn Pend _ [Hcp Htf].
    split; [by apply created_or_pending_add | done].
  - intros n r s s1 s2 Hres Ht Hd Pend Hreach Hs.
    assert (∀ x, x ∈ tools r ∨ x ∈ deps r → follows self n x) as Hfol.
    { intros x Hx. left. by exists r. }
    assert (tools_inv self Pend s1) as Hs1.
    { eapply (steps_tools_inv _ id); [| |exact Ht|exact Hs].
      - intros x a b _ [H _]. apply H.
      - intros x p Hx Hp. eapply rtc_r; [by apply Hreach | auto]. }
    assert (tools_inv self Pend s2) as [Hcp Htf].
    { eapply (steps_tools_inv _ id); [| |exact Hd|exact Hs1].
      - intros x a b _ [H _]. apply H.
      - intros x p Hx Hp. eapply rtc_r; [by apply Hreach | auto]. }
    split.
    + intros x Hx Hin. destruct (Hcp x Hx Hin) as [?|Hp].
      * left. simpl. apply elem_of_app. by left.
      * destruct (decide (x = n)) as [->|]; [left | by right].
        simpl. apply elem_of_app. right. left.
    + intros R T r' HR HT HRf HTf Hnot. simpl.
      apply always_before_snoc; [by apply (Htf R T r')|].
      destruct (decide (n = R)) as [->|]; [right | left; by intros ?%Create_inj].
      assert (r' = r) as ->.
      { unfold resource_of in Hres. rewrite HR in Hres. congruence. }
      assert (T ∈ applied s2) as Hin.
      { eapply (steps_apply_grows self _ _ _ _ Hd); [done|].
        eapply (steps_each self _ (λ x s, dict_in x (_state self) = false → x ∈ applied s));
          [| |exact Ht|done..].
        - intros x a b _ [_ [Hg Hx]]. done.
        - intros x a b Hx [_ Hg] Hf. auto. }
      destruct (Hcp T HTf Hin) as [?|Hp]; [done|]. destruct Hnot.
      apply Hreach, rtc_tc in Hp as [->|?]; [|done].
      apply tc_once. left. eauto.
  - intros n current users dependees s s1 s2 s3 Hcur Husers Hpred Hu Hd Ht Pend Hreach Hs.
    assert (tools_inv self Pend s1) as Hs1.
    { eapply (steps_tools_inv _ id); [| |exact Hu|exact Hs].
      - intros x a b _ [H _]. apply H.
      - intros x p Hx Hp. eapply rtc_r; [by apply Hreach|].
        by eapply follows_tool_users. }
    assert (tools_inv self Pend s2) as Hs2.
    { eapply (steps_tools_inv _ id); [| |exact Hd|exact Hs1].
      - intros x a b _ [H _]. apply H.
      - intros x p Hx Hp. eapply rtc_r; [by apply Hreach|].
        by eapply follows_dependees. }
    assert (tools_inv self Pend s3) as [Hcp Htf].
    { eapply (steps_tools_inv _ id); [| |exact Ht|exact Hs2].
      - intros x a b _ [H _] Hr [Hcp Htf]. apply H; [done|].
        split; [by apply created_or_pending_discard | done].
      - intros x p Hx Hp. eapply rtc_r; [by apply Hreach|].
        right. left. eauto. }
    split; [by apply created_or_pending_append|].
    intros R T r' HR HT HRf HTf Hnot. simpl.
    apply always_before_snoc; [by apply (Htf R T r')|].
    left. intros Heq. symmetry in Heq. by apply Create_ne_Delete in Heq.
Qed.

Lemma resolved_tools_first fuel l s :
  for_each l (_apply_resource self fuel) (PState ∅ []) = (s, Ok tt) →
  tools_first self (ops s).
Proof.
  intros Hrun.
  enough (tools_inv self (λ _, False) s) as [_ ?] by done.
  eapply (for_each_invariant _ (tools_inv self (λ _, False))); [|exact Hrun|].
  - intros x a b _ Hx. destruct (planner_tools_first fuel) as (HA & _ & _).
    by apply (HA x).
  - split.
    + by intros x _ ?%not_elem_of_empty.
    + intros R T r _ _ _ _ _. apply always_before_nil.
Qed.
End tools_first.

(** ** The depth bound *)

Lemma refines_refl {A} (m : M A) : refines m m.
Proof. by intros s s' r. Qed.

Lemma refines_bind {A B} (m m' : M A) (k k' : A → M B) :
  refines m m' → (∀ a, refines (k a) (k' a)) → refines (bind m k) (bind m' k').
Proof.
  intros Hm Hk s s' r Hrun Hr. unfold bind in *.
  destruct (m s) as [s1 [a|e]] eqn:Hms.
  - rewrite (Hm _ _ _ Hms); [|done]. by apply Hk.
  - injection Hrun as <- <-. rewrite (Hm _ _ _ Hms); [done|].
    by intros [= ->].
Qed.

Lemma refines_for_each {A} (body body' : A → M unit) l :
  (∀ x, refines (body x) (body' x)) → refines (for_each l body) (for_each l body').
Proof.
  intros Hbody. induction l as [|x l IH]; simpl; [apply refines_refl|].
  apply refines_bind; [done|]. by intros [].
Qed.

Section fuel.
Variable self : ApplyPlanner.

(** A call that does not hit the bound behaves the same under a larger one. *)
Lemma planner_fuel_S fuel :
  (∀ n, refines (_apply_resource self fuel n) (_apply_resource self (S fuel) n)) ∧
  (∀ n, refines (_plan_create self fuel n) (_plan_create self (S fuel) n)) ∧
  (∀ n, refines (_plan_delete self fuel n) (_plan_delete self (S fuel) n)).
Proof.
  induction fuel as [|fuel (IHA & IHC & IHD)].
  { repeat split; intros n s s' r [= <- <-]; done. }
  split; [|split]; intros n.
  - change (_apply_resource self (S (S fuel)) n) with
      (do seen <- is_applied n;
       if seen : bool then ret tt
       else
         applied_add n >>
         if negb (dict_in n (_target self)) then _plan_delete self (S fuel) n
         else if _is_changed self n then
           (_plan_delete self (S fuel) n >> _plan_create self (S fuel) n)
         else if negb (dict_in n (_state self)) then _plan_create self (S fuel) n
         else ret tt).
    simpl. apply refines_bind; [apply refines_refl|]. intros [|]; [apply refines_refl|].
    apply refines_bind; [apply refines_refl|]. intros _.
    destruct (negb _); [done|].
    destruct (_is_changed self n).
    { apply refines_bind; [done|]. by intros _. }
    destruct (negb _); [done | apply refines_refl].
  - change (_plan_create self (S (S fuel)) n) with
      (assert (dict_in n (_target self) || dict_in n (_state self)) >>
       do resource <- match dict_get (_target self) n with
                      | Some r => ret r
                      | None => dict_getitem (_state self) n
                      end;
       for_each (tools resource) (_apply_resource self (S fuel)) >>
       for_each (deps resource) (_apply_resource self (S fuel)) >>
       plan_append (Create n)).
    simpl. apply refines_bind; [apply refines_refl|]. intros _.
    apply refines_bind; [apply refines_refl|]. intros r.
    apply refines_bind; [by apply refines_for_each|]. intros _.
    apply refines_bind; [by apply refines_for_each|]. intros _.
    apply refines_refl.
  - change (_plan_delete self (S (S fuel)) n) with
      (assert (dict_in n (_state self)) >>
       (if has_node (_tools_deps_graph self) n then
          do users <- graph_predecessors (_tools_deps_graph self) n;
          for_each users (_apply_resource self (S fuel))
        else ret tt) >>
       (do dependees <- graph_predecessors (_delete_deps_graph self) n;
        for_each dependees (_plan_delete self (S fuel))) >>
       (do current <- dict_getitem (_state self) n;
        for_each (tools current)
          (λ tool, applied_discard n >> _apply_resource self (S fuel) tool)) >>
       plan_append (Delete n)).
    simpl. apply refines_bind; [apply refines_refl|]. intros _.
    apply refines_bind.
    { destruct (has_node _ n); [|apply refines_refl].
      apply refines_bind; [apply refines_refl|]. intros users.
      by apply refines_for_each. }
    intros _. apply refines_bind.
    { apply refines_bind; [apply refines_refl|]. intros dependees.
      by apply refines_for_each. }
    intros _. apply refines_bind; [|intros _; apply refines_refl].
    apply refines_bind; [apply refines_refl|]. intros current.
    apply refines_for_each. intros tool.
    apply refines_bind; [apply refines_refl|]. by intros _.
Qed.

Lemma apply_resource_fuel_le fuel fuel' n :
  (fuel ≤ fuel')%nat →
  refines (_apply_resource self fuel n) (_apply_resource self fuel' n).
Proof.
  induction 1 as [|fuel' _ IH]; [apply refines_refl|].
  intros s s' r Hrun Hr. apply planner_fuel_S; [|done]. by apply IH.
Qed.

(** If [plan] does not hit the bound, a larger bound changes nothing. *)
Lemma plan_fuel_le fuel fuel' specifiers :
  (fuel ≤ fuel')%nat →
  raised (plan fuel self specifiers).1 ≠ Some RecursionError →
  plan fuel' self specifiers = plan fuel self specifiers.
Proof.
  intros Hle. unfold plan.
  destruct (plan_body self fuel specifiers _) as [s r] eqn:Hrun. intros Hr.
  enough (refines (plan_body self fuel specifiers) (plan_body self fuel' specifiers))
    as Href.
  { rewrite (Href _ _ _ Hrun); [done|]. destruct r; [done|]. simpl in Hr. congruence. }
  unfold plan_body.
  apply refines_bind; [apply refines_refl|]. intros _.
  apply refines_bind; [apply refines_refl|]. intros _.
  apply refines_bind; [|intros _; apply refines_refl].
  apply refines_for_each. intros n. by apply apply_resource_fuel_le.
Qed.
End fuel.

(** ** The field [_applied] at the start of a call *)

Lemma bind_ext {A B} (m m' : M A) (k k' : A → M B) s :
  m s = m' s → (∀ a s1, k a s1 = k' a s1) → bind m k s = bind m' k' s.
Proof. intros Hm Hk. unfold bind. rewrite Hm. by destruct (m' s) as [? [?|?]]. Qed.

Lemma for_each_ext {A} (body body' : A → M unit) l s :
  (∀ x s, body x s = body' x s) → for_each l body s = for_each l body' s.
Proof.
  intros Hbody. revert s. induction l as [|x l IH]; intros s; simpl; [done|].
  by apply bind_ext.
Qed.

Section with_applied.
Variable self : ApplyPlanner.
Variable a : gset string.

(** The recursive methods do not read the field: they work on the set the
    monad threads. *)
Lemma methods_with_applied fuel :
  (∀ n s, _apply_resource (with_applied a self) fuel n s = _apply_resource self fuel n s) ∧
  (∀ n s, _plan_create (with_applied a self) fuel n s = _plan_create self fuel n s) ∧
  (∀ n s, _plan_delete (with_applied a self) fuel n s = _plan_delete self fuel n s).
Proof.
  induction fuel as [|fuel (IHA & IHC & IHD)]; [done|].
  split; [|split]; intros n s; simpl.
  - apply bind_ext; [done|]. intros [|] s1; [done|].
    apply bind_ext; [done|]. intros _ s2.
    change (_target (with_applied a self)) with (_target self).
    change (_state (with_applied a self)) with (_state self).
    change (_is_changed (with_applied a self) n) with (_is_changed self n).
    destruct (negb _); [done|]. destruct (_is_changed self n).
    { by apply bind_ext. }
    destruct (negb _); done.
  - apply bind_ext; [done|]. intros _ s1.
    apply bind_ext; [done|]. intros r s2.
    apply bind_ext; [by apply for_each_ext|]. intros _ s3.
    apply bind_ext; [by apply for_each_ext | done].
  - apply bind_ext; [done|]. intros _ s1.
    change (_tools_deps_graph (with_applied a self)) with (_tools_deps_graph self).
    change (_delete_deps_graph (with_applied a self)) with (_delete_deps_graph self).
    change (_state (with_applied a self)) with (_state self).
    apply bind_ext.
    { destruct (has_node _ n); [|done].
      apply bind_ext; [done|]. intros users s2. by apply for_each_ext. }
    intros _ s2. apply bind_ext.
    { apply bind_ext; [done|]. intros dependees s3. by apply for_each_ext. }
    intros _ s3. apply bind_ext; [|done].
    apply bind_ext; [done|]. intros current s4.
    apply for_each_ext. intros tool s5. by apply bind_ext.
Qed.

Lemma plan_body_with_applied fuel specifiers s :
  plan_body (with_applied a self) fuel specifiers s = plan_body self fuel specifiers s.
Proof.
  unfold plan_body. apply bind_ext; [done|]. intros _ s1.
  apply bind_ext; [done|]. intros _ s2.
  apply bind_ext; [|done].
  apply for_each_ext. intros n s3. apply methods_with_applied.
Qed.

(** [plan] clears the set before it uses it. *)
Lemma plan_body_clears fuel specifiers b l :
  (plan_body self fuel specifiers (PState b l)).2 =
  (plan_body self fuel specifiers (PState ∅ l)).2.
Proof.
  unfold plan_body. unfold bind at 1 3. unfold lift.
  destruct (_validate_acyclic self); [|done].
  unfold bind at 1 3. by unfold applied_clear.
Qed.

Lemma plan_with_applied fuel specifiers :
  (plan fuel (with_applied a self) specifiers).1 = (plan fuel self specifiers).1.
Proof.
  unfold plan. rewrite plan_body_with_applied.
  change (_applied (with_applied a self)) with a.
  pose proof (plan_body_clears fuel specifiers a []) as Ha.
  pose proof (plan_body_clears fuel specifiers (_applied self) []) as Hb.
  destruct (plan_body self fuel specifiers (PState a [])) as [? r1].
  destruct (plan_body self fuel specifiers (PState (_applied self) [])) as [? r2].
  simpl in *. rewrite Ha, Hb. by destruct (plan_body _ _ _ _) as [? [?|?]].
Qed.
End with_applied.

Lemma plan_returns_planner fuel self specifiers :
  ∃ a, (plan fuel self specifiers).2 = with_applied a self.
Proof.
  unfold plan. destruct (plan_body _ _ _ _) as [s [l|e]]; by exists (applied s).
Qed.

(** The working set: the specifiers if there are any, else every name. *)
Lemma working_set_default self n :
  n ∈ working_set self None ↔
  dict_in n (_target self) = true ∨ dict_in n (_state self) = true.
Proof.
  unfold working_set, all_names.
  rewrite sorted_Permutation, elem_of_elements, elem_of_union, !elem_of_list_to_set.
  by rewrite !dict_in_keys.
Qed.

Lemma working_set_elem self specifiers n :
  dict_in n (_target self) = true →
  (∀ l, specifiers = Some l → l ≠ [] → n ∈ l) →
  n ∈ working_set self specifiers.
Proof.
  intros Ht Hspec. destruct specifiers as [[|x l]|].
  - apply working_set_default. by left.
  - unfold working_set. rewrite sorted_Permutation. by apply Hspec.
  - apply working_set_default. by left.
Qed.

Lemma validate_acyclic_ok self :
  constructed self → ¬ cyclic (_state self) → _validate_acyclic self = Ok tt.
Proof.
  intros [Hd Ht] Hacyclic. unfold _validate_acyclic.
  destruct (has_cycle _) eqn:Hc; [|done]. destruct Hacyclic.
  apply has_cycle_iff in Hc as [v Hv]; [|apply graph_wf_compose].
  exists v. eapply (tc_congruence id); [|exact Hv].
  intros x y [Hxy|Hxy]%edges_compose.
  - rewrite Hd in Hxy. apply edges_delete_deps_graph in Hxy as (r & ? & ?).
    exists r. auto.
  - rewrite Ht in Hxy. apply edges_tools_deps_graph in Hxy as (r & ? & ?).
    exists r. auto.
Qed.

Lemma plan_cyclic fuel self specifiers :
  constructed self → cyclic (_state self) →
  aborts (plan fuel self specifiers) ValueError.
Proof.
  intros Hself Hcyc. unfold aborts, plan, plan_body.
  unfold bind at 1. unfold lift at 1. by rewrite validate_cyclic.
Qed.

Lemma plan_aborts fuel self specifiers e :
  aborts (plan fuel self specifiers) e ↔
  _validate_acyclic self = Raise e ∨
  (_validate_acyclic self = Ok tt ∧
   ∃ s, for_each (working_set self specifiers) (_apply_resource self fuel)
          (PState ∅ []) = (s, Raise e)).
Proof.
  unfold aborts, plan, plan_body.
  unfold bind at 1. unfold lift at 1.
  destruct (_validate_acyclic self) as [[]|e'].
  2:{ simpl. split; [intros [= ->]; by left|].
      by intros [[= ->]|[[=] _]]. }
  unfold bind at 1. unfold applied_clear at 1. simpl.
  unfold bind at 1.
  destruct (for_each _ _ _) as [s [[]|e']]; simpl.
  - unfold ret. simpl. split; [by intros [=]|].
    by intros [[=]|[_ (? & [=])]].
  - split.
    + intros [= ->]. right. split; [done|]. by exists s.
    + by intros [[=]|[_ (? & [= _ ->])]].
Qed.

Lemma completes_or_aborts fuel self specifiers :
  (∃ out, completes (plan fuel self specifiers) out) ∨
  (∃ e, aborts (plan fuel self specifiers) e).
Proof.
  unfold completes, aborts, plan.
  destruct (plan_body _ _ _ _) as [s [l|e]]; simpl; eauto.
Qed.

Lemma always_before_occurs x y l :
  always_before x y l → y ∈ l → occurs_before x y l.
Proof.
  intros Hl (j & Hj)%list_elem_of_lookup.
  destruct (always_before_lookup _ _ _ _ Hl Hj) as (i & Hlt & Hi).
  by exists i, j.
Qed.

(** ** The cycle check does not bound the recursion *)

Lemma bind_eval_ok {A B} (m : M A) (k : A → M B) s s1 a :
  m s = (s1, Ok a) → bind m k s = k a s1.
Proof. intros Hm. unfold bind. by rewrite Hm. Qed.

Lemma bind_eval_raise {A B} (m : M A) (k : A → M B) s s1 e :
  m s = (s1, Raise e) → bind m k s = (s1, Raise e).
Proof. intros Hm. unfold bind. by rewrite Hm. Qed.

Lemma apply_resource_seen self fuel n s :
  n ∈ applied s → _apply_resource self (S fuel) n s = (s, Ok tt).
Proof.
  intros Hn. simpl. unfold bind at 1. unfold is_applied at 1.
  by rewrite (bool_decide_eq_true_2 _ Hn).
Qed.

(** With the current collection [t], [x(tools=[t])] and the target
    definition [x(deps=[x], tools=[t])] of the changed [x]: deleting [x]
    un-marks it, so creating it resolves it again, under any bound. *)
Lemma self_dependent_target_recursion fuel :
  ∀ s, "x" ∉ applied s → "t" ∈ applied s →
    ∃ s', _apply_resource self_dependent_target fuel "x" s = (s', Raise RecursionError).
Proof.
  assert (∀ k s, "x" ∉ applied s →
            _apply_resource self_dependent_target (S k) "x" s =
            bind (_plan_delete self_dependent_target k "x")
              (λ _, _plan_create self_dependent_target k "x") (st_add "x" s)) as Happly.
  { intros k s Hx. simpl. unfold bind at 1. unfold is_applied at 1.
    by rewrite (bool_decide_eq_false_2 _ Hx). }
  assert (∀ k a,
            _plan_delete self_dependent_target (S k) "x" a =
            bind (bind (bind (applied_discard "x")
                          (λ _, _apply_resource self_dependent_target k "t"))
                    (λ _, ret tt))
              (λ _, plan_append (Delete "x")) a) as Hdelete by done.
  assert (∀ k a,
            _plan_create self_dependent_target (S k) "x" a =
            bind (bind (_apply_resource self_dependent_target k "t") (λ _, ret tt))
              (λ _, bind (bind (_apply_resource self_dependent_target k "x")
                            (λ _, ret tt))
                      (λ _, plan_append (Create "x"))) a) as Hcreate by done.
  induction fuel as [fuel IH] using lt_wf_ind. intros s Hx Ht.
  destruct fuel as [|[|[|fuel]]].
  - by eexists.
  - eexists. rewrite Happly by done. by apply bind_eval_raise.
  - eexists. rewrite Happly by done. apply bind_eval_raise.
    rewrite Hdelete. do 2 apply bind_eval_raise.
    erewrite bind_eval_ok; reflexivity.
  - set (s1 := st_discard "x" (st_add "x" s)).
    assert ("t" ∈ applied s1 ∧ "x" ∉ applied s1) as [Ht1 Hx1].
    { simpl. split.
      - apply elem_of_difference. split; [|by intros ?%elem_of_singleton].
        apply elem_of_union. by right.
      - intros [_ []]%elem_of_difference. by apply elem_of_singleton. }
    destruct (IH (S fuel) ltac:(lia) (st_append (Delete "x") s1) Hx1 Ht1) as [s' Hrun].
    exists s'. rewrite Happly by done.
    erewrite bind_eval_ok.
    2:{ rewrite Hdelete. erewrite bind_eval_ok; [reflexivity|].
        erewrite bind_eval_ok; [reflexivity|].
        erewrite bind_eval_ok; [|reflexivity].
        by apply apply_resource_seen. }
    rewrite Hcreate. erewrite bind_eval_ok.
    2:{ erewrite bind_eval_ok; [reflexivity|]. by apply apply_resource_seen. }
    apply bind_eval_raise. by apply bind_eval_raise.
Qed.

(** So [plan] exceeds every bound on the depth of the recursion, although
    the current collection has no cycle; it does so before it resolves [z],
    whose deletion would fail the assertion. *)
Lemma self_dependent_target_aborts fuel :
  ¬ cyclic (_state self_dependent_target) ∧
  "z" ∈ working_set self_dependent_target None ∧
  aborts (plan fuel self_dependent_target None) RecursionError.
Proof.
  assert (_validate_acyclic self_dependent_target = Ok tt) as Hvalid by by vm_compute.
  split.
  { intros [v Hv]. eapply validate_acyclic; [|exact Hvalid|exact Hv]. by split. }
  split; [apply (bool_decide_unpack _); by vm_compute|].
  apply plan_aborts. right. split; [done|].
  change (working_set self_dependent_target None) with
    (sorted (elements (all_names self_dependent_target))).
  assert (sorted (elements (all_names self_dependent_target)) = ["t"; "x"; "z"]) as ->
    by by vm_compute.
  destruct fuel as [|fuel]; [by eexists|].
  destruct (self_dependent_target_recursion (S fuel) (PState {["t"]} [])) as [s' Hrun].
  { simpl. by intros ?%elem_of_singleton. }
  { simpl. by apply elem_of_singleton. }
  exists s'. simpl. erewrite bind_eval_ok.
  2:{ assert (_apply_resource self_dependent_target (S fuel) "t" (PState ∅ []) =
                (PState {["t"]} [], Ok tt)) as Heq; [|exact Heq].
      simpl. unfold bind at 1. unfold is_applied at 1.
      rewrite bool_decide_eq_false_2; [|apply not_elem_of_empty].
      replace (_is_changed self_dependent_target "t") with false by by vm_compute.
      reflexivity. }
  apply bind_eval_raise. exact Hrun.
Qed.

(** * The properties of the specification *)

(** ** Scenario: a changed tool *)

(** C1, as stated by the specification, does not hold: whatever the depth
    bound, the full plan for the changed [toolA] used by [userB] is not
    [Delete(userB), Delete(toolA), Create(toolA), Create(userB)]. *)
Lemma changed_tool_user_not_replanned :
  ¬ ∃ fuel, completes (plan fuel changed_tool None)
              [Delete "userB"; Delete "toolA"; Create "toolA"; Create "userB"].
Proof.
  intros [fuel H]. unfold completes in H.
  destruct (decide (3 ≤ fuel)%nat) as [Hle|Hlt].
  - rewrite (plan_fuel_le changed_tool 3 fuel None Hle) in H; by vm_compute in *.
  - destruct fuel as [|[|[|fuel]]]; [by vm_compute in H..|lia].
Qed.

(** C1 (amended): for current = target = { toolA, userB(tools=[toolA]) } and
    changed = {toolA}, a full plan yields exactly [Delete(toolA),
    Create(toolA)]: the resource that uses the changed tool is resolved, found
    present and unchanged, and left alone. *)
Theorem changed_tool_plan fuel :
  (3 ≤ fuel)%nat →
  completes (plan fuel changed_tool None) [Delete "toolA"; Create "toolA"].
Proof.
  intros Hle. unfold completes.
  rewrite (plan_fuel_le changed_tool 3 fuel None Hle); by vm_compute.
Qed.

Lemma changed_tool_plan_witness :
  (3 ≤ 1000)%nat ∧
  completes (plan 1000 changed_tool None) [Delete "toolA"; Create "toolA"].
Proof.
  assert (3 ≤ 1000)%nat as Hle by lia.
  split; [exact Hle | exact (changed_tool_plan 1000 Hle)].
Defined.

(** ** Order of the operations *)

(** C2: when [plan] succeeds, for a name that is marked as changed and is in
    both collections, a [Delete(name)] in the output is at a strictly earlier
    position than a [Create(name)]. *)
Theorem deletion_precedes_recreation self specifiers fuel out n i j :
  completes (plan fuel self specifiers) out →
  n ∈ _changed self →
  dict_in n (_state self) = true → dict_in n (_target self) = true →
  out !! i = Some (Delete n) → out !! j = Some (Create n) → i < j.
Proof.
  intros Hout _ Hstate _ Hi Hj.
  pose proof (yielded_deletes_first self fuel specifiers out n Hout Hstate) as Hbefore.
  destruct (always_before_lookup _ _ _ _ Hbefore Hj) as (i' & Hlt & Hi').
  assert (NoDup out) as Hnd.
  { apply plan_completes in Hout as (s & _ & _ & ->). apply yield_unvisited_NoDup. }
  by rewrite (NoDup_lookup _ _ _ _ Hnd Hi Hi').
Qed.

Lemma deletion_precedes_recreation_witness :
  completes (plan 1000 changed_tool None) [Delete "toolA"; Create "toolA"] ∧
  "toolA" ∈ _changed changed_tool ∧
  dict_in "toolA" (_state changed_tool) = true ∧
  dict_in "toolA" (_target changed_tool) = true ∧
  0 < 1.
Proof.
  assert (completes (plan 1000 changed_tool None) [Delete "toolA"; Create "toolA"])
    as Hout by (vm_compute; reflexivity).
  assert ("toolA" ∈ _changed changed_tool) as Hch
    by (apply (bool_decide_unpack _); vm_compute; exact I).
  repeat split; try assumption; try reflexivity.
  exact (deletion_precedes_recreation changed_tool None 1000 _ "toolA" 0 1
           Hout Hch eq_refl eq_refl eq_refl eq_refl).
Defined.

(** C3: when [plan] succeeds, for a name of the target collection, if
    [Delete(name)] is in the output then [Create(name)] is too, at a later
    position. *)
Theorem target_coverage self specifiers fuel out n :
  completes (plan fuel self specifiers) out →
  dict_in n (_target self) = true →
  Delete n ∈ out →
  occurs_before (Delete n) (Create n) out.
Proof.
  intros Hout Htarget Hdel.
  apply always_before_occurs.
  - eapply yielded_deletes_first; [done|]. by eapply yielded_Delete.
  - apply plan_completes in Hout as (s & _ & _ & ->).
    apply yield_unvisited_elem in Hdel as [Hdel _].
    apply yield_unvisited_elem. split; [|apply not_elem_of_empty].
    apply backfill_Create; [by apply dict_in_keys|]. by apply backfill_Delete in Hdel.
Qed.

Lemma target_coverage_witness :
  completes (plan 1000 (_build_apply_planner TEST_RESOURCES_1 [] [] ["km-config"]
                          false false) None)
    ["-pes"; "-km"; "-km-config"; "+km-config"; "+km"; "+pes"] ∧
  occurs_before (Delete "pes") (Create "pes")
    ["-pes"; "-km"; "-km-config"; "+km-config"; "+km"; "+pes"].
Proof.
  assert (completes (plan 1000 (_build_apply_planner TEST_RESOURCES_1 [] [] ["km-config"]
                          false false) None)
            ["-pes"; "-km"; "-km-config"; "+km-config"; "+km"; "+pes"])
    as Hout by (vm_compute; reflexivity).
  split; [exact Hout|].
  apply (target_coverage _ None 1000 _ "pes" Hout); [reflexivity|].
  apply (bool_decide_unpack _). vm_compute. exact I.
Defined.

(** C4: when [plan] succeeds, if [B] is a current resource that lists [A]
    among its deps and [Delete(A)] is in the output, then [Delete(B)] is in
    the output too, at or before the position of [Delete(A)]. *)
Theorem dependents_deleted_first self specifiers fuel out A B rB :
  constructed self →
  completes (plan fuel self specifiers) out →
  dict_get (_state self) B = Some rB → A ∈ deps rB →
  Delete A ∈ out →
  ∃ i j, out !! i = Some (Delete B) ∧ out !! j = Some (Delete A) ∧ (i ≤ j)%nat.
Proof.
  intros Hself Hout HB HA Hdel.
  destruct (always_before_occurs (Delete B) (Delete A) out) as (i & j & Hi & Hj & Hlt).
  - by eapply yielded_dependents_first.
  - done.
  - exists i, j. repeat split; [done..|lia].
Qed.

Lemma dependents_deleted_first_witness :
  ∃ i j,
    ["-pes"; "-pes-spool"; "-km"; "-km-config"] !! i = Some (Delete "km") ∧
    ["-pes"; "-pes-spool"; "-km"; "-km-config"] !! j = Some (Delete "km-config") ∧
    (i ≤ j)%nat.
Proof.
  apply (dependents_deleted_first
           (_build_apply_planner TEST_RESOURCES_1 [] [] [] false true) None 1000 _
           "km-config" "km" {| name := "km"; deps := ["km-config"]; tools := [] |}).
  - split; reflexivity.
  - vm_compute. reflexivity.
  - vm_compute. reflexivity.
  - apply (bool_decide_unpack _). vm_compute. exact I.
  - apply (bool_decide_unpack _). vm_compute. exact I.
Defined.

(** C5: the planner breaks "tools precede their users on create" on an
    input without any cycle.  With [a] and its tool user [u] current and
    marked as changed, and in the target [u] depending on the new [B1], which
    uses the new tool [A1], which depends on [a], the plan succeeds and creates
    [B1] before its tool [A1]: [A1] is marked in [_applied] before its
    creation is appended, and the resolution of [B1], reached from the
    deletion of [a], finds it there.  The order [Delete(u)], [Delete(a)],
    [Create(a)], [Create(A1)], [Create(B1)], [Create(u)] would respect every
    tool. *)
Theorem tool_created_after_its_user :
  completes (plan 1000 tool_created_late None)
    [Delete "u"; Create "B1"; Create "u"; Delete "a"; Create "a"; Create "A1"] ∧
  ¬ cyclic (_state tool_created_late ++ _target tool_created_late) ∧
  ¬ tools_precede_users tool_created_late
      [Delete "u"; Create "B1"; Create "u"; Delete "a"; Create "a"; Create "A1"] ∧
  tools_precede_users tool_created_late
    [Delete "u"; Delete "a"; Create "a"; Create "A1"; Create "B1"; Create "u"].
Proof.
  split; [by vm_compute|]. split; [|split].
  - intros Hcyc.
    assert (_validate_acyclic
              (__init__ (_state tool_created_late ++ _target tool_created_late) [] ∅)
            = Raise ValueError) as Hv.
    { apply validate_cyclic; [split; reflexivity | exact Hcyc]. }
    vm_compute in Hv. discriminate Hv.
  - intros Hspec.
    destruct (Hspec "B1" "A1" {| name := "B1"; deps := []; tools := ["A1"] |})
      as (i & j & Hi & Hj & Hlt).
    + by vm_compute.
    + by left.
    + apply (bool_decide_unpack _). by vm_compute.
    + apply (bool_decide_unpack _). by vm_compute.
    + intros Hin. apply (bool_decide_pack _) in Hin. by vm_compute in Hin.
    + intros Hin. apply (bool_decide_pack _) in Hin. by vm_compute in Hin.
    + destruct i as [|[|[|[|[|[|i]]]]]]; try by vm_compute in Hi.
      do 6 (destruct j as [|j]; [first [lia | by vm_compute in Hj]|]).
      by vm_compute in Hj.
  - intros R T r HR HT HcT HcR HdT HdR.
    assert (R = "a" ∨ R = "A1" ∨ R = "B1" ∨ R = "u") as HRs.
    { apply elem_of_cons in HcR as [HcR|HcR]; [by apply Create_ne_Delete in HcR|].
      apply elem_of_cons in HcR as [HcR|HcR]; [by apply Create_ne_Delete in HcR|].
      apply elem_of_cons in HcR as [HcR|HcR]; [left; by apply Create_inj|].
      apply elem_of_cons in HcR as [HcR|HcR]; [right; left; by apply Create_inj|].
      apply elem_of_cons in HcR as [HcR|HcR]; [right; right; left; by apply Create_inj|].
      apply elem_of_cons in HcR as [HcR|HcR]; [right; right; right; by apply Create_inj|].
      by apply elem_of_nil in HcR. }
    destruct HRs as [-> | [-> | [-> | ->]]];
      vm_compute in HR; injection HR as <-; cbn [tools] in HT.
    + by apply elem_of_nil in HT.
    + by apply elem_of_nil in HT.
    + apply list_elem_of_singleton in HT as ->.
      exists 3, 4. repeat split. lia.
    + apply list_elem_of_singleton in HT as ->.
      destruct HdT. apply (bool_decide_unpack _). by vm_compute.
Qed.

(** With a cycle among the new resources of the target, where [b] uses the
    tool [a] and [a] depends on [b], the plan succeeds as well and creates
    [b] before its tool: only the current collection is checked for
    cycles. *)
Example user_created_before_its_tool :
  completes (plan 1000 tool_depends_on_user None) [Create "b"; Create "a"] ∧
  ¬ tools_precede_users tool_depends_on_user [Create "b"; Create "a"].
Proof.
  split; [by vm_compute|]. intros Hspec.
  destruct (Hspec "b" "a" {| name := "b"; deps := []; tools := ["a"] |})
    as (i & j & Hi & Hj & Hlt).
  - by vm_compute.
  - by left.
  - by right; left.
  - by left.
  - intros Hin. apply (bool_decide_pack _) in Hin. by vm_compute in Hin.
  - intros Hin. apply (bool_decide_pack _) in Hin. by vm_compute in Hin.
  - destruct i as [|[|i]]; [by vm_compute in Hi| |by vm_compute in Hi].
    destruct j as [|[|j]]; [lia..|by vm_compute in Hj].
Qed.

(** X20: when [plan] succeeds, if the target definition of [R] lists the
    tool [T], both [Create(T)] and [Create(R)] are in the output and neither
    [Delete(T)] nor [Delete(R)] is, then [Create(T)] comes before [Create(R)],
    provided no chain of links followed by the planner leads from [T] back to
    [R]. *)
Theorem tools_created_first self specifiers fuel out R T r :
  constructed self →
  completes (plan fuel self specifiers) out →
  dict_get (_target self) R = Some r → T ∈ tools r →
  Create T ∈ out → Create R ∈ out → Delete T ∉ out → Delete R ∉ out →
  ¬ tc (follows self) T R →
  occurs_before (Create T) (Create R) out.
Proof.
  intros Hself Hout HR HT HcT HcR HdT HdR Hnot.
  assert (∀ n, Create n ∈ out → Delete n ∉ out → dict_in n (_state self) = false)
    as Hfresh.
  { intros n Hc Hd. destruct (dict_in n (_state self)) eqn:Hn; [|done]. destruct Hd.
    destruct (always_before_occurs (Delete n) (Create n) out) as (i & _ & Hi & _); [|done|].
    - by eapply yielded_deletes_first.
    - apply list_elem_of_lookup. eauto. }
  apply always_before_occurs; [|done].
  apply plan_completes in Hout as (s & _ & Hrun & ->).
  apply yield_unvisited_always_before; [|by intros ?%not_elem_of_empty].
  apply backfill_always_before.
  - eapply resolved_tools_first; eauto.
  - intros m ->%Create_inj Hm. destruct HdR.
    apply yield_unvisited_elem. split; [|apply not_elem_of_empty].
    by apply backfill_Delete.
Qed.

Lemma tools_created_first_witness :
  completes (plan 1000 new_tool_and_user None) [Create "a"; Create "b"] ∧
  ¬ tc (follows new_tool_and_user) "a" "b" ∧
  occurs_before (Create "a") (Create "b") [Create "a"; Create "b"].
Proof.
  assert (completes (plan 1000 new_tool_and_user None) [Create "a"; Create "b"])
    as Hout by (vm_compute; reflexivity).
  assert (¬ tc (follows new_tool_and_user) "a" "b") as Hnot.
  { assert (∀ y, ¬ follows new_tool_and_user "a" y) as Hnone.
    { intros y [(r & [= <-] & [Hy|Hy])|[(r & [=] & _)|(r & Hin & _)]].
      - inversion Hy.
      - inversion Hy.
      - inversion Hin. }
    intros Htc. inversion Htc as [? ? Hf|? y ? Hf _]; exact (Hnone _ Hf). }
  split; [exact Hout|]. split; [exact Hnot|].
  apply (tools_created_first new_tool_and_user None 1000 _ "b" "a"
           {| name := "b"; deps := []; tools := ["a"] |}).
  - split; reflexivity.
  - exact Hout.
  - reflexivity.
  - apply (bool_decide_unpack _). vm_compute. exact I.
  - apply (bool_decide_unpack _). vm_compute. exact I.
  - apply (bool_decide_unpack _). vm_compute. exact I.
  - intros Hin. apply (bool_decide_pack _) in Hin. vm_compute in Hin. exact Hin.
  - intros Hin. apply (bool_decide_pack _) in Hin. vm_compute in Hin. exact Hin.
  - exact Hnot.
Defined.

(** ** Failures *)

(** C6: if the deps and tools of the current collection contain a directed
    cycle, [plan] raises [ValueError] before it yields any operation; so it
    does when a current [X] depends on a current [Y] that depends on [X]. *)
Theorem cycle_rejected self specifiers fuel :
  constructed self →
  (cyclic (_state self) → aborts (plan fuel self specifiers) ValueError) ∧
  (∀ X Y rX rY,
     (X, rX) ∈ _state self → (Y, rY) ∈ _state self →
     Y ∈ deps rX → X ∈ deps rY →
     aborts (plan fuel self specifiers) ValueError).
Proof.
  intros Hself. split; [by apply plan_cyclic|].
  intros X Y rX rY HX HY HXY HYX. apply plan_cyclic; [done|].
  exists X. apply (tc_l _ _ Y); [|apply tc_once].
  - exists rX. auto.
  - exists rY. auto.
Qed.

Lemma cycle_rejected_witness :
  aborts (plan 1000 (__init__ mutual_deps mutual_deps ∅) None) ValueError.
Proof.
  refine (proj2 (cycle_rejected (__init__ mutual_deps mutual_deps ∅) None 1000 _)
            "x" "y" {| name := "x"; deps := ["y"]; tools := [] |}
            {| name := "y"; deps := ["x"]; tools := [] |} _ _ _ _).
  - split; reflexivity.
  - apply (bool_decide_unpack _). vm_compute. exact I.
  - apply (bool_decide_unpack _). vm_compute. exact I.
  - apply (bool_decide_unpack _). vm_compute. exact I.
  - apply (bool_decide_unpack _). vm_compute. exact I.
Defined.

Lemma plan_final_applied fuel self specifiers s :
  _validate_acyclic self = Ok tt →
  for_each (working_set self specifiers) (_apply_resource self fuel)
    (PState ∅ []) = (s, Ok tt) →
  _applied (plan fuel self specifiers).2 = applied s.
Proof.
  intros Hv Hrun. unfold plan, plan_body.
  unfold bind at 1. unfold lift at 1. rewrite Hv.
  unfold bind at 1. unfold applied_clear at 1. simpl.
  by erewrite bind_eval_ok.
Qed.

(** C9: for a name that is marked as changed and is in the target but not in
    the current collection, resolving it goes to the deletion path, whose
    assertion fails: nothing is appended to the plan and [AssertionError]
    is raised, so the [plan] for that name aborts with it instead of
    creating the resource.  Equivalently, a [plan] completes only if no such
    name is resolved: every changed target name in its final [_applied] is a
    current resource, and such a name is not in its working set. *)
Theorem changed_but_absent_aborts self specifiers fuel n :
  n ∈ _changed self →
  dict_in n (_target self) = true → dict_in n (_state self) = false →
  (∀ k s, n ∉ applied s →
     _apply_resource self (S (S k)) n s = (st_add n s, Raise AssertionError)) ∧
  (_validate_acyclic self = Ok tt →
   aborts (plan (S (S fuel)) self (Some [n])) AssertionError) ∧
  (∀ out, completes (plan fuel self specifiers) out →
     (n ∉ _applied (plan fuel self specifiers).2) ∧
     (n ∉ working_set self specifiers)).
Proof.
  intros Hch Ht Hs. split; [|split].
  - intros k s. by apply resolve_changed_but_absent.
  - intros Hv. apply plan_aborts. right. split; [done|].
    exists (st_add n (PState ∅ [])).
    change (working_set self (Some [n])) with [n]. cbn [for_each].
    apply bind_eval_raise. by apply resolve_changed_but_absent.
  - intros out Hout. pose proof Hout as (s & Hv & Hrun & _)%plan_completes.
    split.
    + rewrite (plan_final_applied _ _ _ _ Hv Hrun).
      eapply for_each_ok in Hrun; [|by intros x a b _ Hx; apply Hx].
      assert (n ∉ applied (PState ∅ [])) as Hs0 by apply not_elem_of_empty.
      revert Hs0.
      eapply (steps_invariant _ (λ s, n ∉ applied s)); [|exact Hrun].
      intros x a b _ Hx Ha.
      by apply (planner_never_resolves self n Hch Ht Hs) in Hx as [_ ?].
    + intros Hin. by eapply (resolving_never_returns self n) in Hrun.
Qed.

Lemma changed_but_absent_aborts_witness :
  "a" ∈ _changed changed_but_new ∧
  dict_in "a" (_target changed_but_new) = true ∧
  dict_in "a" (_state changed_but_new) = false ∧
  aborts (plan 2 changed_but_new (Some ["a"])) AssertionError.
Proof.
  assert ("a" ∈ _changed changed_but_new) as Hch
    by (apply (bool_decide_unpack _); vm_compute; exact I).
  split; [exact Hch|]. split; [reflexivity|]. split; [reflexivity|].
  refine (proj1 (proj2 (changed_but_absent_aborts changed_but_new None 0 "a" Hch
                          eq_refl eq_refl)) _).
  reflexivity.
Defined.

(** When specifiers are given and such a name is not reached from them, it
    is not resolved and the plan succeeds. *)
Example changed_but_new_not_resolved :
  "a" ∈ _changed changed_but_new ∧
  dict_in "a" (_target changed_but_new) = true ∧
  dict_in "a" (_state changed_but_new) = false ∧
  completes (plan 1000 changed_but_new (Some ["b"])) [Create "b"].
Proof.
  split; [apply (bool_decide_unpack _); by vm_compute|]. by vm_compute.
Qed.

(** A full plan on that input raises [AssertionError]. *)
Example changed_but_new_full_plan :
  aborts (plan 1000 changed_but_new None) AssertionError.
Proof. vm_compute. reflexivity. Qed.

(** ** The output as a whole *)

(** C7: when [plan] succeeds, no operation occurs twice in its output:
    neither a [Create(name)] nor a [Delete(name)]. *)
Theorem no_duplicate_operations self specifiers fuel out :
  completes (plan fuel self specifiers) out →
  NoDup out ∧
  (∀ n i j, out !! i = Some (Create n) → out !! j = Some (Create n) → i = j) ∧
  (∀ n i j, out !! i = Some (Delete n) → out !! j = Some (Delete n) → i = j).
Proof.
  intros (s & _ & _ & ->)%plan_completes.
  pose proof (yield_unvisited_NoDup ∅ (backfill self (ops s))) as Hnd.
  split; [done|]. split; intros n i j; by apply NoDup_lookup.
Qed.

Lemma no_duplicate_operations_witness :
  NoDup ["-pes"; "-pes-spool"; "+pes-spool"; "-km"; "-km-config"; "+km-config";
         "+km"; "+pes"].
Proof.
  refine (proj1 (no_duplicate_operations
                   (_build_apply_planner TEST_RESOURCES_1 [] []
                      (map name TEST_RESOURCES_1) false false) None 1000 _ _)).
  vm_compute. reflexivity.
Defined.

(** C8: two successive calls of [plan] on the same planner, with the same
    specifiers, yield the same sequence (and end the same way). *)
Theorem plan_deterministic self specifiers fuel :
  (plan fuel (plan fuel self specifiers).2 specifiers).1 = (plan fuel self specifiers).1.
Proof.
  destruct (plan_returns_planner fuel self specifiers) as [a ->].
  apply plan_with_applied.
Qed.


(** * Further properties of the planner *)

(** ** What a plan contains *)

Section warranted.
Variable self : ApplyPlanner.

Lemma warranted_nil : warranted self [].
Proof. by intros op ?%elem_of_nil. Qed.

Lemma warranted_snoc l op n :
  warranted self l →
  (op = Create n ∧ dict_in n (_target self) = true) ∨
  (op = Delete n ∧ dict_in n (_state self) = true) →
  warranted self (l ++ [op]).
Proof.
  intros Hl Hop op' [?|Heq%list_elem_of_singleton]%elem_of_app; [by apply Hl|].
  subst. by exists n.
Qed.

Lemma planner_warranted fuel :
  (∀ n s s', _apply_resource self fuel n s = (s', Ok tt) →
     warranted self (ops s) → warranted self (ops s')) ∧
  (∀ n s s', _plan_create self fuel n s = (s', Ok tt) →
     warranted self (ops s) → dict_in n (_target self) = true →
     warranted self (ops s')) ∧
  (∀ n s s', _plan_delete self fuel n s = (s', Ok tt) →
     warranted self (ops s) → warranted self (ops s')).
Proof.
  apply (planner_ind self (apply_post self) (create_post self) (delete_post self));
    [apply planner_basic|..].
  - done.
  - intros n s s' _ _ HD _. exact HD.
  - intros n s s1 s' _ Ht _ HD _ HC _ Hs. apply HC; [by apply HD | done].
  - intros n s s' _ Ht _ _ HC _ Hs. by apply HC.
  - done.
  - intros n r s s1 s2 _ Ht Hd Hs Hn. simpl.
    apply (warranted_snoc _ _ n); [|by left].
    eapply (steps_invariant _ (λ s, warranted self (ops s))); [|exact Hd|].
    { by intros ? ? ? _ [H _]. }
    eapply (steps_invariant _ (λ s, warranted self (ops s))); [|exact Ht|done].
    by intros ? ? ? _ [H _].
  - intros n current users dependees s s1 s2 s3 Hcur _ _ Hu Hd Ht Hs. simpl.
    apply (warranted_snoc _ _ n); [|right; split; [done | by apply dict_in_true]].
    eapply (steps_invariant _ (λ s, warranted self (ops s))); [|exact Ht|].
    { by intros ? ? ? _ [H _]. }
    eapply (steps_invariant _ (λ s, warranted self (ops s))); [|exact Hd|].
    { by intros ? ? ? _ [H _]. }
    eapply (steps_invariant _ (λ s, warranted self (ops s))); [|exact Hu|done].
    by intros ? ? ? _ [H _].
Qed.

Lemma backfill_warranted l : warranted self l → warranted self (backfill self l).
Proof.
  unfold backfill.
  assert (∀ ks, (∀ k, k ∈ ks → dict_in k (_target self) = true) →
            ∀ l, warranted self l → warranted self (foldl backfill_step l ks)) as Hgen.
  { induction ks as [|k ks IH]; intros Hks l' Hl'; simpl; [done|].
    apply IH; [intros; apply Hks; by right|].
    destruct (backfill_step_spec l' k) as [->|(-> & _ & _)]; [done|].
    apply (warranted_snoc _ _ k); [done|]. left. split; [done|]. apply Hks. left. }
  apply Hgen. intros k. by rewrite dict_in_keys.
Qed.
End warranted.

(** X1: when [plan] succeeds, every operation it yields is the creation of
    a resource of the target collection or the deletion of a resource of the
    current collection. *)
Theorem plan_operations_warranted self specifiers fuel out op :
  completes (plan fuel self specifiers) out →
  op ∈ out →
  ∃ n, (op = Create n ∧ dict_in n (_target self) = true) ∨
       (op = Delete n ∧ dict_in n (_state self) = true).
Proof.
  intros (s & _ & Hrun & ->)%plan_completes [Hop _]%yield_unvisited_elem.
  revert op Hop. apply backfill_warranted.
  eapply (for_each_invariant _ (λ s, warranted self (ops s))); [|exact Hrun|].
  - intros x a b _. apply planner_warranted.
  - apply warranted_nil.
Qed.

Lemma plan_operations_warranted_witness :
  ∃ n, ("-km" = Create n ∧
        dict_in n (_target (_build_apply_planner TEST_RESOURCES_1 [] [] ["km-config"]
                              false false)) = true) ∨
       ("-km" = Delete n ∧
        dict_in n (_state (_build_apply_planner TEST_RESOURCES_1 [] [] ["km-config"]
                             false false)) = true).
Proof.
  apply (plan_operations_warranted _ None 1000
           ["-pes"; "-km"; "-km-config"; "+km-config"; "+km"; "+pes"]).
  - vm_compute. reflexivity.
  - apply (bool_decide_unpack _). vm_compute. exact I.
Defined.

(** X2: when [plan] succeeds, a creation of a current resource, whether it
    is marked as changed or not, comes after its deletion. *)
Theorem creation_follows_deletion self specifiers fuel out n :
  completes (plan fuel self specifiers) out →
  dict_in n (_state self) = true →
  Create n ∈ out →
  occurs_before (Delete n) (Create n) out.
Proof.
  intros Hout Hn Hc. apply always_before_occurs; [|done].
  by eapply yielded_deletes_first.
Qed.

Lemma creation_follows_deletion_witness :
  occurs_before (Delete "pes") (Create "pes")
    ["-pes"; "-km"; "-km-config"; "+km-config"; "+km"; "+pes"].
Proof.
  apply (creation_follows_deletion
           (_build_apply_planner TEST_RESOURCES_1 [] [] ["km-config"] false false)
           None 1000).
  - vm_compute. reflexivity.
  - reflexivity.
  - apply (bool_decide_unpack _). vm_compute. exact I.
Defined.

(** ** How a plan fails *)

(** X3: [plan] raises [ValueError] exactly when the deps and tools of the
    current collection have a cycle; any other failure is a failed assertion
    or the depth bound: the lookups in the dictionaries and the graphs never
    raise. *)
Theorem plan_failure_modes self specifiers fuel :
  constructed self →
  (aborts (plan fuel self specifiers) ValueError ↔ cyclic (_state self)) ∧
  (∀ e, aborts (plan fuel self specifiers) e →
     e = ValueError ∨ e = AssertionError ∨ e = RecursionError).
Proof.
  intros Hself.
  assert (∀ e, aborts (plan fuel self specifiers) e → ¬ cyclic (_state self) →
            e = AssertionError ∨ e = RecursionError) as Hother.
  { intros e [He|[_ [s Hrun]]]%plan_aborts Hacyc.
    - rewrite validate_acyclic_ok in He; done.
    - apply for_each_raise in Hrun as (x & a & _ & Hx).
      by apply (planner_raises self Hself) in Hx. }
  split; [split|].
  - intros He. destruct (decide (has_cycle (compose (_delete_deps_graph self)
                                              (_tools_deps_graph self)) = true)) as [Hc|Hc].
    + destruct Hself as [Hd Ht].
      apply has_cycle_iff in Hc as [v Hv]; [|apply graph_wf_compose].
      exists v. eapply (tc_congruence id); [|exact Hv].
      intros x y [Hxy|Hxy]%edges_compose.
      * rewrite Hd in Hxy. apply edges_delete_deps_graph in Hxy as (r & ? & ?).
        exists r. auto.
      * rewrite Ht in Hxy. apply edges_tools_deps_graph in Hxy as (r & ? & ?).
        exists r. auto.
    + apply plan_aborts in He as [He|[_ [s Hrun]]].
      * unfold _validate_acyclic in He. by destruct (has_cycle _).
      * apply for_each_raise in Hrun as (x & a & _ & Hx).
        by apply (planner_raises self Hself) in Hx as [?|?].
  - by apply plan_cyclic.
  - intros e He. destruct (decide (e = ValueError)) as [|Hne]; [by left | right].
    apply Hother; [done|]. intros Hcyc.
    pose proof (plan_cyclic fuel self specifiers Hself Hcyc) as He'.
    unfold aborts in *. congruence.
Qed.

Lemma plan_failure_modes_witness :
  (aborts (plan 1000 (__init__ mutual_deps mutual_deps ∅) None) ValueError ↔
   cyclic mutual_deps) ∧
  (∀ e, aborts (plan 1000 (__init__ mutual_deps mutual_deps ∅) None) e →
     e = ValueError ∨ e = AssertionError ∨ e = RecursionError).
Proof.
  apply (plan_failure_modes (__init__ mutual_deps mutual_deps ∅) None 1000).
  split; reflexivity.
Defined.

(** ** The depth bound *)

(** X4: a plan that does not hit the bound on the depth of the recursion is
    the plan under any larger bound: same outcome, same final [_applied]. *)
Theorem plan_independent_of_bound self specifiers fuel fuel' :
  (fuel ≤ fuel')%nat →
  raised (plan fuel self specifiers).1 ≠ Some RecursionError →
  plan fuel' self specifiers = plan fuel self specifiers.
Proof. apply plan_fuel_le. Qed.

Lemma plan_independent_of_bound_witness :
  plan 1000 changed_tool None = plan 3 changed_tool None.
Proof.
  apply (plan_independent_of_bound changed_tool None 3 1000).
  - apply (bool_decide_unpack _). vm_compute. exact I.
  - vm_compute. discriminate.
Defined.

(** ** A plan settles every name of its working set *)

Section settled.
Variable self : ApplyPlanner.

Lemma settled_grows n s s' :
  grows self s s' → settled self n (ops s) → settled self n (ops s').
Proof.
  intros Hg (H1 & H2 & H3). repeat split.
  - intros. eapply grows_elem; eauto.
  - eapply grows_elem; [done|]. by apply H2.
  - eapply grows_elem; [done|]. by apply H2.
  - intros. eapply grows_elem; eauto.
Qed.

Lemma resolved_settled_grows Pend s s' :
  grows self s s' → applied s' ⊆ applied s →
  resolved_settled self Pend s → resolved_settled self Pend s'.
Proof.
  intros Hg Hsub Hs n Hn. destruct (Hs n) as [?|?]; [by apply Hsub | by left|].
  right. by eapply settled_grows.
Qed.

(** Resolving [n]: it is pending while the call runs, settled afterwards. *)
Lemma resolved_settled_add Pend n s :
  resolved_settled self Pend s →
  resolved_settled self (λ m, Pend m ∨ m = n) (st_add n s).
Proof.
  intros Hs m [->%elem_of_singleton|Hm]%elem_of_union; [by left; right|].
  destruct (Hs m Hm); [by left; left | by right].
Qed.

Lemma resolved_settled_done Pend n s :
  settled self n (ops s) →
  resolved_settled self (λ m, Pend m ∨ m = n) s → resolved_settled self Pend s.
Proof.
  intros Hn Hs m Hm. destruct (Hs m Hm) as [[?| ->]|?]; auto.
Qed.

Lemma planner_settled fuel :
  (∀ n s s', _apply_resource self fuel n s = (s', Ok tt) →
     ∀ Pend, resolved_settled self Pend s →
       resolved_settled self Pend s' ∧ (Pend n ∨ settled self n (ops s'))) ∧
  (∀ n s s', _plan_create self fuel n s = (s', Ok tt) →
     ∀ Pend, resolved_settled self Pend s → resolved_settled self Pend s') ∧
  (∀ n s s', _plan_delete self fuel n s = (s', Ok tt) →
     ∀ Pend, resolved_settled self Pend s → resolved_settled self Pend s').
Proof.
  apply (planner_ind self (apply_post self) (create_post self) (delete_post self));
    [apply planner_basic|..].
  - intros n s Hn Pend Hs. split; [done | by apply Hs].
  - intros n s s' _ Ht HD (_ & Hdel & _) Pend Hs.
    assert (settled self n (ops s')) as Hn.
    { repeat split; intros; congruence. }
    split; [|by right]. apply (resolved_settled_done _ n); [done|].
    by apply HD, resolved_settled_add.
  - intros n s s1 s' _ Ht Hch HD (_ & Hdel & _) HC (Hg & Hcre) Pend Hs.
    assert (settled self n (ops s')) as Hn.
    { repeat split; intros; try congruence; try done. by eapply grows_elem. }
    split; [|by right]. apply (resolved_settled_done _ n); [done|].
    by apply HC, HD, resolved_settled_add.
  - intros n s s' _ Ht Hch Hst HC (_ & Hcre) Pend Hs.
    assert (settled self n (ops s')) as Hn.
    { repeat split; intros; try congruence; done. }
    split; [|by right]. apply (resolved_settled_done _ n); [done|].
    by apply HC, resolved_settled_add.
  - intros n s _ Ht Hch Hst Pend Hs.
    assert (settled self n (ops (st_add n s))) as Hn.
    { repeat split; intros; try congruence; done. }
    split; [|by right]. apply (resolved_settled_done _ n); [done|].
    by apply resolved_settled_add.
  - intros n r s s1 s2 _ Ht Hd Pend Hs.
    apply (resolved_settled_grows _ s2); [apply grows_append | done|].
    eapply (steps_invariant _ (resolved_settled self Pend)); [|exact Hd|].
    { intros ? ? ? _ [H _] ?. by apply H. }
    eapply (steps_invariant _ (resolved_settled self Pend)); [|exact Ht|done].
    intros ? ? ? _ [H _] ?. by apply H.
  - intros n current users dependees s s1 s2 s3 Hcur _ _ Hu Hd Ht Pend Hs.
    assert (dict_in n (_state self) = true) as Hn by (by apply dict_in_true).
    apply (resolved_settled_grows _ s3); [apply grows_append | done|].
    eapply (steps_invariant _ (resolved_settled self Pend)); [|exact Ht|].
    { intros ? a ? _ [H _] Ha. apply H.
      apply (resolved_settled_grows _ a); [by apply grows_discard| |done].
      simpl. apply subseteq_difference_l. done. }
    eapply (steps_invariant _ (resolved_settled self Pend)); [|exact Hd|].
    { intros ? ? ? _ [H _] ?. by apply H. }
    eapply (steps_invariant _ (resolved_settled self Pend)); [|exact Hu|done].
    intros ? ? ? _ [H _] ?. by apply H.
Qed.

Lemma resolved_all_settled fuel l s s' :
  for_each l (_apply_resource self fuel) s = (s', Ok tt) →
  resolved_settled self (λ _, False) s →
  resolved_settled self (λ _, False) s' ∧ ∀ n, n ∈ l → settled self n (ops s').
Proof.
  revert s. induction l as [|x l IH]; intros s Hrun Hs.
  { injection Hrun as <-. split; [done | by intros ? ?%elem_of_nil]. }
  simpl in Hrun. apply bind_ok in Hrun as (s1 & [] & Hx & Hl).
  destruct (planner_settled fuel) as (HA & _ & _).
  destruct (HA _ _ _ Hx _ Hs) as [Hs1 [[]|Hx1]].
  destruct (IH _ Hl Hs1) as [Hs' Hall]. split; [done|].
  intros n [->|Hn]%elem_of_cons; [|by apply Hall].
  eapply settled_grows; [|exact Hx1].
  eapply (steps_grows self (λ x a b, _apply_resource self fuel x a = (b, Ok tt)));
    [|by eapply for_each_ok].
  intros y a b _ Hy. by apply (planner_basic self fuel) in Hy as [? _].
Qed.
End settled.

(** X5: when [plan] succeeds, its output settles every name of the working
    set (every name of both collections, when no specifier is given): it
    deletes the name if it is not in the target, deletes and creates it if it
    is marked as changed, and creates it if it is new. *)
Theorem plan_settles_working_set self specifiers fuel out n :
  completes (plan fuel self specifiers) out →
  n ∈ working_set self specifiers →
  settled self n out.
Proof.
  intros (s & _ & Hrun & ->)%plan_completes Hn.
  apply resolved_all_settled in Hrun as [_ Hall]; [|by intros ? ?%not_elem_of_empty].
  assert (∀ op, op ∈ ops s → op ∈ yield_unvisited ∅ (backfill self (ops s))) as Hin.
  { intros op Hop. apply yield_unvisited_elem. split; [|apply not_elem_of_empty].
    destruct (backfill_prefix self (ops s)) as [k ->]. apply elem_of_app. by left. }
  destruct (Hall n Hn) as (H1 & H2 & H3). repeat split; intros.
  - by apply Hin, H1.
  - by apply Hin, H2.
  - by apply Hin, H2.
  - by apply Hin, H3.
Qed.

Lemma plan_settles_working_set_witness :
  settled (_build_apply_planner TEST_RESOURCES_1 [] [] ["km-config"] false false)
    "km-config" ["-pes"; "-km"; "-km-config"; "+km-config"; "+km"; "+pes"].
Proof.
  apply (plan_settles_working_set _ None 1000).
  - vm_compute. reflexivity.
  - apply (bool_decide_unpack _). vm_compute. exact I.
Defined.

(** ** Nothing to do *)

Lemma foldl_backfill_nil ks : foldl backfill_step [] ks = [].
Proof. induction ks as [|k ks IH]; simpl; [done|]. exact IH. Qed.

(** X6: if the current collection has no cycle and every name of the working
    set is in both collections and not marked as changed, [plan] yields
    nothing. *)
Theorem plan_nothing_to_do self specifiers fuel :
  constructed self → ¬ cyclic (_state self) →
  (∀ n, n ∈ working_set self specifiers →
     dict_in n (_target self) = true ∧ dict_in n (_state self) = true ∧
     n ∉ _changed self) →
  completes (plan (S fuel) self specifiers) [].
Proof.
  intros Hself Hacyc Hkept. apply plan_completes.
  assert (∀ l s, (∀ n, n ∈ l → n ∈ working_set self specifiers) →
            ∃ s', for_each l (_apply_resource self (S fuel)) s = (s', Ok tt) ∧
                  ops s' = ops s) as Hloop.
  { induction l as [|x l IH]; intros s Hl; [by exists s|].
    destruct (Hkept x) as (Ht & Hs & Hch); [apply Hl; left|].
    assert (∃ s1, _apply_resource self (S fuel) x s = (s1, Ok tt) ∧ ops s1 = ops s)
      as (s1 & Hx & Hops).
    { simpl. unfold bind at 1. unfold is_applied at 1.
      case_bool_decide as Hseen; [by exists s|].
      unfold bind at 1. unfold applied_add at 1. rewrite Ht. simpl.
      unfold _is_changed. rewrite (bool_decide_eq_false_2 _ Hch), Hs. simpl.
      by eexists. }
    destruct (IH s1) as (s' & Hl' & Hops'); [intros; apply Hl; by right|].
    exists s'. split; [|congruence].
    simpl. by rewrite (bind_eval_ok _ _ _ _ _ Hx). }
  destruct (Hloop (working_set self specifiers) (PState ∅ [])) as (s' & Hrun & Hops);
    [done|].
  exists s'. split; [by apply validate_acyclic_ok|]. split; [done|].
  rewrite Hops. simpl. unfold backfill. by rewrite foldl_backfill_nil.
Qed.

Lemma plan_nothing_to_do_witness :
  completes (plan 1 (_build_apply_planner TEST_RESOURCES_1 [] [] [] false false) None) [].
Proof.
  apply (plan_nothing_to_do (_build_apply_planner TEST_RESOURCES_1 [] [] [] false false)
           None 0).
  - split; reflexivity.
  - intros Hcyc.
    assert (_validate_acyclic (_build_apply_planner TEST_RESOURCES_1 [] [] [] false false)
            = Raise ValueError) as Hv.
    { apply validate_cyclic; [split; reflexivity | exact Hcyc]. }
    vm_compute in Hv. discriminate Hv.
  - intros n Hn.
    assert (n ∈ ["km"; "km-config"; "pes"; "pes-spool"]) as Hn'.
    { assert (working_set (_build_apply_planner TEST_RESOURCES_1 [] [] [] false false) None
              = ["km"; "km-config"; "pes"; "pes-spool"]) as <- by (vm_compute; reflexivity).
      exact Hn. }
    apply elem_of_cons in Hn' as [->|Hn']; [vm_compute; repeat split; intros Hx; discriminate Hx|].
    apply elem_of_cons in Hn' as [->|Hn']; [vm_compute; repeat split; intros Hx; discriminate Hx|].
    apply elem_of_cons in Hn' as [->|Hn']; [vm_compute; repeat split; intros Hx; discriminate Hx|].
    apply elem_of_cons in Hn' as [->|Hn']; [vm_compute; repeat split; intros Hx; discriminate Hx|].
    apply elem_of_nil in Hn'. destruct Hn'.
Defined.

(** ** When no assertion fails *)

Section no_assertion.
Variable self : ApplyPlanner.
Hypothesis Hself : constructed self.
Hypothesis Hrefs : references_known self.
Hypothesis Hchanged : changed_exist self.

Lemma tool_users_current n users x :
  tool_users self n = Some users → x ∈ users → dict_in x (_state self) = true.
Proof.
  unfold tool_users. destruct (has_node _ n); [|by intros [= <-] ?%elem_of_nil].
  intros Hpred Hx. apply (predecessors_elem _ _ _ _ Hpred) in Hx.
  destruct Hself as [_ Ht]. rewrite Ht in Hx.
  apply edges_tools_deps_graph in Hx as (r & ? & ?). by eapply elem_of_dict.
Qed.

Lemma dependees_current n dependees x :
  predecessors (_delete_deps_graph self) n = Some dependees →
  x ∈ dependees → dict_in x (_state self) = true.
Proof.
  intros Hpred Hx. apply (predecessors_elem _ _ _ _ Hpred) in Hx.
  destruct Hself as [Hd _]. rewrite Hd in Hx.
  apply edges_delete_deps_graph in Hx as (r & ? & ?). by eapply elem_of_dict.
Qed.

Lemma planner_no_assertion fuel :
  (∀ n s s' e, known self n →
     _apply_resource self fuel n s = (s', Raise e) → e ≠ AssertionError) ∧
  (∀ n s s' e, known self n →
     _plan_create self fuel n s = (s', Raise e) → e ≠ AssertionError) ∧
  (∀ n s s' e, dict_in n (_state self) = true →
     _plan_delete self fuel n s = (s', Raise e) → e ≠ AssertionError).
Proof.
  induction fuel as [|fuel (IHA & IHC & IHD)].
  { repeat split; intros n s s' e _ [= _ <-]; done. }
  split; [|split]; intros n s s' e Hn Hrun; simpl in Hrun.
  - apply bind_raise in Hrun as [[=]|(s1 & seen & [= <- <-] & Hrun)].
    case_bool_decide as Hseen; [done|].
    apply bind_raise in Hrun as [[=]|(s1 & [] & _ & Hrun)].
    destruct (dict_in n (_target self)) eqn:Ht; simpl in Hrun.
    2:{ eapply IHD; [|done]. destruct Hn; [congruence | done]. }
    unfold _is_changed in Hrun. case_bool_decide as Hch.
    { apply bind_raise in Hrun as [?|(? & [] & _ & ?)]; [|by eapply IHC].
      eapply IHD; [|done]. by apply Hchanged. }
    destruct (dict_in n (_state self)); simpl in Hrun; [done | by eapply IHC].
  - apply bind_raise in Hrun as [Hrun|(s1 & [] & [Hin ->]%assert_ok & Hrun)].
    { unfold assert in Hrun. destruct Hn as [Hn|Hn]; rewrite Hn in Hrun;
        [done | by rewrite orb_true_r in Hrun]. }
    apply bind_raise in Hrun as [Hrun|(s1 & r & Hr & Hrun)].
    { destruct (dict_get (_target self) n) as [r|] eqn:Ht; [done|].
      unfold dict_getitem in Hrun. destruct (dict_get (_state self) n); [done|].
      by injection Hrun as _ <-. }
    assert (resource_of self n = Some r) as Hres.
    { unfold resource_of. destruct (dict_get (_target self) n).
      - by injection Hr as <- <-.
      - by apply dict_getitem_ok in Hr as [? _]. }
    assert (∀ x, x ∈ deps r ∨ x ∈ tools r → known self x) as Hknown.
    { intros x Hx. apply (Hrefs n r); [|done]. unfold resource_of in Hres.
      destruct (dict_get (_target self) n); [left | right]; done. }
    apply bind_raise in Hrun as [Hrun|(s2 & [] & _ & Hrun)].
    { apply for_each_raise in Hrun as (y & a & Hy & Hrun). eapply IHA; [|done]. auto. }
    apply bind_raise in Hrun as [Hrun|(s3 & [] & _ & Hrun)]; [|done].
    apply for_each_raise in Hrun as (y & a & Hy & Hrun). eapply IHA; [|done]. auto.
  - apply bind_raise in Hrun as [Hrun|(s0 & [] & [Hin ->]%assert_ok & Hrun)].
    { unfold assert in Hrun. by rewrite Hn in Hrun. }
    apply bind_raise in Hrun as [Hrun|(s1 & [] & _ & Hrun)].
    { pose proof (tool_users_current n) as Husers. unfold tool_users in Husers.
      destruct (has_node (_tools_deps_graph self) n); [|done].
      apply bind_raise in Hrun as [Hrun|(? & users & [Hp ->]%graph_predecessors_ok & Hrun)].
      { unfold graph_predecessors in Hrun. destruct (predecessors _ n); [done|].
        by injection Hrun as _ <-. }
      apply for_each_raise in Hrun as (y & a & Hy & Hrun).
      eapply IHA; [|done]. right. by eapply Husers. }
    apply bind_raise in Hrun as [Hrun|(s2 & [] & _ & Hrun)].
    { apply bind_raise in Hrun as [Hrun|(? & dependees & [Hp ->]%graph_predecessors_ok & Hrun)].
      { unfold graph_predecessors in Hrun. destruct (predecessors _ n); [done|].
        by injection Hrun as _ <-. }
      apply for_each_raise in Hrun as (y & a & Hy & Hrun).
      eapply IHD; [|done]. by eapply dependees_current. }
    apply bind_raise in Hrun as [Hrun|(s3 & [] & _ & [=])].
    apply bind_raise in Hrun as [Hrun|(? & current & [Hcur ->]%dict_getitem_ok & Hrun)].
    { unfold dict_getitem in Hrun. destruct (dict_get (_state self) n); [done|].
      by injection Hrun as _ <-. }
    apply for_each_raise in Hrun as (y & a & Hy & Hrun).
    apply bind_raise in Hrun as [[=]|(a' & [] & _ & Hrun)].
    eapply IHA; [|done]. apply (Hrefs n current); auto.
Qed.
End no_assertion.

(** X7: if every dep and tool that is listed is a resource of one of the
    collections, every changed target resource is a current one, and the
    specifiers are resources too, then no assertion of the planner fails:
    [plan] succeeds, or raises [ValueError] for a cycle, or hits the depth
    bound. *)
Theorem plan_no_assertion self specifiers fuel :
  constructed self → references_known self → changed_exist self →
  (∀ n, n ∈ working_set self specifiers → known self n) →
  ¬ aborts (plan fuel self specifiers) AssertionError.
Proof.
  intros Hself Hrefs Hch Hspec [He|[_ [s Hrun]]]%plan_aborts.
  - unfold _validate_acyclic in He. by destruct (has_cycle _).
  - apply for_each_raise in Hrun as (x & a & Hx & Hrun).
    by eapply (planner_no_assertion self Hself Hrefs Hch) in Hrun; [|apply Hspec].
Qed.

Lemma plan_no_assertion_witness :
  ¬ aborts (plan 1000 new_tool_and_user None) AssertionError.
Proof.
  apply (plan_no_assertion new_tool_and_user None 1000).
  - split; reflexivity.
  - intros k r x [Hk|Hk] Hx; [|discriminate Hk].
    simpl in Hk. destruct (bool_decide ("a" = k)).
    { injection Hk as <-. simpl in Hx. destruct Hx as [Hx|Hx]; inversion Hx. }
    destruct (bool_decide ("b" = k)); [|discriminate Hk].
    injection Hk as <-. simpl in Hx. destruct Hx as [Hx|Hx]; [inversion Hx|].
    apply list_elem_of_singleton in Hx. subst x. left. reflexivity.
  - intros n Hn. apply not_elem_of_empty in Hn. destruct Hn.
  - intros n Hn. left.
    assert (n ∈ ["a"; "b"]) as Hn'.
    { assert (working_set new_tool_and_user None = ["a"; "b"]) as <-
        by (vm_compute; reflexivity). exact Hn. }
    apply elem_of_cons in Hn' as [->|Hn']; [reflexivity|].
    apply list_elem_of_singleton in Hn' as ->. reflexivity.
Defined.

(** ** A changed resource that depends on itself *)

Section self_dependent.
Variable self : ApplyPlanner.
Variable x : string.
Variable r : TR.
Hypothesis Hchanged : x ∈ _changed self.
Hypothesis Htarget : dict_get (_target self) x = Some r.
Hypothesis Hself_ref : x ∈ tools r ∨ x ∈ deps r.
Hypothesis Htools : ∀ current, dict_get (_state self) x = Some current → tools current ≠ [].

(** A loop of calls none of which resolves [x] does not go through [x]. *)
Lemma steps_avoid (P : string → pstate → pstate → Prop) l s s' :
  (∀ n a b, n ∈ l → P n a b → x ∉ applied a → n ≠ x ∧ x ∉ applied b) →
  steps P l s s' → x ∉ applied s → (x ∉ l) ∧ (x ∉ applied s').
Proof.
  intros HP Hs. induction Hs as [|n l s s1 s' Hn Hl IH]; intros Hx.
  { split; [by intros ?%elem_of_nil | done]. }
  destruct (HP n s s1) as [Hne Hx1]; [left | done..|].
  destruct IH as [Hnl Hx']; [intros; eapply HP; [by right | done..] | done|].
  split; [|done]. by intros [?|?]%elem_of_cons.
Qed.

(** The loop over the tools of [x] in [_plan_delete] un-marks [x] before
    each call; it leaves [x] unmarked. *)
Lemma steps_unmark (P : string → pstate → pstate → Prop) l s s' :
  (∀ n a b, n ∈ l → P n a b → x ∉ applied b) →
  steps P l s s' → l ≠ [] → x ∉ applied s'.
Proof.
  intros HP Hs. induction Hs as [|n l s s1 s' Hn Hl IH]; intros Hne; [done|].
  destruct l as [|m l].
  - inversion Hl; subst. eapply HP; [left | done].
  - apply IH; [|done]. intros. eapply HP; [by right | done].
Qed.

(** A call that returns has not resolved [x]; deleting [x] leaves it
    unmarked. *)
Lemma planner_self_dependent fuel :
  (∀ n s s', _apply_resource self fuel n s = (s', Ok tt) →
     x ∉ applied s → n ≠ x ∧ x ∉ applied s') ∧
  (∀ n s s', _plan_create self fuel n s = (s', Ok tt) →
     x ∉ applied s → n ≠ x ∧ x ∉ applied s') ∧
  (∀ n s s', _plan_delete self fuel n s = (s', Ok tt) →
     x ∉ applied s ∨ n = x → x ∉ applied s').
Proof.
  assert (dict_in x (_target self) = true) as Hin.
  { apply dict_in_true. by eexists. }
  assert (∀ n s, n ≠ x → x ∉ applied s → x ∉ applied (st_add n s)) as Hadd.
  { intros n s Hne Hs. simpl. rewrite not_elem_of_union, elem_of_singleton. auto. }
  apply (planner_ind self (apply_post self) (create_post self) (delete_post self));
    [apply planner_basic|..].
  - intros n s Hn Hs. split; [by intros -> | done].
  - intros n s s' _ Ht HD _ Hs.
    assert (n ≠ x) by congruence. split; [done|]. apply HD. left. auto.
  - intros n s s1 s' _ _ _ HD _ HC _ Hs.
    destruct (decide (n = x)) as [->|Hne].
    + destruct (HC (HD (or_intror eq_refl))) as [[] _]. done.
    + split; [done|]. apply HC, HD. left. auto.
  - intros n s s' _ _ Hch _ HC _ Hs.
    assert (n ≠ x) by (by intros ->). split; [done|]. apply HC. auto.
  - intros n s _ _ Hch _ Hs.
    assert (n ≠ x) by (by intros ->). auto.
  - intros n res s s1 s2 Hres Ht Hd Hs. simpl.
    destruct (steps_avoid (λ y a b, (x ∉ applied a → y ≠ x ∧ x ∉ applied b) ∧
                                    apply_post self y a b) (tools res) s s1)
      as [Hxt Hs1]; [by intros ? ? ? _ [H _] | done..|].
    destruct (steps_avoid (λ y a b, (x ∉ applied a → y ≠ x ∧ x ∉ applied b) ∧
                                    apply_post self y a b) (deps res) s1 s2)
      as [Hxd Hs2]; [by intros ? ? ? _ [H _] | done..|].
    split; [|done]. intros ->.
    unfold resource_of in Hres. rewrite Htarget in Hres. injection Hres as <-.
    by destruct Hself_ref.
  - intros n current users dependees s s1 s2 s3 Hcur _ _ Hu Hd Ht Hs. simpl.
    destruct (decide (n = x)) as [->|Hne].
    + eapply (steps_unmark _ (tools current)); [|exact Ht|by apply Htools].
      intros y a b _ [H _]. apply H. simpl.
      intros [_ []]%elem_of_difference. by apply elem_of_singleton.
    + destruct Hs as [Hs|?]; [|done].
      eapply (steps_invariant _ (λ s, x ∉ applied s)); [|exact Ht|].
      { intros y a b _ [H _] Ha. apply H. simpl. by intros [? _]%elem_of_difference. }
      eapply (steps_invariant _ (λ s, x ∉ applied s)); [|exact Hd|].
      { intros y a b _ [H _] Ha. apply H. by left. }
      eapply (steps_invariant _ (λ s, x ∉ applied s)); [|exact Hu|done].
      intros y a b _ [H _] Ha. by apply H.
Qed.

Lemma self_dependent_never_returns fuel l s s' :
  x ∈ l → x ∉ applied s →
  for_each l (_apply_resource self fuel) s ≠ (s', Ok tt).
Proof.
  intros Hl Hs Hrun.
  eapply for_each_ok in Hrun; [|by intros y a b _ Hy; apply Hy].
  destruct (steps_avoid _ _ _ _ (λ n a b _ Hn, proj1 (planner_self_dependent fuel) n a b Hn)
              Hrun Hs) as [Hnot _].
  done.
Qed.
End self_dependent.

(** X8: if a resource that is marked as changed lists itself among the deps
    or tools of its target definition, and its current definition has tools,
    then no [plan] whose working set contains it succeeds, whatever the bound
    on the depth of the recursion: the deletion un-marks the resource and the
    creation resolves it again.  Where no assertion can fail and the current
    collection has no cycle, [plan] hits the bound. *)
Theorem self_dependent_never_planned self specifiers fuel x r :
  x ∈ _changed self →
  dict_get (_target self) x = Some r →
  x ∈ tools r ∨ x ∈ deps r →
  (∀ current, dict_get (_state self) x = Some current → tools current ≠ []) →
  x ∈ working_set self specifiers →
  (∃ e, aborts (plan fuel self specifiers) e) ∧
  (constructed self → references_known self → changed_exist self →
   (∀ n, n ∈ working_set self specifiers → known self n) →
   ¬ cyclic (_state self) →
   aborts (plan fuel self specifiers) RecursionError).
Proof.
  intros Hch Ht Href Htools Hx.
  assert (∃ e, aborts (plan fuel self specifiers) e) as [e He].
  { destruct (completes_or_aborts fuel self specifiers) as [[out Hout]|?]; [|done].
    apply plan_completes in Hout as (s & _ & Hrun & _).
    by eapply (self_dependent_never_returns self x r) in Hrun. }
  split; [by exists e|].
  intros Hself Hrefs Hexist Hknown Hacyc.
  enough (e = RecursionError) as <- by done.
  apply plan_aborts in He as [He|[_ [s Hrun]]].
  { rewrite validate_acyclic_ok in He; done. }
  apply for_each_raise in Hrun as (y & a & Hy & Hrun).
  pose proof Hrun as Hrun'.
  apply (planner_raises self Hself) in Hrun as [-> | ->]; [|done].
  by eapply (planner_no_assertion self Hself Hrefs Hexist) in Hrun'; [|apply Hknown].
Qed.

Lemma self_dependent_never_planned_witness :
  ∃ e, aborts (plan 1000 self_dependent_target (Some ["x"])) e.
Proof.
  refine (proj1 (self_dependent_never_planned self_dependent_target (Some ["x"]) 1000 "x"
                   {| name := "x"; deps := ["x"]; tools := ["t"] |} _ _ _ _ _)).
  - apply (bool_decide_unpack _). vm_compute. exact I.
  - reflexivity.
  - right. left.
  - intros current Hcur. injection Hcur as <-. discriminate.
  - apply (bool_decide_unpack _). vm_compute. exact I.
Defined.

(** ** New deps are created before the new resources that list them *)

Section deps_first.
Variable self : ApplyPlanner.
Hypothesis Hself : constructed self.

Lemma steps_deps_inv {A} (P : A → pstate → pstate → Prop) (f : A → string)
    Pend l s s' :
  (∀ x a b, x ∈ l → P x a b →
     (∀ p, Pend p → rtc (follows self) p (f x)) →
     deps_inv self Pend a → deps_inv self Pend b) →
  (∀ x p, x ∈ l → Pend p → rtc (follows self) p (f x)) →
  steps P l s s' → deps_inv self Pend s → deps_inv self Pend s'.
Proof.
  intros HP Hreach. apply steps_invariant.
  intros x a b Hx Hab. apply (HP x); [done..|]. intros p. by apply Hreach.
Qed.

Lemma planner_deps_first fuel :
  (∀ n s s', _apply_resource self fuel n s = (s', Ok tt) →
     ∀ Pend, (∀ p, Pend p → rtc (follows self) p n) →
       deps_inv self Pend s → deps_inv self Pend s') ∧
  (∀ n s s', _plan_create self fuel n s = (s', Ok tt) →
     ∀ Pend, (∀ p, Pend p → rtc (follows self) p n) →
       deps_inv self Pend s → deps_inv self (λ p, Pend p ∧ p ≠ n) s') ∧
  (∀ n s s', _plan_delete self fuel n s = (s', Ok tt) →
     ∀ Pend, (∀ p, Pend p → rtc (follows self) p n) →
       deps_inv self Pend s → deps_inv self Pend s').
Proof.
  apply (planner_ind self (apply_post self) (create_post self) (delete_post self));
    [apply planner_basic|..].
  - done.
  - intros n s s' _ _ HD (_ & _ & Hn) Pend Hreach [Hcp Hdf].
    apply HD; [done|]. split; [by apply created_or_pending_add | done].
  - intros n s s1 s' _ _ _ HD (_ & _ & Hn) HC _ Pend Hreach [Hcp Hdf].
    destruct (HC Pend Hreach) as [Hcp' Hdf'].
    { apply HD; [done|]. split; [by apply created_or_pending_add | done]. }
    split; [|done]. eapply created_or_pending_mono; [|exact Hcp']. by intros ? [? _].
  - intros n s s' _ _ _ Hfresh HC _ Pend Hreach [Hcp Hdf].
    destruct (HC (λ p, Pend p ∨ p = n)) as [Hcp' Hdf'].
    + intros p [?| ->]; [auto | done].
    + split; [|done].
      intros x Hx [->%elem_of_singleton|Hin]%elem_of_union; [by right; right|].
      destruct (Hcp x Hx Hin); auto.
    + split; [|done]. eapply created_or_pending_mono; [|exact Hcp'].
      by intros ? [[?|?] ?].
  - intros n s _ _ _ Hn Pend _ [Hcp Hdf].
    split; [by apply created_or_pending_add | done].
  - intros n r s s1 s2 Hres Ht Hd Pend Hreach Hs.
    assert (∀ x, x ∈ tools r ∨ x ∈ deps r → follows self n x) as Hfol.
    { intros x Hx. left. by exists r. }
    assert (deps_inv self Pend s1) as Hs1.
    { eapply (steps_deps_inv _ id); [| |exact Ht|exact Hs].
      - intros x a b _ [H _]. apply H.
      - intros x p Hx Hp. eapply rtc_r; [by apply Hreach | auto]. }
    assert (deps_inv self Pend s2) as [Hcp Hdf].
    { eapply (steps_deps_inv _ id); [| |exact Hd|exact Hs1].
      - intros x a b _ [H _]. apply H.
      - intros x p Hx Hp. eapply rtc_r; [by apply Hreach | auto]. }
    split.
    + intros x Hx Hin. destruct (Hcp x Hx Hin) as [?|Hp].
      * left. simpl. apply elem_of_app. by left.
      * destruct (decide (x = n)) as [->|]; [left | by right].
        simpl. apply elem_of_app. right. left.
    + intros R D r' HR HD HRf HDf Hnot. simpl.
      apply always_before_snoc; [by apply (Hdf R D r')|].
      destruct (decide (n = R)) as [->|]; [right | left; by intros ?%Create_inj].
      assert (r' = r) as ->.
      { unfold resource_of in Hres. rewrite HR in Hres. congruence. }
      assert (D ∈ applied s2) as Hin.
      { eapply (steps_each self _ (λ x s, dict_in x (_state self) = false → x ∈ applied s));
          [| |exact Hd|done..].
        - intros x a b _ [_ [Hg Hx]]. done.
        - intros x a b Hx [_ Hg] Hf. auto. }
      destruct (Hcp D HDf Hin) as [?|Hp]; [done|]. destruct Hnot.
      apply Hreach, rtc_tc in Hp as [->|?]; [|done].
      apply tc_once. left. eauto.
  - intros n current users dependees s s1 s2 s3 Hcur Husers Hpred Hu Hd Ht Pend Hreach Hs.
    assert (deps_inv self Pend s1) as Hs1.
    { eapply (steps_deps_inv _ id); [| |exact Hu|exact Hs].
      - intros x a b _ [H _]. apply H.
      - intros x p Hx Hp. eapply rtc_r; [by apply Hreach|].
        by eapply follows_tool_users. }
    assert (deps_inv self Pend s2) as Hs2.
    { eapply (steps_deps_inv _ id); [| |exact Hd|exact Hs1].
      - intros x a b _ [H _]. apply H.
      - intros x p Hx Hp. eapply rtc_r; [by apply Hreach|].
        by eapply follows_dependees. }
    assert (deps_inv self Pend s3) as [Hcp Hdf].
    { eapply (steps_deps_inv _ id); [| |exact Ht|exact Hs2].
      - intros x a b _ [H _] Hr [Hcp Hdf]. apply H; [done|].
        split; [by apply created_or_pending_discard | done].
      - intros x p Hx Hp. eapply rtc_r; [by apply Hreach|].
        right. left. eauto. }
    split; [by apply created_or_pending_append|].
    intros R D r' HR HD HRf HDf Hnot. simpl.
    apply always_before_snoc; [by apply (Hdf R D r')|].
    left. intros Heq. symmetry in Heq. by apply Create_ne_Delete in Heq.
Qed.

Lemma resolved_deps_first fuel l s :
  for_each l (_apply_resource self fuel) (PState ∅ []) = (s, Ok tt) →
  deps_first self (ops s).
Proof.
  intros Hrun.
  enough (deps_inv self (λ _, False) s) as [_ ?] by done.
  eapply (for_each_invariant _ (deps_inv self (λ _, False))); [|exact Hrun|].
  - intros x a b _ Hx. destruct (planner_deps_first fuel) as (HA & _ & _).
    by apply (HA x).
  - split.
    + by intros x _ ?%not_elem_of_empty.
    + intros R D r _ _ _ _ _. apply always_before_nil.
Qed.
End deps_first.

(** X9: when [plan] succeeds, if the target definition of [R] lists the dep
    [D], both [Create(D)] and [Create(R)] are in the output and neither
    [Delete(D)] nor [Delete(R)] is, then [Create(D)] comes before [Create(R)],
    provided no chain of links followed by the planner leads from [D] back to
    [R]. *)
Theorem deps_created_first self specifiers fuel out R D r :
  constructed self →
  completes (plan fuel self specifiers) out →
  dict_get (_target self) R = Some r → D ∈ deps r →
  Create D ∈ out → Create R ∈ out → Delete D ∉ out → Delete R ∉ out →
  ¬ tc (follows self) D R →
  occurs_before (Create D) (Create R) out.
Proof.
  intros Hself Hout HR HD HcD HcR HdD HdR Hnot.
  assert (∀ n, Create n ∈ out → Delete n ∉ out → dict_in n (_state self) = false)
    as Hfresh.
  { intros n Hc Hd. destruct (dict_in n (_state self)) eqn:Hn; [|done]. destruct Hd.
    destruct (always_before_occurs (Delete n) (Create n) out) as (i & _ & Hi & _); [|done|].
    - by eapply yielded_deletes_first.
    - apply list_elem_of_lookup. eauto. }
  apply always_before_occurs; [|done].
  apply plan_completes in Hout as (s & _ & Hrun & ->).
  apply yield_unvisited_always_before; [|by intros ?%not_elem_of_empty].
  apply backfill_always_before.
  - eapply resolved_deps_first; eauto.
  - intros m ->%Create_inj Hm. destruct HdR.
    apply yield_unvisited_elem. split; [|apply not_elem_of_empty].
    by apply backfill_Delete.
Qed.

Lemma deps_created_first_witness :
  occurs_before (Create "A") (Create "B") [Create "A"; Create "B"].
Proof.
  apply (deps_created_first
           (__init__ [] [resource "A" [] []; resource "B" ["A"] []] ∅) None 1000 _ "B" "A"
           {| name := "B"; deps := ["A"]; tools := [] |}).
  - split; reflexivity.
  - vm_compute. reflexivity.
  - reflexivity.
  - apply (bool_decide_unpack _). vm_compute. exact I.
  - apply (bool_decide_unpack _). vm_compute. exact I.
  - apply (bool_decide_unpack _). vm_compute. exact I.
  - intros Hin. apply (bool_decide_pack _) in Hin. vm_compute in Hin. exact Hin.
  - intros Hin. apply (bool_decide_pack _) in Hin. vm_compute in Hin. exact Hin.
  - assert (∀ y, ¬ follows (__init__ [] [resource "A" [] []; resource "B" ["A"] []] ∅)
                     "A" y) as Hnone.
    { intros y [(r & [= <-] & [Hy|Hy])|[(r & [=] & _)|(r & Hin & _)]].
      - inversion Hy.
      - inversion Hy.
      - inversion Hin. }
    intros Htc. inversion Htc as [? ? Hf|? y ? Hf _]; exact (Hnone _ Hf).
Defined.

(** ** Why an unchanged resource is deleted *)

Section deletions_caused.
Variable self : ApplyPlanner.
Hypothesis Hself : constructed self.

Lemma deletions_caused_mono (P Q : string → Prop) l :
  (∀ x, P x → Q x) → deletions_caused self P l → deletions_caused self Q l.
Proof.
  intros HPQ Hl n Hn Hk. destruct (Hl n Hn Hk) as (A & HA & [?|?]); eauto.
Qed.

Lemma deletions_caused_Create Pend l n :
  deletions_caused self Pend l → deletions_caused self Pend (l ++ [Create n]).
Proof.
  intros Hl m [Hm|Hm%list_elem_of_singleton]%elem_of_app Hk.
  - destruct (Hl m Hm Hk) as (A & HA & [?|?]); exists A; (split; [done|]);
      [left; apply elem_of_app; by left | by right].
  - symmetry in Hm. by apply Create_ne_Delete in Hm.
Qed.

Lemma planner_deletions_caused fuel :
  (∀ n s s', _apply_resource self fuel n s = (s', Ok tt) →
     ∀ Pend, deletions_caused self Pend (ops s) → deletions_caused self Pend (ops s')) ∧
  (∀ n s s', _plan_create self fuel n s = (s', Ok tt) →
     ∀ Pend, deletions_caused self Pend (ops s) → deletions_caused self Pend (ops s')) ∧
  (∀ n s s', _plan_delete self fuel n s = (s', Ok tt) →
     ∀ Pend, deletions_caused self Pend (ops s) →
       (kept self n → ∃ A, depends_on self n A ∧ Pend A) →
       deletions_caused self Pend (ops s')).
Proof.
  apply (planner_ind self (apply_post self) (create_post self) (delete_post self));
    [apply planner_basic|..].
  - done.
  - intros n s s' _ Ht HD _ Pend Hs. apply HD; [done|]. intros [? _]. congruence.
  - intros n s s1 s' _ _ Hch HD _ HC _ Pend Hs. apply HC, HD; [done|]. by intros [_ ?].
  - intros n s s' _ _ _ _ HC _ Pend Hs. by apply HC.
  - done.
  - intros n r s s1 s2 _ Ht Hd Pend Hs. simpl. apply deletions_caused_Create.
    eapply (steps_invariant _ (λ s, deletions_caused self Pend (ops s))); [|exact Hd|].
    { intros ? ? ? _ [H _]. apply H. }
    eapply (steps_invariant _ (λ s, deletions_caused self Pend (ops s))); [|exact Ht|done].
    intros ? ? ? _ [H _]. apply H.
  - intros n current users dependees s s1 s2 s3 Hcur _ Hpred Hu Hd Ht Pend Hs Hjust.
    assert (deletions_caused self (λ m, Pend m ∨ m = n) (ops s3)) as Hs3.
    { eapply (steps_invariant _ (λ s, deletions_caused self (λ m, Pend m ∨ m = n) (ops s)));
        [|exact Ht|].
      { intros ? ? ? _ [H _]. apply H. }
      eapply (steps_invariant _ (λ s, deletions_caused self (λ m, Pend m ∨ m = n) (ops s)));
        [|exact Hd|].
      { intros d a b Hd' [H _] Ha. apply H; [done|]. intros _. exists n. split; [|by right].
        apply (predecessors_elem _ _ _ _ Hpred) in Hd'.
        destruct Hself as [Hdg _]. rewrite Hdg in Hd'.
        by apply edges_delete_deps_graph in Hd'. }
      eapply (steps_invariant _ (λ s, deletions_caused self (λ m, Pend m ∨ m = n) (ops s)));
        [|exact Hu|].
      { intros ? ? ? _ [H _]. apply H. }
      eapply deletions_caused_mono; [|exact Hs]. auto. }
    simpl. intros m [Hm|Hm%list_elem_of_singleton]%elem_of_app Hk.
    + destruct (Hs3 m Hm Hk) as (A & HA & [?|[?|HAn]]); exists A; (split; [done|]).
      * left. apply elem_of_app. by left.
      * by right.
      * left. apply elem_of_app. right. rewrite HAn. left.
    + apply Delete_inj in Hm as ->. destruct (Hjust Hk) as (A & HA & HP).
      exists A. split; [done | by right].
Qed.
End deletions_caused.

(** X10: when [plan] succeeds, a resource of the target collection that is
    not marked as changed is deleted only if one of its current deps is
    deleted too. *)
Theorem unchanged_deleted_with_dep self specifiers fuel out n :
  constructed self →
  completes (plan fuel self specifiers) out →
  dict_in n (_target self) = true → n ∉ _changed self →
  Delete n ∈ out →
  ∃ A r, (n, r) ∈ _state self ∧ A ∈ deps r ∧ Delete A ∈ out.
Proof.
  intros Hself (s & _ & Hrun & ->)%plan_completes Ht Hch [Hn _]%yield_unvisited_elem.
  apply backfill_Delete in Hn.
  assert (deletions_caused self (λ _, False) (ops s)) as Hs.
  { eapply (for_each_invariant _ (λ s, deletions_caused self (λ _, False) (ops s)));
      [|exact Hrun|].
    - intros x a b _ Hx. destruct (planner_deletions_caused self Hself fuel) as (HA & _ & _).
      by apply (HA x).
    - by intros m ?%elem_of_nil. }
  destruct (Hs n Hn) as (A & (r & Hr & HA) & [Hdel|[]]); [done|].
  exists A, r. repeat split; [done..|].
  apply yield_unvisited_elem. split; [|apply not_elem_of_empty].
  by apply backfill_Delete.
Qed.

Lemma unchanged_deleted_with_dep_witness :
  ∃ A r, (("km", r) ∈ _state (_build_apply_planner TEST_RESOURCES_1 [] [] ["km-config"]
                                false false)) ∧
         A ∈ deps r ∧
         Delete A ∈ ["-pes"; "-km"; "-km-config"; "+km-config"; "+km"; "+pes"].
Proof.
  apply (unchanged_deleted_with_dep
           (_build_apply_planner TEST_RESOURCES_1 [] [] ["km-config"] false false)
           None 1000).
  - split; reflexivity.
  - vm_compute. reflexivity.
  - reflexivity.
  - intros Hin. apply (bool_decide_pack _) in Hin. vm_compute in Hin. exact Hin.
  - apply (bool_decide_unpack _). vm_compute. exact I.
Defined.

(** ** The graphs built from the current collection *)

Lemma nodes_add_edges_from_iff x es g :
  x ∈ nodes (add_edges_from es g) ↔
  x ∈ nodes g ∨ ∃ e, e ∈ es ∧ (x = e.1 ∨ x = e.2).
Proof.
  unfold add_edges_from. revert g.
  induction es as [|e es IH]; intros g; simpl.
  - split; [by left | by intros [?|(? & ?%elem_of_nil & _)]].
  - rewrite IH, nodes_add_edge. split.
    + intros [[?|[?|?]]|(e' & ? & ?)]; [right; exists e; split; [left | auto]..| by left|].
      right. exists e'. split; [by right | done].
    + intros [?|(e' & [->|?]%elem_of_cons & He')]; [by left; right; right|..].
      * left. destruct He'; auto.
      * right. by exists e'.
Qed.

(** X11: the consumer graph has an edge from [u] to [v] exactly when a
    current resource [u] lists [v] among its deps; its nodes are the current
    resources and the deps they list. *)
Theorem delete_deps_graph_spec state :
  (∀ u v, edge (_generate_delete_deps_graph state) u v ↔
          ∃ r, (u, r) ∈ state ∧ v ∈ deps r) ∧
  (∀ n, n ∈ nodes (_generate_delete_deps_graph state) ↔
        n ∈ dict_keys state ∨ ∃ u r, (u, r) ∈ state ∧ n ∈ deps r).
Proof.
  split; [intros u v; apply edges_delete_deps_graph|].
  intros n. unfold _generate_delete_deps_graph, dict_keys.
  assert (∀ g, n ∈ nodes (foldl (λ g kv,
              add_edges_from (map (λ d, (kv.1, d)) (deps kv.2)) (add_node kv.1 g)) g state)
            ↔ n ∈ nodes g ∨ n ∈ state.*1 ∨ ∃ u r, (u, r) ∈ state ∧ n ∈ deps r) as Hgen.
  { induction state as [|[k r] state IH]; intros g; simpl.
    - split; [by left|]. intros [?|[?%elem_of_nil|(? & ? & ?%elem_of_nil & _)]]; done.
    - rewrite IH, nodes_add_edges_from_iff, nodes_add_node, elem_of_cons. split.
      + intros [[[->|?]|(e & He & Hn)]|[?|(u & r' & ? & ?)]]; auto.
        * apply list_elem_of_fmap in He as (d & -> & Hd). simpl in Hn.
          destruct Hn as [->| ->]; [auto|].
          right. right. exists k, r. split; [left | done].
        * right. right. exists u, r'. split; [by right | done].
      + intros [?|[[->|?]|(u & r' & [[= -> ->]|?]%elem_of_cons & Hn)]]; auto.
        * left. right. exists (k, n). split; [|by right].
          apply list_elem_of_fmap. by exists n.
        * right. right. by exists u, r'. }
  rewrite Hgen. simpl. rewrite elem_of_nil. tauto.
Qed.

Lemma nodes_tools_deps_graph state n :
  n ∈ nodes (_generate_tools_deps_graph state) ↔
  ∃ u r, (u, r) ∈ state ∧ (n ∈ tools r ∨ (n = u ∧ tools r ≠ [])).
Proof.
  unfold _generate_tools_deps_graph.
  assert (∀ g, n ∈ nodes (foldl (λ g kv,
              add_edges_from (map (λ d, (kv.1, d)) (tools kv.2)) g) g state)
            ↔ n ∈ nodes g ∨
              ∃ u r, (u, r) ∈ state ∧ (n ∈ tools r ∨ (n = u ∧ tools r ≠ []))) as Hgen.
  { induction state as [|[k r] state IH]; intros g; simpl.
    - split; [by left|]. intros [?|(? & ? & ?%elem_of_nil & _)]; done.
    - rewrite IH, nodes_add_edges_from_iff. split.
      + intros [[?|(e & He & Hn)]|(u & r' & ? & ?)]; auto.
        * apply list_elem_of_fmap in He as (d & -> & Hd). simpl in Hn.
          right. exists k, r. split; [left|].
          destruct Hn as [->| ->]; [right | by left].
          split; [done|]. intros Hnil. rewrite Hnil in Hd. by apply elem_of_nil in Hd.
        * right. exists u, r'. split; [by right | done].
      + intros [?|(u & r' & [[= -> ->]|?]%elem_of_cons & Hn)]; auto.
        * left. right. destruct Hn as [Hn|[-> Hne]].
          -- exists (k, n). split; [|by right]. apply list_elem_of_fmap. by exists n.
          -- destruct (tools r) as [|d ds] eqn:Hts; [done|].
             exists (k, d). split; [left | by left].
        * right. by exists u, r'. }
  rewrite Hgen. simpl. rewrite elem_of_nil. tauto.
Qed.

(** X12: the tool-usage graph has an edge from [u] to [v] exactly when a
    current resource [u] lists [v] among its tools; a name is a node only if
    it uses a tool or is used as one. *)
Theorem tools_deps_graph_spec state :
  (∀ u v, edge (_generate_tools_deps_graph state) u v ↔
          ∃ r, (u, r) ∈ state ∧ v ∈ tools r) ∧
  (∀ n, n ∈ nodes (_generate_tools_deps_graph state) ↔
        ∃ u r, (u, r) ∈ state ∧ (n ∈ tools r ∨ (n = u ∧ tools r ≠ []))).
Proof.
  split; [intros u v; apply edges_tools_deps_graph | apply nodes_tools_deps_graph].
Qed.

(** X13: [_plan_delete] walks exactly the current resources that use the
    name as a tool: the test [name in self._tools_deps_graph] hides no user,
    and the lookup of the predecessors never raises. *)
Theorem tool_users_spec self n :
  constructed self →
  ∃ users, tool_users self n = Some users ∧
           ∀ x, x ∈ users ↔ ∃ r, (x, r) ∈ _state self ∧ n ∈ tools r.
Proof.
  intros [_ Ht]. unfold tool_users, predecessors.
  destruct (has_node (_tools_deps_graph self) n) eqn:Hnode.
  - eexists. split; [done|]. intros x.
    rewrite (predecessors_elem (_tools_deps_graph self) n); [|by unfold predecessors; rewrite Hnode].
    rewrite Ht. apply edges_tools_deps_graph.
  - exists []. split; [done|]. intros x. split; [by intros ?%elem_of_nil|].
    intros (r & Hr & Hn). apply bool_decide_eq_false in Hnode. destruct Hnode.
    rewrite Ht. apply nodes_tools_deps_graph. exists x, r. auto.
Qed.

Lemma tool_users_spec_witness :
  ∃ users, tool_users changed_tool "toolA" = Some users ∧
           ∀ x, x ∈ users ↔ ∃ r, (x, r) ∈ _state changed_tool ∧ "toolA" ∈ tools r.
Proof.
  apply (tool_users_spec changed_tool "toolA"). split; reflexivity.
Defined.

(** ** The order of the predecessors *)

Lemma sources_add_node n k g : sources (add_node k g) n = sources g n.
Proof. unfold sources. by rewrite edges_add_node. Qed.

Lemma sources_add_edge n u v g :
  sources (add_edge (u, v) g) n =
  sources g n ++ (if bool_decide (v = n ∧ (u, n) ∉ edges g) then [u] else []).
Proof.
  unfold sources, add_edge. rewrite !edges_add_node. simpl.
  case_bool_decide as Hin; simpl; rewrite ?edges_add_node.
  - rewrite bool_decide_eq_false_2; [by rewrite app_nil_r|].
    intros [-> Hn]. done.
  - rewrite filter_app, fmap_app. f_equal.
    case_bool_decide as Hv.
    + destruct Hv as [-> _]. by rewrite filter_cons_True.
    + rewrite filter_cons_False; [done|]. simpl. intros ->. apply Hv. done.
Qed.

Lemma sources_add_edges_from n k ds g :
  sources (add_edges_from (map (λ d, (k, d)) ds) g) n =
  sources g n ++ (if bool_decide (n ∈ ds ∧ (k, n) ∉ edges g) then [k] else []).
Proof.
  unfold add_edges_from. revert g. induction ds as [|d ds IH]; intros g; simpl.
  { by rewrite app_nil_r. }
  rewrite IH, sources_add_edge, <- app_assoc. f_equal.
  destruct (decide (d = n)) as [->|Hd].
  - rewrite (bool_decide_eq_false_2 (n ∈ ds ∧ _)).
    2:{ intros [_ []]. apply edges_add_edge. by left. }
    rewrite app_nil_r.
    rewrite (bool_decide_ext (n = n ∧ (k, n) ∉ edges g)
                             (n ∈ n :: ds ∧ (k, n) ∉ edges g)); [done|].
    split; intros [? ?]; (split; [|done]); [left | done].
  - rewrite (bool_decide_eq_false_2 (d = n ∧ _)); [|by intros [? _]]. simpl.
    rewrite (bool_decide_ext (n ∈ ds ∧ (k, n) ∉ edges (add_edge (k, d) g))
                             (n ∈ d :: ds ∧ (k, n) ∉ edges g)); [done|].
    rewrite edges_add_edge, elem_of_cons.
    split; intros [H1 H2]; split.
    + by right.
    + intros ?. apply H2. by right.
    + destruct H1 as [?|?]; [congruence | done].
    + intros [[= ?]|?]; [congruence | done].
Qed.

(** The predecessors of [n] in a graph built by adding, for each resource of
    the collection in turn, the edges to the names [f] selects. *)
Lemma sources_generate (f : TR → list string) (pre : string → DiGraph → DiGraph)
    n (state : dict) g :
  (∀ k g, edges (pre k g) = edges g) →
  NoDup (dict_keys state) →
  (∀ k d, k ∈ dict_keys state → (k, d) ∉ edges g) →
  sources (foldl (λ g kv, add_edges_from (map (λ d, (kv.1, d)) (f kv.2)) (pre kv.1 g))
             g state) n =
  sources g n ++ (filter (λ kv, n ∈ f kv.2) state).*1.
Proof.
  intros Hpre. unfold dict_keys. revert g.
  induction state as [|[k r] state IH]; intros g Hnd Hfresh; simpl.
  { by rewrite app_nil_r. }
  apply NoDup_cons in Hnd as [Hk Hnd].
  rewrite IH; [|done|].
  - rewrite sources_add_edges_from, <- app_assoc. f_equal.
    + unfold sources. by rewrite Hpre.
    + rewrite Hpre. simpl. case_bool_decide as Hn.
      * destruct Hn as [Hn _]. by rewrite filter_cons_True.
      * rewrite filter_cons_False; [done|]. simpl. intros Hn'. apply Hn. split; [done|].
        apply Hfresh. left.
  - intros k' d Hk'. rewrite edges_add_edges_from, Hpre. intros [Hin|Hin].
    + apply list_elem_of_fmap in Hin as (d' & [= -> ->] & _). done.
    + revert Hin. apply Hfresh. by right.
Qed.

(** X14: for a current collection whose keys are distinct, the dependents
    [_plan_delete] deletes before a current resource [n] are the current
    resources that list [n] among their deps, each once, in the order of the
    collection. *)
Theorem dependees_in_collection_order state n :
  NoDup (dict_keys state) →
  dict_in n state = true →
  predecessors (_generate_delete_deps_graph state) n =
  Some (filter (λ kv, n ∈ deps kv.2) state).*1.
Proof.
  intros Hnd [r Hr%dict_get_Some]%dict_in_true. unfold predecessors.
  assert (has_node (_generate_delete_deps_graph state) n = true) as ->.
  { apply bool_decide_eq_true. by eapply nodes_delete_deps_graph. }
  f_equal.
  change ((filter (λ e, e.2 = n) (edges (_generate_delete_deps_graph state))).*1)
    with (sources (_generate_delete_deps_graph state) n).
  unfold _generate_delete_deps_graph.
  rewrite (sources_generate deps add_node); [done| |done|].
  - intros. apply edges_add_node.
  - intros k d _ ?%elem_of_nil. done.
Qed.

Lemma dependees_in_collection_order_witness :
  predecessors (_generate_delete_deps_graph
                  (_state (_build_apply_planner TEST_RESOURCES_1 [] [] [] false true))) "km" =
  Some (filter (λ kv, "km" ∈ deps kv.2)
          (_state (_build_apply_planner TEST_RESOURCES_1 [] [] [] false true))).*1.
Proof.
  apply dependees_in_collection_order.
  - apply (bool_decide_unpack _). vm_compute. exact I.
  - reflexivity.
Defined.

(** X15: likewise, the users of a tool [n] that [_plan_delete] resolves are
    the current resources that list [n] among their tools, each once, in the
    order of the collection. *)
Theorem tool_users_in_collection_order state target changed n :
  NoDup (dict_keys state) →
  tool_users (__init__ state target changed) n =
  Some (filter (λ kv, n ∈ tools kv.2) state).*1.
Proof.
  intros Hnd. unfold tool_users, predecessors. simpl.
  assert (sources (_generate_tools_deps_graph state) n =
          (filter (λ kv, n ∈ tools kv.2) state).*1) as Hsrc.
  { unfold _generate_tools_deps_graph.
    rewrite (sources_generate tools (λ _ g, g)); [done..|].
    intros k d _ ?%elem_of_nil. done. }
  destruct (has_node _ n) eqn:Hnode; [by rewrite <- Hsrc|].
  f_equal. rewrite <- Hsrc. unfold sources. clear Hsrc.
  apply bool_decide_eq_false in Hnode.
  destruct (filter (λ e : string * string, e.2 = n) _) as [|[u v] es] eqn:Hes; [done|].
  destruct Hnode.
  assert ((u, v) ∈ filter (λ e, e.2 = n) (edges (_generate_tools_deps_graph state)))
    as Huv by (rewrite Hes; left).
  apply list_elem_of_filter in Huv as [Hv Hin]. simpl in Hv. subst v.
  apply nodes_tools_deps_graph. apply edges_tools_deps_graph in Hin as (r & ? & ?).
  exists u, r. auto.
Qed.

Lemma tool_users_in_collection_order_witness :
  tool_users (__init__ tool_and_user tool_and_user {["toolA"]}) "toolA" =
  Some (filter (λ kv, "toolA" ∈ tools kv.2) tool_and_user).*1.
Proof.
  apply tool_users_in_collection_order.
  apply (bool_decide_unpack _). vm_compute. exact I.
Defined.

(** ** Pure creation always yields a plan *)

Local Open Scope nat_scope.

Lemma unresolved_mono keys s s' :
  (∀ x, x ∈ applied s → x ∈ applied s') →
  length (unresolved keys s') ≤ length (unresolved keys s).
Proof.
  intros Hsub. unfold unresolved. induction keys as [|k keys IH]; [done|].
  rewrite !filter_cons.
  destruct (decide (k ∉ applied s')) as [Hk'|Hk'];
    destruct (decide (k ∉ applied s)) as [Hk|Hk]; simpl; try lia.
  destruct Hk. intros ?. apply Hk'. auto.
Qed.

Lemma unresolved_add keys n s :
  n ∈ keys → n ∉ applied s →
  length (unresolved keys (st_add n s)) < length (unresolved keys s).
Proof.
  intros Hn Hs. unfold unresolved.
  induction keys as [|k keys IH]; [by apply elem_of_nil in Hn|].
  assert (length (filter (λ k, k ∉ applied (st_add n s)) keys) ≤
          length (filter (λ k, k ∉ applied s) keys)) as Hle.
  { apply (unresolved_mono keys s (st_add n s)). intros x ?. simpl.
    apply elem_of_union. by right. }
  rewrite !filter_cons.
  destruct (decide (k ∉ applied (st_add n s))) as [Hk'|Hk'];
    destruct (decide (k ∉ applied s)) as [Hk|Hk]; cbn [length].
  - apply elem_of_cons in Hn as [->|Hn]; [|specialize (IH Hn); lia].
    destruct Hk'. simpl. apply elem_of_union. left. by apply elem_of_singleton.
  - destruct Hk. intros ?. apply Hk'. simpl. apply elem_of_union. by right.
  - lia.
  - apply elem_of_cons in Hn as [->|Hn]; [done|]. by apply IH.
Qed.

(** The methods, one call deep. *)
Lemma apply_resource_unseen self fuel n s :
  n ∉ applied s →
  _apply_resource self (S fuel) n s =
  (if negb (dict_in n (_target self)) then _plan_delete self fuel n
   else if _is_changed self n then
     (_plan_delete self fuel n >> _plan_create self fuel n)
   else if negb (dict_in n (_state self)) then _plan_create self fuel n
   else ret tt) (st_add n s).
Proof.
  intros Hn. simpl. unfold bind at 1. unfold is_applied at 1.
  by rewrite (bool_decide_eq_false_2 _ Hn).
Qed.

Lemma plan_create_S self fuel n s :
  _plan_create self (S fuel) n s =
  (assert (dict_in n (_target self) || dict_in n (_state self)) >>
   do resource <- match dict_get (_target self) n with
                  | Some r => ret r
                  | None => dict_getitem (_state self) n
                  end;
   for_each (tools resource) (_apply_resource self fuel) >>
   for_each (deps resource) (_apply_resource self fuel) >>
   plan_append (Create n)) s.
Proof. done. Qed.

Section pure_creation.
Variable self : ApplyPlanner.
Hypothesis Hempty : _state self = [].
Hypothesis Hrefs : references_known self.
Hypothesis Hunchanged : ∀ n, dict_in n (_target self) = true → n ∉ _changed self.

Lemma no_current n : dict_in n (_state self) = false.
Proof. by rewrite Hempty. Qed.

Lemma returns_resolved fuel n s s' :
  _apply_resource self fuel n s = (s', Ok tt) →
  length (unresolved (dict_keys (_target self)) s') ≤
  length (unresolved (dict_keys (_target self)) s).
Proof.
  intros [[_ Hg] _]%(planner_basic self fuel). apply unresolved_mono.
  intros x. apply Hg, no_current.
Qed.

(** A loop of calls that each return when [k] names are unresolved. *)
Lemma for_each_returns fuel k l s :
  (∀ n a, dict_in n (_target self) = true →
     length (unresolved (dict_keys (_target self)) a) ≤ k →
     ∃ b, _apply_resource self fuel n a = (b, Ok tt)) →
  (∀ n, n ∈ l → dict_in n (_target self) = true) →
  length (unresolved (dict_keys (_target self)) s) ≤ k →
  ∃ s', for_each l (_apply_resource self fuel) s = (s', Ok tt) ∧
        length (unresolved (dict_keys (_target self)) s') ≤ k ∧
        ops s `prefix_of` ops s'.
Proof.
  intros Hcall. revert s. induction l as [|x l IH]; intros s Hl Hs.
  { by exists s. }
  destruct (Hcall x s) as [s1 Hx]; [apply Hl; left | done|].
  destruct (IH s1) as (s' & Hrun & Hs' & Hpre).
  { intros. apply Hl. by right. }
  { etrans; [by eapply returns_resolved | done]. }
  exists s'. split; [|split; [done|]].
  - simpl. by rewrite (bind_eval_ok _ _ _ _ _ Hx).
  - etrans; [|exact Hpre]. by apply (planner_basic self fuel) in Hx as [[? _] _].
Qed.

Lemma apply_resource_returns k :
  ∀ n s, dict_in n (_target self) = true →
    length (unresolved (dict_keys (_target self)) s) ≤ k →
    ∃ s', _apply_resource self (S (2 * k)) n s = (s', Ok tt).
Proof.
  induction k as [|k IH]; intros n s Hn Hs.
  - assert (n ∈ applied s) as Hseen.
    { destruct (decide (n ∈ applied s)) as [|Hnot]; [done|].
      apply dict_in_keys in Hn.
      pose proof (unresolved_add _ n s Hn Hnot). lia. }
    exists s. by apply apply_resource_seen.
  - destruct (decide (n ∈ applied s)) as [Hseen|Hnot].
    { exists s. by apply apply_resource_seen. }
    assert (length (unresolved (dict_keys (_target self)) (st_add n s)) ≤ k) as Hs1.
    { apply dict_in_keys in Hn. pose proof (unresolved_add _ n s Hn Hnot). lia. }
    destruct (dict_in_true n (_target self)) as [[r Hr] _]; [done|].
    assert (∀ x, x ∈ tools r ∨ x ∈ deps r → dict_in x (_target self) = true) as Hknown.
    { intros x Hx. destruct (Hrefs n r x) as [?|Hst]; [by left | tauto | done|].
      by rewrite no_current in Hst. }
    destruct (for_each_returns (S (2 * k)) k (tools r) (st_add n s)) as (s1 & Ht & Hs1' & _);
      [done | by auto | done|].
    destruct (for_each_returns (S (2 * k)) k (deps r) s1) as (s2 & Hd & _ & _);
      [done | by auto | done|].
    exists (st_append (Create n) s2).
    replace (2 * S k) with (S (S (2 * k))) by lia.
    remember (S (2 * k)) as f eqn:Hf.
    rewrite apply_resource_unseen by done.
    rewrite Hn. cbn [negb]. unfold _is_changed.
    rewrite (bool_decide_eq_false_2 _ (Hunchanged n Hn)), no_current. cbn [negb].
    rewrite plan_create_S, Hn. cbn [orb].
    erewrite bind_eval_ok; [|reflexivity]. rewrite Hr.
    erewrite bind_eval_ok; [|reflexivity].
    erewrite bind_eval_ok; [|exact Ht].
    erewrite bind_eval_ok; [|exact Hd]. done.
Qed.
End pure_creation.

(** X16: when the current collection is empty, no target resource is marked
    as changed, and the specifiers and every dep and tool that is listed are
    target resources, [plan] succeeds as soon as the bound on the depth of the
    recursion exceeds twice the size of the target collection, whatever the
    cycles among the target resources. *)
Theorem pure_creation_plans self specifiers fuel :
  constructed self →
  _state self = [] →
  references_known self →
  (∀ n, dict_in n (_target self) = true → n ∉ _changed self) →
  (∀ n, n ∈ working_set self specifiers → dict_in n (_target self) = true) →
  2 * length (_target self) < fuel →
  ∃ out, completes (plan fuel self specifiers) out.
Proof.
  intros Hself Hempty Hrefs Hch Hspec Hfuel.
  destruct (for_each_returns self Hempty fuel (length (_target self))
              (working_set self specifiers) (PState ∅ [])) as (s & Hrun & _ & _).
  - intros n a Hn Ha.
    destruct (apply_resource_returns self Hempty Hrefs Hch _ n a Hn Ha) as [b Hb].
    exists b. eapply (apply_resource_fuel_le self (S (2 * length (_target self)))); [lia|done..].
  - done.
  - unfold unresolved, dict_keys. etrans; [apply length_filter|].
    by rewrite length_fmap.
  - eexists. apply plan_completes. exists s. split; [|done].
    apply validate_acyclic_ok; [done|]. rewrite Hempty.
    intros [v Hv]. inversion Hv as [? ? (r & Hr & _)|? ? ? (r & Hr & _) _];
      by apply elem_of_nil in Hr.
Qed.

Lemma pure_creation_plans_witness :
  ∃ out, completes (plan 5 tool_depends_on_user None) out.
Proof.
  apply (pure_creation_plans tool_depends_on_user None 5).
  - split; reflexivity.
  - reflexivity.
  - intros k r x [Hk|Hk] Hx; [|discriminate Hk].
    simpl in Hk. destruct (bool_decide ("a" = k)).
    { injection Hk as <-. simpl in Hx. destruct Hx as [Hx|Hx]; [|inversion Hx].
      apply list_elem_of_singleton in Hx. subst x. left. reflexivity. }
    destruct (bool_decide ("b" = k)); [|discriminate Hk].
    injection Hk as <-. simpl in Hx. destruct Hx as [Hx|Hx]; [inversion Hx|].
    apply list_elem_of_singleton in Hx. subst x. left. reflexivity.
  - intros n _ Hn. apply not_elem_of_empty in Hn. exact Hn.
  - intros n Hn.
    assert (n ∈ ["a"; "b"]) as Hn'.
    { assert (working_set tool_depends_on_user None = ["a"; "b"]) as <-
        by (vm_compute; reflexivity). exact Hn. }
    apply elem_of_cons in Hn' as [->|Hn']; [reflexivity|].
    apply list_elem_of_singleton in Hn' as ->. reflexivity.
  - simpl. lia.
Defined.

(** * The earlier planner ([graph_builder.py]) *)

(** ** Its test suite *)

Example gb_test_all_new_except_changed_spool :
  completes (graph_builder.plan 100
               (_build_apply_planner TEST_RESOURCES_1 [] ["km"; "pes"; "km-config"]
                  ["pes-spool"] false false) (Some ["pes-spool"]))
    ["+km-config"; "+km"; "-pes-spool"; "+pes-spool"].
Proof. vm_compute. reflexivity. Qed.

Example gb_test_all_new :
  completes (graph_builder.plan 100
               (_build_apply_planner TEST_RESOURCES_1 [] [] [] true false) None)
    ["+km-config"; "+km"; "+pes-spool"; "+pes"].
Proof. vm_compute. reflexivity. Qed.

Example gb_test_all_removed :
  completes (graph_builder.plan 100
               (_build_apply_planner TEST_RESOURCES_1 [] [] [] false true) None)
    ["-pes"; "-pes-spool"; "-km"; "-km-config"].
Proof. vm_compute. reflexivity. Qed.

Example gb_test_pes_spool_and_tool_changed :
  completes (graph_builder.plan 100
               (_build_apply_planner TEST_RESOURCES_1 [] [] ["pes-spool"; "km"]
                  false false) None)
    ["-pes"; "-pes-spool"; "+pes-spool"; "-km"; "+km"; "+pes"].
Proof. vm_compute. reflexivity. Qed.

Example gb_test_all_changed :
  completes (graph_builder.plan 100
               (_build_apply_planner TEST_RESOURCES_1 [] []
                  (map name TEST_RESOURCES_1) false false) None)
    ["-pes"; "-pes-spool"; "+pes-spool"; "-km"; "-km-config"; "+km-config"; "+km"; "+pes"].
Proof. vm_compute. reflexivity. Qed.

Example gb_test_km_config_changed :
  completes (graph_builder.plan 100
               (_build_apply_planner TEST_RESOURCES_1 [] [] ["km-config"]
                  false false) None)
    ["-pes"; "-km"; "-km-config"; "+km-config"; "+km"; "+pes"].
Proof. vm_compute. reflexivity. Qed.

Example gb_test_2_all_new :
  completes (graph_builder.plan 100
               (_build_apply_planner TEST_RESOURCES_2 [] [] [] true false) None)
    ["+adp-rpm"; "+database-permission-updater"; "+adp-config"].
Proof. vm_compute. reflexivity. Qed.


(** ** [_applied] only grows *)

Lemma gb_apply_resource_seen self fuel n s :
  n ∈ applied s → graph_builder._apply_resource self (S fuel) n s = (s, Ok tt).
Proof.
  intros Hn. simpl. unfold bind at 1. unfold is_applied at 1.
  by rewrite (bool_decide_eq_true_2 _ Hn).
Qed.

Lemma gb_for_each_seen self fuel l s :
  (∀ x, x ∈ l → x ∈ applied s) →
  for_each l (graph_builder._apply_resource self (S fuel)) s = (s, Ok tt).
Proof.
  induction l as [|x l IH]; intros Hl; [done|].
  cbn [for_each]. erewrite bind_eval_ok.
  - apply IH. intros y Hy. apply Hl. by right.
  - apply gb_apply_resource_seen, Hl. left.
Qed.

Lemma gb_applied_mono self fuel :
  (∀ n s s', graph_builder._apply_resource self fuel n s = (s', Ok tt) →
             applied s ⊆ applied s' ∧ n ∈ applied s') ∧
  (∀ n s s', graph_builder._plan_create self fuel n s = (s', Ok tt) →
             applied s ⊆ applied s') ∧
  (∀ n s s', graph_builder._plan_delete self fuel n s = (s', Ok tt) →
             applied s ⊆ applied s').
Proof.
  induction fuel as [|fuel (IHA & IHC & IHD)]; [by repeat split|].
  assert (Hloop : ∀ (body : string → M unit) l s s',
            for_each l body s = (s', Ok tt) →
            (∀ x a b, body x a = (b, Ok tt) → applied a ⊆ applied b) →
            applied s ⊆ applied s').
  { intros body l s s' Hrun Hbody.
    eapply (for_each_invariant body (λ a, applied s ⊆ applied a)); [|done|done].
    intros x a b _ Hx Ha. etrans; [exact Ha|]. by eapply Hbody. }
  assert (HD : ∀ n s s', graph_builder._plan_delete self (S fuel) n s = (s', Ok tt) →
                         applied s ⊆ applied s').
  { intros n s s' Hrun. simpl in Hrun.
    apply bind_ok in Hrun as (s1 & [] & Has & Hrun).
    apply bind_ok in Hrun as (s2 & [] & Hu & Hrun).
    apply bind_ok in Hrun as (s3 & [] & Hd & Hrun).
    apply bind_ok in Hrun as (s4 & [] & Ht & Hrun).
    injection Hrun as <-. simpl.
    assert (s1 = s) as ->.
    { unfold assert in Has. by destruct (dict_in n (_state self)); injection Has. }
    trans (applied s3); [|apply (Hloop _ _ _ _ Ht); intros x a b Hx; by apply IHA in Hx as [? _]].
    trans (applied s2).
    - destruct (has_node (_tools_deps_graph self) n).
      + apply bind_ok in Hu as (s5 & users & Hp & Hu).
        unfold graph_predecessors in Hp.
        destruct (predecessors _ _); [|done]. injection Hp as <- <-.
        apply (Hloop _ _ _ _ Hu). intros x a b Hx. by apply IHA in Hx as [? _].
      + by injection Hu as <-.
    - apply bind_ok in Hd as (s5 & dependees & Hp & Hd).
      unfold graph_predecessors in Hp.
      destruct (predecessors _ _); [|done]. injection Hp as <- <-.
      apply (Hloop _ _ _ _ Hd). intros x a b Hx. by eapply IHD. }
  assert (HC : ∀ n s s', graph_builder._plan_create self (S fuel) n s = (s', Ok tt) →
                         applied s ⊆ applied s').
  { intros n s s' Hrun. simpl in Hrun.
    apply bind_ok in Hrun as (s1 & [] & Has & Hrun).
    apply bind_ok in Hrun as (s2 & r & Hr & Hrun).
    apply bind_ok in Hrun as (s3 & [] & Ht & Hrun).
    apply bind_ok in Hrun as (s4 & [] & Hd & Hrun).
    injection Hrun as <-. simpl.
    assert (s1 = s) as ->.
    { unfold assert in Has. by destruct (_ || _); injection Has. }
    assert (s2 = s) as ->.
    { destruct (dict_get (_target self) n); [by injection Hr|].
      unfold dict_getitem in Hr. by destruct (dict_get (_state self) n); injection Hr. }
    trans (applied s3); [apply (Hloop _ _ _ _ Ht) | apply (Hloop _ _ _ _ Hd)];
      intros x a b Hx; by apply IHA in Hx as [? _]. }
  split; [|by split].
  intros n s s' Hrun. simpl in Hrun.
  apply bind_ok in Hrun as (s1 & seen & Hseen & Hrun).
  unfold is_applied in Hseen. injection Hseen as <- <-.
  destruct (bool_decide_reflect (n ∈ applied s)) as [Hn|Hn].
  { by injection Hrun as <-. }
  apply bind_ok in Hrun as (s1 & [] & Hadd & Hrun).
  injection Hadd as <-.
  assert (applied (PState ({[n]} ∪ applied s) (ops s)) ⊆ applied s' →
          applied s ⊆ applied s' ∧ n ∈ applied s') as Hend.
  { simpl. intros Hsub. split.
    - intros x Hx. apply Hsub, elem_of_union. by right.
    - apply Hsub, elem_of_union. left. by apply elem_of_singleton. }
  apply Hend.
  destruct (negb (dict_in n (_target self))); [by eapply IHD|].
  destruct (_is_changed self n).
  { apply bind_ok in Hrun as (s2 & [] & Hdel & Hcr).
    trans (applied s2); [by eapply IHD | by eapply IHC]. }
  destruct (negb (dict_in n (_state self))); [by eapply IHC|].
  by injection Hrun as <-.
Qed.

Lemma gb_plan_returns fuel self specifiers s :
  for_each (working_set self specifiers) (graph_builder._apply_resource self fuel)
    (PState (_applied self) []) = (s, Ok tt) →
  graph_builder.plan fuel self specifiers =
  ({| yielded := yield_unvisited ∅ (backfill self (ops s)); raised := None |},
   with_applied (applied s) self).
Proof.
  intros Hrun. unfold graph_builder.plan, graph_builder.plan_body.
  by erewrite bind_eval_ok.
Qed.

Lemma gb_plan_raises fuel self specifiers s e :
  for_each (working_set self specifiers) (graph_builder._apply_resource self fuel)
    (PState (_applied self) []) = (s, Raise e) →
  graph_builder.plan fuel self specifiers =
  ({| yielded := []; raised := Some e |}, with_applied (applied s) self).
Proof.
  intros Hrun. unfold graph_builder.plan, graph_builder.plan_body.
  by erewrite bind_eval_raise.
Qed.

Lemma gb_plan_completes fuel self specifiers out :
  completes (graph_builder.plan fuel self specifiers) out ↔
  ∃ s, for_each (working_set self specifiers) (graph_builder._apply_resource self fuel)
         (PState (_applied self) []) = (s, Ok tt) ∧
       (graph_builder.plan fuel self specifiers).2 = with_applied (applied s) self ∧
       out = yield_unvisited ∅ (backfill self (ops s)).
Proof.
  unfold completes.
  destruct (for_each (working_set self specifiers)
              (graph_builder._apply_resource self fuel) (PState (_applied self) []))
    as [s [[]|e]] eqn:Hrun.
  - rewrite (gb_plan_returns _ _ _ _ Hrun). simpl. split.
    + intros [= <-]. by exists s.
    + intros (s' & [= <-] & _ & ->). done.
  - rewrite (gb_plan_raises _ _ _ _ _ Hrun). simpl. split; [done|].
    by intros (? & [=] & _).
Qed.

(** X17: the earlier planner is single-use: [_applied] is not cleared, so a second
    [plan] with the same specifiers on a planner whose first [plan] completed
    yields nothing. *)
Theorem gb_second_plan_yields_nothing self specifiers fuel fuel' out :
  completes (graph_builder.plan fuel self specifiers) out →
  completes (graph_builder.plan (S fuel')
               (graph_builder.plan fuel self specifiers).2 specifiers) [].
Proof.
  intros (s & Hrun & -> & _)%gb_plan_completes.
  apply gb_plan_completes.
  exists (PState (applied s) []).
  change (working_set (with_applied (applied s) self) specifiers)
    with (working_set self specifiers).
  change (_applied (with_applied (applied s) self)) with (applied s).
  assert (Hall : ∀ x, x ∈ working_set self specifiers → x ∈ applied s).
  { apply (for_each_ok _ (λ x a b, applied a ⊆ applied b ∧ x ∈ applied b)) in Hrun.
    - clear -Hrun. induction Hrun as [|x l s s1 s' [_ Hx] Hl IH]; [by intros ? ?%elem_of_nil|].
      assert (applied s1 ⊆ applied s') as Hsub.
      { clear -Hl. induction Hl as [|x l s s1 s' [Hs _] _ IH]; [done|]. by etrans. }
      intros y [->|Hy]%elem_of_cons; [by apply Hsub | by apply IH].
    - intros x a b _. apply gb_applied_mono. }
  assert (Hagain : for_each (working_set self specifiers)
            (graph_builder._apply_resource (with_applied (applied s) self) (S fuel'))
            (PState (applied s) []) = (PState (applied s) [], Ok tt))
    by by apply gb_for_each_seen.
  split; [done|]. split.
  - by rewrite (gb_plan_returns _ (with_applied (applied s) self) _ _ Hagain).
  - unfold backfill. by rewrite foldl_backfill_nil.
Qed.

Lemma gb_second_plan_yields_nothing_witness :
  completes (graph_builder.plan 6
               (graph_builder.plan 100 changed_tool None).2 None) [].
Proof.
  apply (gb_second_plan_yields_nothing changed_tool None 100 5
           ["-toolA"; "+toolA"]).
  vm_compute. reflexivity.
Defined.


(** ** Cycles of deps are not detected *)

Lemma on_deps_cycle_pred state v :
  on_deps_cycle state v →
  ∃ u r, (u, r) ∈ state ∧ v ∈ deps r ∧ on_deps_cycle state u.
Proof.
  unfold on_deps_cycle. set (R := λ u w, ∃ r, (u, r) ∈ state ∧ w ∈ deps r).
  assert (Hlast : ∀ x z, tc R x z → ∃ y, rtc R x y ∧ R y z).
  { intros x z Hxz. induction Hxz as [x z Hxz|x y z Hxy _ (w & Hyw & Hwz)].
    - by exists x.
    - exists w. split; [by eapply rtc_l | done]. }
  intros (u & Hvu & Huv)%Hlast.
  destruct Huv as (r & Hr & Hv) eqn:E. clear E.
  exists u, r. repeat split; [done..|].
  eapply tc_rtc_r; [|exact Hvu]. apply tc_once. by exists r.
Qed.

Lemma for_each_elem {A} (body : A → M unit) l s s' x :
  for_each l body s = (s', Ok tt) → x ∈ l → ∃ a b, body x a = (b, Ok tt).
Proof.
  revert s. induction l as [|y l IH]; intros s Hrun Hx; [by apply elem_of_nil in Hx|].
  cbn [for_each] in Hrun. apply bind_ok in Hrun as (s1 & [] & Hy & Hl).
  apply elem_of_cons in Hx as [->|Hx]; [by exists s, s1 | by eapply IH].
Qed.

Lemma gb_plan_delete_cycle self fuel v s s' :
  constructed self → on_deps_cycle (_state self) v →
  graph_builder._plan_delete self fuel v s ≠ (s', Ok tt).
Proof.
  intros [Hdg _]. revert v s s'.
  induction fuel as [|fuel IH]; intros v s s' Hv Hrun; [done|].
  simpl in Hrun.
  apply bind_ok in Hrun as (s1 & [] & _ & Hrun).
  apply bind_ok in Hrun as (s2 & [] & _ & Hrun).
  apply bind_ok in Hrun as (s3 & [] & Hd & _).
  apply bind_ok in Hd as (s4 & dependees & Hp & Hd).
  unfold graph_predecessors in Hp.
  destruct (predecessors _ _) as [l|] eqn:Hl; [|done]. injection Hp as <- <-.
  destruct (on_deps_cycle_pred _ _ Hv) as (u & r & Hr & Hvr & Hu).
  assert (u ∈ l) as Hin.
  { apply (predecessors_elem _ _ _ _ Hl). rewrite Hdg.
    apply edges_delete_deps_graph. by exists r. }
  destruct (for_each_elem _ _ _ _ _ Hd Hin) as (a & b & Hrun).
  by eapply IH.
Qed.

Lemma gb_cycle_unvisited self v fuel :
  constructed self → on_deps_cycle (_state self) v →
  dict_in v (_target self) = false ∨ v ∈ _changed self →
  (∀ n s s', graph_builder._apply_resource self fuel n s = (s', Ok tt) →
             v ∉ applied s → (v ∉ applied s') ∧ n ≠ v) ∧
  (∀ n s s', graph_builder._plan_create self fuel n s = (s', Ok tt) →
             v ∉ applied s → v ∉ applied s') ∧
  (∀ n s s', graph_builder._plan_delete self fuel n s = (s', Ok tt) →
             v ∉ applied s → v ∉ applied s').
Proof.
  intros Hself Hv Hgone.
  induction fuel as [|fuel (IHA & IHC & IHD)]; [by repeat split|].
  assert (Hloop : ∀ (body : string → M unit) l s s',
            for_each l body s = (s', Ok tt) →
            (∀ x a b, body x a = (b, Ok tt) → v ∉ applied a → v ∉ applied b) →
            v ∉ applied s → v ∉ applied s').
  { intros body l s s' Hrun Hbody.
    apply (for_each_invariant body (λ a, v ∉ applied a) l s s'); [|done].
    intros x a b _. apply Hbody. }
  assert (HA : ∀ x a b, graph_builder._apply_resource self fuel x a = (b, Ok tt) →
                        v ∉ applied a → v ∉ applied b).
  { intros x a b Hx Ha. by destruct (IHA _ _ _ Hx Ha). }
  split; [|split].
  - intros n s s' Hrun Hs. simpl in Hrun.
    apply bind_ok in Hrun as (s1 & seen & Hseen & Hrun).
    unfold is_applied in Hseen. injection Hseen as <- <-.
    destruct (bool_decide_reflect (n ∈ applied s)) as [Hn|Hn].
    { injection Hrun as <-. split; [done|]. by intros ->. }
    apply bind_ok in Hrun as (s1 & [] & Hadd & Hrun).
    injection Hadd as <-.
    destruct (decide (n = v)) as [->|Hnv].
    + exfalso. destruct (dict_in v (_target self)) eqn:Ht; cbn [negb] in Hrun.
      * destruct Hgone as [|Hch]; [done|].
        unfold _is_changed in Hrun. rewrite (bool_decide_eq_true_2 _ Hch) in Hrun.
        apply bind_ok in Hrun as (s2 & [] & Hdel & _).
        by eapply gb_plan_delete_cycle.
      * by eapply gb_plan_delete_cycle.
    + split; [|done].
      assert (v ∉ applied (PState ({[n]} ∪ applied s) (ops s))) as Hs1.
      { simpl. intros [Hx%elem_of_singleton|Hx]%elem_of_union; [by subst | done]. }
      destruct (negb (dict_in n (_target self))); [by eapply IHD|].
      destruct (_is_changed self n).
      { apply bind_ok in Hrun as (s2 & [] & Hdel & Hcr).
        eapply IHC; [done|]. by eapply IHD. }
      destruct (negb (dict_in n (_state self))); [by eapply IHC|].
      by injection Hrun as <-.
  - intros n s s' Hrun Hs. simpl in Hrun.
    apply bind_ok in Hrun as (s1 & [] & Has & Hrun).
    apply bind_ok in Hrun as (s2 & r & Hr & Hrun).
    apply bind_ok in Hrun as (s3 & [] & Ht & Hrun).
    apply bind_ok in Hrun as (s4 & [] & Hd & Hrun).
    injection Hrun as <-. simpl.
    assert (s1 = s) as ->.
    { unfold assert in Has. by destruct (_ || _); injection Has. }
    assert (s2 = s) as ->.
    { destruct (dict_get (_target self) n); [by injection Hr|].
      unfold dict_getitem in Hr. by destruct (dict_get (_state self) n); injection Hr. }
    apply (Hloop _ _ _ _ Hd HA), (Hloop _ _ _ _ Ht HA), Hs.
  - intros n s s' Hrun Hs. simpl in Hrun.
    apply bind_ok in Hrun as (s1 & [] & Has & Hrun).
    apply bind_ok in Hrun as (s2 & [] & Hu & Hrun).
    apply bind_ok in Hrun as (s3 & [] & Hd & Hrun).
    apply bind_ok in Hrun as (s4 & [] & Ht & Hrun).
    injection Hrun as <-. simpl.
    assert (s1 = s) as ->.
    { unfold assert in Has. by destruct (dict_in n (_state self)); injection Has. }
    apply (Hloop _ _ _ _ Ht HA).
    apply bind_ok in Hd as (s5 & dependees & Hp & Hd).
    unfold graph_predecessors in Hp.
    destruct (predecessors (_delete_deps_graph self) n); [|done]. injection Hp as <- <-.
    apply (Hloop _ _ _ _ Hd IHD).
    destruct (has_node (_tools_deps_graph self) n).
    + apply bind_ok in Hu as (s5 & users & Hp & Hu).
      unfold graph_predecessors in Hp.
      destruct (predecessors _ _); [|done]. injection Hp as <- <-.
      apply (Hloop _ _ _ _ Hu HA), Hs.
    + by injection Hu as <-.
Qed.

(** X18: the earlier planner does not reject cycles: when a current resource of
    the working set that is to be deleted lies on a cycle of deps, [plan]
    completes under no bound on the recursion depth. *)
Theorem gb_deps_cycle_never_completes self specifiers fuel v :
  constructed self → on_deps_cycle (_state self) v →
  dict_in v (_target self) = false ∨ v ∈ _changed self →
  v ∈ working_set self specifiers → v ∉ _applied self →
  ¬ ∃ out, completes (graph_builder.plan fuel self specifiers) out.
Proof.
  intros Hself Hv Hgone Hin Hfresh (out & (s & Hrun & _)%gb_plan_completes).
  destruct (gb_cycle_unvisited self v fuel Hself Hv Hgone) as (HA & _ & _).
  apply (for_each_ok _ (λ x a b, v ∉ applied a → (v ∉ applied b) ∧ x ≠ v)) in Hrun;
    [|intros x a b _; apply HA].
  assert (Hs0 : v ∉ applied (PState (_applied self) [])) by done.
  revert Hin Hs0. clear -Hrun.
  induction Hrun as [|x l s s1 s' Hx Hl IH]; intros Hin Hs0; [by apply elem_of_nil in Hin|].
  destruct (Hx Hs0) as [Hs1 Hxv].
  apply elem_of_cons in Hin as [->|Hin]; [done | by apply IH].
Qed.

Lemma gb_deps_cycle_never_completes_witness :
  ¬ ∃ out, completes (graph_builder.plan 50 mutual_deps_removed None) out.
Proof.
  apply (gb_deps_cycle_never_completes mutual_deps_removed None 50 "x").
  - split; reflexivity.
  - eapply tc_l; [|apply tc_once].
    + exists {| name := "x"; deps := ["y"]; tools := [] |}. split; [|by left].
      apply (bool_decide_unpack _). vm_compute. exact I.
    + exists {| name := "y"; deps := ["x"]; tools := [] |}. split; [|by left].
      apply (bool_decide_unpack _). vm_compute. exact I.
  - left. reflexivity.
  - apply (bool_decide_unpack _). vm_compute. exact I.
  - intros Hin. apply (bool_decide_pack _) in Hin. vm_compute in Hin. exact Hin.
Defined.


(** ** Agreement with the present planner where no tool is used *)

Section no_tools.
Variable self : ApplyPlanner.
Hypothesis Hself : constructed self.
Hypothesis Hnone : ∀ n r, (n, r) ∈ _state self → tools r = [].

Lemma no_tools_nodes : nodes (_tools_deps_graph self) = [].
Proof.
  destruct Hself as [_ ->]. apply elem_of_nil_inv.
  intros n (u & r & Hr & Hn)%nodes_tools_deps_graph.
  rewrite (Hnone _ _ Hr) in Hn.
  destruct Hn as [Hn%elem_of_nil | [_ ?]]; done.
Qed.

Lemma gb_agrees fuel :
  (∀ n s, graph_builder._apply_resource self fuel n s = _apply_resource self fuel n s) ∧
  (∀ n s, graph_builder._plan_create self fuel n s = _plan_create self fuel n s) ∧
  (∀ n s, graph_builder._plan_delete self fuel n s = _plan_delete self fuel n s).
Proof.
  induction fuel as [|fuel (IHA & IHC & IHD)]; [done|].
  split; [|split]; intros n s; simpl.
  - apply bind_ext; [done|]. intros seen s1. destruct seen; [done|].
    apply bind_ext; [done|]. intros [] s2.
    destruct (negb (dict_in n (_target self))); [apply IHD|].
    destruct (_is_changed self n).
    { apply bind_ext; [apply IHD | intros; apply IHC]. }
    destruct (negb (dict_in n (_state self))); [apply IHC | done].
  - apply bind_ext; [done|]. intros [] s1.
    apply bind_ext; [done|]. intros r s2.
    apply bind_ext; [by apply for_each_ext|]. intros [] s3.
    apply bind_ext; [by apply for_each_ext | done].
  - destruct (dict_in n (_state self)) eqn:Hin; [|done].
    apply dict_in_true in Hin as [r Hr].
    apply bind_ext; [done|]. intros [] s1.
    apply bind_ext.
    { destruct (has_node (_tools_deps_graph self) n); [|done].
      apply bind_ext; [done|]. intros users s2. by apply for_each_ext. }
    intros [] s2.
    apply bind_ext.
    { apply bind_ext; [done|]. intros dependees s3. by apply for_each_ext. }
    intros [] s3.
    apply bind_ext; [|done].
    rewrite no_tools_nodes. unfold dict_getitem. rewrite Hr.
    unfold bind, ret. by rewrite (Hnone n r (dict_get_Some _ _ _ Hr)).
Qed.
End no_tools.

(** X19: where no current resource uses a tool and the current collection
    has no cycle, the earlier planner, started with an empty [_applied],
    behaves as the present one: same output or exception, same final
    [_applied]. *)
Theorem gb_agrees_without_tools self specifiers fuel :
  constructed self →
  (∀ n r, (n, r) ∈ _state self → tools r = []) →
  ¬ cyclic (_state self) →
  _applied self = ∅ →
  graph_builder.plan fuel self specifiers = plan fuel self specifiers.
Proof.
  intros Hself Hnone Hacyc Hfresh.
  unfold graph_builder.plan, plan.
  enough (graph_builder.plan_body self fuel specifiers (PState (_applied self) []) =
          plan_body self fuel specifiers (PState (_applied self) [])) as -> by done.
  unfold graph_builder.plan_body, plan_body.
  rewrite (validate_acyclic_ok self Hself Hacyc), Hfresh.
  unfold bind at 3. unfold lift. unfold bind at 3. unfold applied_clear. simpl.
  apply bind_ext; [|done].
  apply for_each_ext. intros x a. by apply gb_agrees.
Qed.

Lemma gb_agrees_without_tools_witness :
  graph_builder.plan 10 deps_only_removed None = plan 10 deps_only_removed None.
Proof.
  apply (gb_agrees_without_tools deps_only_removed None 10).
  - split; reflexivity.
  - intros n r Hin.
    apply elem_of_cons in Hin as [Hin|Hin]; [by injection Hin as -> ->|].
    apply elem_of_cons in Hin as [Hin|Hin]; [by injection Hin as -> ->|].
    apply elem_of_nil in Hin. destruct Hin.
  - intros Hcyc.
    assert (_validate_acyclic deps_only_removed = Raise ValueError) as Hv.
    { apply validate_cyclic; [split; reflexivity | exact Hcyc]. }
    vm_compute in Hv. discriminate Hv.
  - reflexivity.
Defined.
